(** * Interactive-StorygenAI: the agent orchestration pipeline

    A shallow embedding of the server-side agents
    (server/agents/*.agent.ts, SmartRagAgent, server/gemini.ts and the
    chat route of server/routes.ts) and the properties the design
    document states about them, followed by further properties that the
    code itself shows: of the retrieval stages, the generation request,
    the reviewer, the location tracker, the summaries, the classifier
    and the chat route.

    Conventions of the embedding:
    - a JavaScript string is the [string] of the bytes of its UTF-8
      encoding, which is how a literal of this file is read. Searching,
      comparing, concatenating and splitting at an ASCII separator are
      the same on the bytes as on the code units; the length, the white
      space, the line terminators, the patterns of a regular expression
      and the lower case are those of the characters, with the tables of
      the language and of Unicode 14.0. A byte sequence that encodes no
      text is cut by the first byte of each character;
    - a JavaScript number that holds a similarity is a binary64 [float]
      (the kernel's primitive floats, round to nearest even), a number that
      holds a length or a count is a [nat];
    - [async] functions are computations in a state-and-exception monad
      over the [World]: the storage rows, and the log of the calls made to
      the language-model provider;
    - the provider is an oracle: its answer may depend on the request and
      on the number of calls made before it, so that repeated calls with
      the same request may differ. *)

From Stdlib Require Import String Ascii List Bool Arith PeanoNat NArith Lia.
From Stdlib Require Import Permutation Floats Sorted.
Import ListNotations.

Set Warnings "-inexact-float".
Set Implicit Arguments.

Local Open Scope list_scope.
Local Open Scope string_scope.

(* ================================================================= *)
(** ** JavaScript strings *)

Module Js.

(** The double quote, for the templates that contain one. *)
Definition dq : string := String (ascii_of_nat 34) EmptyString.
Definition nl : string := String (ascii_of_nat 10) EmptyString.

(** A falsy string is the empty one. *)
Definition truthy (s : string) : bool :=
  match s with EmptyString => false | _ => true end.

Definition startsWith (s p : string) : bool := String.prefix p s.

(** [s.includes(sub)] *)
Fixpoint includes (s sub : string) : bool :=
  if String.prefix sub s then true
  else match s with
       | EmptyString => false
       | String _ r => includes r sub
       end.

Fixpoint dropString (n : nat) (s : string) : string :=
  match n, s with
  | S n', String _ r => dropString n' r
  | _, _ => s
  end.

Fixpoint takeString (n : nat) (s : string) : string :=
  match n, s with
  | S n', String c r => String c (takeString n' r)
  | _, _ => EmptyString
  end.

(** *** Characters

    The number of bytes of the character that the byte [c] opens: a byte
    below 0xC0 stands alone, the bytes from 0xC0, 0xE0 and 0xF0 on open a
    character of 2, 3 and 4 bytes. *)
Definition width (c : ascii) : nat :=
  let n := nat_of_ascii c in
  if (n <? 192)%nat then 1 else if (n <? 224)%nat then 2 else if (n <? 240)%nat then 3 else 4.

(** The characters of a string, each with its bytes. The fuel is the
    number of bytes, of which every character takes one at least. *)
Fixpoint charsFuel (fuel : nat) (s : string) : list string :=
  match fuel, s with
  | S fuel', String c _ =>
      takeString (width c) s :: charsFuel fuel' (dropString (width c) s)
  | _, _ => []
  end.

Definition chars (s : string) : list string := charsFuel (String.length s) s.

Definition glue (parts : list string) : string := fold_right append EmptyString parts.

(** The code units of a character: 2 for a character of 4 bytes, which
    is a surrogate pair, and 1 for any other. *)
Definition units (ch : string) : nat :=
  match ch with
  | EmptyString => 0
  | String c _ => if (nat_of_ascii c <? 240)%nat then 1 else 2
  end.

(** [s.length] *)
Definition length (s : string) : nat := list_sum (map units (chars s)).

(** The UTF-8 encoding of a code point. *)
Definition encode (n : N) : string :=
  (if n <? 0x80 then String (ascii_of_N n) EmptyString
   else if n <? 0x800 then
     String (ascii_of_N (0xC0 + n / 64)) (String (ascii_of_N (0x80 + n mod 64)) EmptyString)
   else if n <? 0x10000 then
     String (ascii_of_N (0xE0 + n / 4096))
       (String (ascii_of_N (0x80 + (n / 64) mod 64))
          (String (ascii_of_N (0x80 + n mod 64)) EmptyString))
   else
     String (ascii_of_N (0xF0 + n / 262144))
       (String (ascii_of_N (0x80 + (n / 4096) mod 64))
          (String (ascii_of_N (0x80 + (n / 64) mod 64))
             (String (ascii_of_N (0x80 + n mod 64)) EmptyString))))%N.

(** The code point of a character; none when the bytes are not the
    encoding of a code point. *)
Definition decode (ch : string) : N :=
  (match map N_of_ascii (list_ascii_of_string ch) with
   | [a] => a
   | [a; b] => (a mod 32) * 64 + b mod 64
   | [a; b; c] => (a mod 16) * 4096 + (b mod 64) * 64 + c mod 64
   | [a; b; c; d] => (a mod 8) * 262144 + (b mod 64) * 4096 + (c mod 64) * 64 + d mod 64
   | _ => 0
   end)%N.

Definition codePoint (ch : string) : option N :=
  if String.eqb (encode (decode ch)) ch then Some (decode ch) else None.

(** The line terminators of the language: LF, CR, LS and PS. A dot of a
    regular expression matches any character but these. *)
Definition lineTerminatorCodes : list N := [0xA; 0xD; 0x2028; 0x2029]%N.

(** The white space of the language: TAB, VT, FF, the byte order mark
    and the space separators of Unicode. *)
Definition whiteSpaceCodes : list N :=
  [0x9; 0xB; 0xC; 0xFEFF;
   0x20; 0xA0; 0x1680; 0x2000; 0x2001; 0x2002; 0x2003; 0x2004; 0x2005; 0x2006; 0x2007;
   0x2008; 0x2009; 0x200A; 0x202F; 0x205F; 0x3000]%N.

Definition lineTerminators : list string :=
  Eval vm_compute in map encode lineTerminatorCodes.

(** What [\s] of a regular expression matches and [trim] removes: white
    space and line terminators. *)
Definition whiteSpace : list string :=
  Eval vm_compute in map encode (whiteSpaceCodes ++ lineTerminatorCodes).

Definition isTerminator (ch : string) : bool := existsb (String.eqb ch) lineTerminators.

Definition isWhite (ch : string) : bool := existsb (String.eqb ch) whiteSpace.

(** [\w]: letters, digits and the underscore. *)
Definition isWord (c : ascii) : bool :=
  let n := nat_of_ascii c in
  (((48 <=? n) && (n <=? 57)) || ((65 <=? n) && (n <=? 90))
   || ((97 <=? n) && (n <=? 122)) || (n =? 95))%nat.

Definition isWordChar (ch : string) : bool :=
  match ch with
  | String c EmptyString => isWord c
  | _ => false
  end.

Section While.
Variable A : Type.
Variable test : A -> bool.

Fixpoint dropWhile (l : list A) : list A :=
  match l with
  | x :: rest => if test x then dropWhile rest else l
  | [] => []
  end.

Fixpoint takeWhile (l : list A) : list A :=
  match l with
  | x :: rest => if test x then x :: takeWhile rest else []
  | [] => []
  end.
End While.

(** The string after its leading white space, which is what follows a
    leading [\s*] of a regular expression. *)
Definition trimStart (s : string) : string := glue (dropWhile isWhite (chars s)).

Definition trimmed (l : list string) : list string :=
  rev (dropWhile isWhite (rev (dropWhile isWhite l))).

(** [s.trim()] *)
Definition trim (s : string) : string := glue (trimmed (chars s)).

(** *** Lower case

    The lower case of a character below 128. *)
Definition lowerChar (c : ascii) : ascii :=
  let n := nat_of_ascii c in
  if ((65 <=? n) && (n <=? 90))%nat then ascii_of_nat (n + 32) else c.

(** The lower case mappings of the characters from 128 on, from
    UnicodeData.txt of Unicode 14.0: [(first, count, step, image)] maps
    the [count] code points [first], [first + step], ... onto [image],
    [image + step], ... *)
Definition lowerRuns : list (N * N * N * N) :=
  [(0xC0, 23, 1, 0xE0); (0xD8, 7, 1, 0xF8); (0x100, 24, 2, 0x101); (0x132, 3, 2, 0x133);
   (0x139, 8, 2, 0x13A); (0x14A, 23, 2, 0x14B); (0x178, 1, 1, 0xFF); (0x179, 3, 2, 0x17A);
   (0x181, 1, 1, 0x253); (0x182, 2, 2, 0x183); (0x186, 1, 1, 0x254); (0x187, 1, 1, 0x188);
   (0x189, 2, 1, 0x256); (0x18B, 1, 1, 0x18C); (0x18E, 1, 1, 0x1DD); (0x18F, 1, 1, 0x259);
   (0x190, 1, 1, 0x25B); (0x191, 1, 1, 0x192); (0x193, 1, 1, 0x260); (0x194, 1, 1, 0x263);
   (0x196, 1, 1, 0x269); (0x197, 1, 1, 0x268); (0x198, 1, 1, 0x199); (0x19C, 1, 1, 0x26F);
   (0x19D, 1, 1, 0x272); (0x19F, 1, 1, 0x275); (0x1A0, 3, 2, 0x1A1); (0x1A6, 1, 1, 0x280);
   (0x1A7, 1, 1, 0x1A8); (0x1A9, 1, 1, 0x283); (0x1AC, 1, 1, 0x1AD); (0x1AE, 1, 1, 0x288);
   (0x1AF, 1, 1, 0x1B0); (0x1B1, 2, 1, 0x28A); (0x1B3, 2, 2, 0x1B4); (0x1B7, 1, 1, 0x292);
   (0x1B8, 1, 1, 0x1B9); (0x1BC, 1, 1, 0x1BD); (0x1C4, 1, 1, 0x1C6); (0x1C5, 1, 1, 0x1C6);
   (0x1C7, 1, 1, 0x1C9); (0x1C8, 1, 1, 0x1C9); (0x1CA, 1, 1, 0x1CC); (0x1CB, 9, 2, 0x1CC);
   (0x1DE, 9, 2, 0x1DF); (0x1F1, 1, 1, 0x1F3); (0x1F2, 2, 2, 0x1F3); (0x1F6, 1, 1, 0x195);
   (0x1F7, 1, 1, 0x1BF); (0x1F8, 20, 2, 0x1F9); (0x220, 1, 1, 0x19E); (0x222, 9, 2, 0x223);
   (0x23A, 1, 1, 0x2C65); (0x23B, 1, 1, 0x23C); (0x23D, 1, 1, 0x19A); (0x23E, 1, 1, 0x2C66);
   (0x241, 1, 1, 0x242); (0x243, 1, 1, 0x180); (0x244, 1, 1, 0x289); (0x245, 1, 1, 0x28C);
   (0x246, 5, 2, 0x247); (0x370, 2, 2, 0x371); (0x376, 1, 1, 0x377); (0x37F, 1, 1, 0x3F3);
   (0x386, 1, 1, 0x3AC); (0x388, 3, 1, 0x3AD); (0x38C, 1, 1, 0x3CC); (0x38E, 2, 1, 0x3CD);
   (0x391, 17, 1, 0x3B1); (0x3A3, 9, 1, 0x3C3); (0x3CF, 1, 1, 0x3D7); (0x3D8, 12, 2, 0x3D9);
   (0x3F4, 1, 1, 0x3B8); (0x3F7, 1, 1, 0x3F8); (0x3F9, 1, 1, 0x3F2); (0x3FA, 1, 1, 0x3FB);
   (0x3FD, 3, 1, 0x37B); (0x400, 16, 1, 0x450); (0x410, 32, 1, 0x430); (0x460, 17, 2, 0x461);
   (0x48A, 27, 2, 0x48B); (0x4C0, 1, 1, 0x4CF); (0x4C1, 7, 2, 0x4C2); (0x4D0, 48, 2, 0x4D1);
   (0x531, 38, 1, 0x561); (0x10A0, 38, 1, 0x2D00); (0x10C7, 1, 1, 0x2D27);
   (0x10CD, 1, 1, 0x2D2D); (0x13A0, 80, 1, 0xAB70); (0x13F0, 6, 1, 0x13F8);
   (0x1C90, 43, 1, 0x10D0); (0x1CBD, 3, 1, 0x10FD); (0x1E00, 75, 2, 0x1E01);
   (0x1E9E, 1, 1, 0xDF); (0x1EA0, 48, 2, 0x1EA1); (0x1F08, 8, 1, 0x1F00);
   (0x1F18, 6, 1, 0x1F10); (0x1F28, 8, 1, 0x1F20); (0x1F38, 8, 1, 0x1F30);
   (0x1F48, 6, 1, 0x1F40); (0x1F59, 4, 2, 0x1F51); (0x1F68, 8, 1, 0x1F60);
   (0x1F88, 8, 1, 0x1F80); (0x1F98, 8, 1, 0x1F90); (0x1FA8, 8, 1, 0x1FA0);
   (0x1FB8, 2, 1, 0x1FB0); (0x1FBA, 2, 1, 0x1F70); (0x1FBC, 1, 1, 0x1FB3);
   (0x1FC8, 4, 1, 0x1F72); (0x1FCC, 1, 1, 0x1FC3); (0x1FD8, 2, 1, 0x1FD0);
   (0x1FDA, 2, 1, 0x1F76); (0x1FE8, 2, 1, 0x1FE0); (0x1FEA, 2, 1, 0x1F7A);
   (0x1FEC, 1, 1, 0x1FE5); (0x1FF8, 2, 1, 0x1F78); (0x1FFA, 2, 1, 0x1F7C);
   (0x1FFC, 1, 1, 0x1FF3); (0x2126, 1, 1, 0x3C9); (0x212A, 1, 1, 0x6B); (0x212B, 1, 1, 0xE5);
   (0x2132, 1, 1, 0x214E); (0x2160, 16, 1, 0x2170); (0x2183, 1, 1, 0x2184);
   (0x24B6, 26, 1, 0x24D0); (0x2C00, 48, 1, 0x2C30); (0x2C60, 1, 1, 0x2C61);
   (0x2C62, 1, 1, 0x26B); (0x2C63, 1, 1, 0x1D7D); (0x2C64, 1, 1, 0x27D);
   (0x2C67, 3, 2, 0x2C68); (0x2C6D, 1, 1, 0x251); (0x2C6E, 1, 1, 0x271); (0x2C6F, 1, 1, 0x250);
   (0x2C70, 1, 1, 0x252); (0x2C72, 1, 1, 0x2C73); (0x2C75, 1, 1, 0x2C76);
   (0x2C7E, 2, 1, 0x23F); (0x2C80, 50, 2, 0x2C81); (0x2CEB, 2, 2, 0x2CEC);
   (0x2CF2, 1, 1, 0x2CF3); (0xA640, 23, 2, 0xA641); (0xA680, 14, 2, 0xA681);
   (0xA722, 7, 2, 0xA723); (0xA732, 31, 2, 0xA733); (0xA779, 2, 2, 0xA77A);
   (0xA77D, 1, 1, 0x1D79); (0xA77E, 5, 2, 0xA77F); (0xA78B, 1, 1, 0xA78C);
   (0xA78D, 1, 1, 0x265); (0xA790, 2, 2, 0xA791); (0xA796, 10, 2, 0xA797);
   (0xA7AA, 1, 1, 0x266); (0xA7AB, 1, 1, 0x25C); (0xA7AC, 1, 1, 0x261); (0xA7AD, 1, 1, 0x26C);
   (0xA7AE, 1, 1, 0x26A); (0xA7B0, 1, 1, 0x29E); (0xA7B1, 1, 1, 0x287); (0xA7B2, 1, 1, 0x29D);
   (0xA7B3, 1, 1, 0xAB53); (0xA7B4, 8, 2, 0xA7B5); (0xA7C4, 1, 1, 0xA794);
   (0xA7C5, 1, 1, 0x282); (0xA7C6, 1, 1, 0x1D8E); (0xA7C7, 2, 2, 0xA7C8);
   (0xA7D0, 1, 1, 0xA7D1); (0xA7D6, 2, 2, 0xA7D7); (0xA7F5, 1, 1, 0xA7F6);
   (0xFF21, 26, 1, 0xFF41); (0x10400, 40, 1, 0x10428); (0x104B0, 36, 1, 0x104D8);
   (0x10570, 11, 1, 0x10597); (0x1057C, 15, 1, 0x105A3); (0x1058C, 7, 1, 0x105B3);
   (0x10594, 2, 1, 0x105BB); (0x10C80, 51, 1, 0x10CC0); (0x118A0, 32, 1, 0x118C0);
   (0x16E40, 32, 1, 0x16E60); (0x1E900, 34, 1, 0x1E922)]%N.

(** The one mapping of SpecialCasing.txt that holds in every context and
    for every language: the capital I with a dot above becomes an [i] and
    a combining dot above. *)
Definition specialLower : list (N * list N) := [(0x130, [0x69; 0x307])]%N.

Fixpoint expandRun (count : nat) (step source image : N) : list (string * list string) :=
  match count with
  | 0 => []
  | S count' =>
      (encode source, [encode image])
      :: expandRun count' step (source + step)%N (image + step)%N
  end.

(** The mappings, from the character to the characters of its lower
    case. *)
Definition lowerTable : list (string * list string) :=
  Eval vm_compute in
    (map (fun special => (encode (fst special), map encode (snd special))) specialLower
     ++ flat_map (fun run =>
                    match run with
                    | (first, count, step, image) => expandRun (N.to_nat count) step first image
                    end) lowerRuns)%list.

(** The code points with the property Case_Ignorable, and those with
    the property Cased that are not Case_Ignorable (DerivedCoreProperties
    of Unicode 14.0), as ranges with both ends included. *)
Definition caseIgnorableRanges : list (N * N) :=
  [(0x27, 0x27); (0x2E, 0x2E); (0x3A, 0x3A); (0x5E, 0x5E); (0x60, 0x60); (0xA8, 0xA8);
   (0xAD, 0xAD); (0xAF, 0xAF); (0xB4, 0xB4); (0xB7, 0xB8); (0x2B0, 0x36F); (0x374, 0x375);
   (0x37A, 0x37A); (0x384, 0x385); (0x387, 0x387); (0x483, 0x489); (0x559, 0x559);
   (0x55F, 0x55F); (0x591, 0x5BD); (0x5BF, 0x5BF); (0x5C1, 0x5C2); (0x5C4, 0x5C5);
   (0x5C7, 0x5C7); (0x5F4, 0x5F4); (0x600, 0x605); (0x610, 0x61A); (0x61C, 0x61C);
   (0x640, 0x640); (0x64B, 0x65F); (0x670, 0x670); (0x6D6, 0x6DD); (0x6DF, 0x6E8);
   (0x6EA, 0x6ED); (0x70F, 0x70F); (0x711, 0x711); (0x730, 0x74A); (0x7A6, 0x7B0);
   (0x7EB, 0x7F5); (0x7FA, 0x7FA); (0x7FD, 0x7FD); (0x816, 0x82D); (0x859, 0x85B);
   (0x888, 0x888); (0x890, 0x891); (0x898, 0x89F); (0x8C9, 0x902); (0x93A, 0x93A);
   (0x93C, 0x93C); (0x941, 0x948); (0x94D, 0x94D); (0x951, 0x957); (0x962, 0x963);
   (0x971, 0x971); (0x981, 0x981); (0x9BC, 0x9BC); (0x9C1, 0x9C4); (0x9CD, 0x9CD);
   (0x9E2, 0x9E3); (0x9FE, 0x9FE); (0xA01, 0xA02); (0xA3C, 0xA3C); (0xA41, 0xA42);
   (0xA47, 0xA48); (0xA4B, 0xA4D); (0xA51, 0xA51); (0xA70, 0xA71); (0xA75, 0xA75);
   (0xA81, 0xA82); (0xABC, 0xABC); (0xAC1, 0xAC5); (0xAC7, 0xAC8); (0xACD, 0xACD);
   (0xAE2, 0xAE3); (0xAFA, 0xAFF); (0xB01, 0xB01); (0xB3C, 0xB3C); (0xB3F, 0xB3F);
   (0xB41, 0xB44); (0xB4D, 0xB4D); (0xB55, 0xB56); (0xB62, 0xB63); (0xB82, 0xB82);
   (0xBC0, 0xBC0); (0xBCD, 0xBCD); (0xC00, 0xC00); (0xC04, 0xC04); (0xC3C, 0xC3C);
   (0xC3E, 0xC40); (0xC46, 0xC48); (0xC4A, 0xC4D); (0xC55, 0xC56); (0xC62, 0xC63);
   (0xC81, 0xC81); (0xCBC, 0xCBC); (0xCBF, 0xCBF); (0xCC6, 0xCC6); (0xCCC, 0xCCD);
   (0xCE2, 0xCE3); (0xD00, 0xD01); (0xD3B, 0xD3C); (0xD41, 0xD44); (0xD4D, 0xD4D);
   (0xD62, 0xD63); (0xD81, 0xD81); (0xDCA, 0xDCA); (0xDD2, 0xDD4); (0xDD6, 0xDD6);
   (0xE31, 0xE31); (0xE34, 0xE3A); (0xE46, 0xE4E); (0xEB1, 0xEB1); (0xEB4, 0xEBC);
   (0xEC6, 0xEC6); (0xEC8, 0xECD); (0xF18, 0xF19); (0xF35, 0xF35); (0xF37, 0xF37);
   (0xF39, 0xF39); (0xF71, 0xF7E); (0xF80, 0xF84); (0xF86, 0xF87); (0xF8D, 0xF97);
   (0xF99, 0xFBC); (0xFC6, 0xFC6); (0x102D, 0x1030); (0x1032, 0x1037); (0x1039, 0x103A);
   (0x103D, 0x103E); (0x1058, 0x1059); (0x105E, 0x1060); (0x1071, 0x1074); (0x1082, 0x1082);
   (0x1085, 0x1086); (0x108D, 0x108D); (0x109D, 0x109D); (0x10FC, 0x10FC); (0x135D, 0x135F);
   (0x1712, 0x1714); (0x1732, 0x1733); (0x1752, 0x1753); (0x1772, 0x1773); (0x17B4, 0x17B5);
   (0x17B7, 0x17BD); (0x17C6, 0x17C6); (0x17C9, 0x17D3); (0x17D7, 0x17D7); (0x17DD, 0x17DD);
   (0x180B, 0x180F); (0x1843, 0x1843); (0x1885, 0x1886); (0x18A9, 0x18A9); (0x1920, 0x1922);
   (0x1927, 0x1928); (0x1932, 0x1932); (0x1939, 0x193B); (0x1A17, 0x1A18); (0x1A1B, 0x1A1B);
   (0x1A56, 0x1A56); (0x1A58, 0x1A5E); (0x1A60, 0x1A60); (0x1A62, 0x1A62); (0x1A65, 0x1A6C);
   (0x1A73, 0x1A7C); (0x1A7F, 0x1A7F); (0x1AA7, 0x1AA7); (0x1AB0, 0x1ACE); (0x1B00, 0x1B03);
   (0x1B34, 0x1B34); (0x1B36, 0x1B3A); (0x1B3C, 0x1B3C); (0x1B42, 0x1B42); (0x1B6B, 0x1B73);
   (0x1B80, 0x1B81); (0x1BA2, 0x1BA5); (0x1BA8, 0x1BA9); (0x1BAB, 0x1BAD); (0x1BE6, 0x1BE6);
   (0x1BE8, 0x1BE9); (0x1BED, 0x1BED); (0x1BEF, 0x1BF1); (0x1C2C, 0x1C33); (0x1C36, 0x1C37);
   (0x1C78, 0x1C7D); (0x1CD0, 0x1CD2); (0x1CD4, 0x1CE0); (0x1CE2, 0x1CE8); (0x1CED, 0x1CED);
   (0x1CF4, 0x1CF4); (0x1CF8, 0x1CF9); (0x1D2C, 0x1D6A); (0x1D78, 0x1D78); (0x1D9B, 0x1DFF);
   (0x1FBD, 0x1FBD); (0x1FBF, 0x1FC1); (0x1FCD, 0x1FCF); (0x1FDD, 0x1FDF); (0x1FED, 0x1FEF);
   (0x1FFD, 0x1FFE); (0x200B, 0x200F); (0x2018, 0x2019); (0x2024, 0x2024); (0x2027, 0x2027);
   (0x202A, 0x202E); (0x2060, 0x2064); (0x2066, 0x206F); (0x2071, 0x2071); (0x207F, 0x207F);
   (0x2090, 0x209C); (0x20D0, 0x20F0); (0x2C7C, 0x2C7D); (0x2CEF, 0x2CF1); (0x2D6F, 0x2D6F);
   (0x2D7F, 0x2D7F); (0x2DE0, 0x2DFF); (0x2E2F, 0x2E2F); (0x3005, 0x3005); (0x302A, 0x302D);
   (0x3031, 0x3035); (0x303B, 0x303B); (0x3099, 0x309E); (0x30FC, 0x30FE); (0xA015, 0xA015);
   (0xA4F8, 0xA4FD); (0xA60C, 0xA60C); (0xA66F, 0xA672); (0xA674, 0xA67D); (0xA67F, 0xA67F);
   (0xA69C, 0xA69F); (0xA6F0, 0xA6F1); (0xA700, 0xA721); (0xA770, 0xA770); (0xA788, 0xA78A);
   (0xA7F2, 0xA7F4); (0xA7F8, 0xA7F9); (0xA802, 0xA802); (0xA806, 0xA806); (0xA80B, 0xA80B);
   (0xA825, 0xA826); (0xA82C, 0xA82C); (0xA8C4, 0xA8C5); (0xA8E0, 0xA8F1); (0xA8FF, 0xA8FF);
   (0xA926, 0xA92D); (0xA947, 0xA951); (0xA980, 0xA982); (0xA9B3, 0xA9B3); (0xA9B6, 0xA9B9);
   (0xA9BC, 0xA9BD); (0xA9CF, 0xA9CF); (0xA9E5, 0xA9E6); (0xAA29, 0xAA2E); (0xAA31, 0xAA32);
   (0xAA35, 0xAA36); (0xAA43, 0xAA43); (0xAA4C, 0xAA4C); (0xAA70, 0xAA70); (0xAA7C, 0xAA7C);
   (0xAAB0, 0xAAB0); (0xAAB2, 0xAAB4); (0xAAB7, 0xAAB8); (0xAABE, 0xAABF); (0xAAC1, 0xAAC1);
   (0xAADD, 0xAADD); (0xAAEC, 0xAAED); (0xAAF3, 0xAAF4); (0xAAF6, 0xAAF6); (0xAB5B, 0xAB5F);
   (0xAB69, 0xAB6B); (0xABE5, 0xABE5); (0xABE8, 0xABE8); (0xABED, 0xABED); (0xFB1E, 0xFB1E);
   (0xFBB2, 0xFBC2); (0xFE00, 0xFE0F); (0xFE13, 0xFE13); (0xFE20, 0xFE2F); (0xFE52, 0xFE52);
   (0xFE55, 0xFE55); (0xFEFF, 0xFEFF); (0xFF07, 0xFF07); (0xFF0E, 0xFF0E); (0xFF1A, 0xFF1A);
   (0xFF3E, 0xFF3E); (0xFF40, 0xFF40); (0xFF70, 0xFF70); (0xFF9E, 0xFF9F); (0xFFE3, 0xFFE3);
   (0xFFF9, 0xFFFB); (0x101FD, 0x101FD); (0x102E0, 0x102E0); (0x10376, 0x1037A);
   (0x10780, 0x10785); (0x10787, 0x107B0); (0x107B2, 0x107BA); (0x10A01, 0x10A03);
   (0x10A05, 0x10A06); (0x10A0C, 0x10A0F); (0x10A38, 0x10A3A); (0x10A3F, 0x10A3F);
   (0x10AE5, 0x10AE6); (0x10D24, 0x10D27); (0x10EAB, 0x10EAC); (0x10F46, 0x10F50);
   (0x10F82, 0x10F85); (0x11001, 0x11001); (0x11038, 0x11046); (0x11070, 0x11070);
   (0x11073, 0x11074); (0x1107F, 0x11081); (0x110B3, 0x110B6); (0x110B9, 0x110BA);
   (0x110BD, 0x110BD); (0x110C2, 0x110C2); (0x110CD, 0x110CD); (0x11100, 0x11102);
   (0x11127, 0x1112B); (0x1112D, 0x11134); (0x11173, 0x11173); (0x11180, 0x11181);
   (0x111B6, 0x111BE); (0x111C9, 0x111CC); (0x111CF, 0x111CF); (0x1122F, 0x11231);
   (0x11234, 0x11234); (0x11236, 0x11237); (0x1123E, 0x1123E); (0x112DF, 0x112DF);
   (0x112E3, 0x112EA); (0x11300, 0x11301); (0x1133B, 0x1133C); (0x11340, 0x11340);
   (0x11366, 0x1136C); (0x11370, 0x11374); (0x11438, 0x1143F); (0x11442, 0x11444);
   (0x11446, 0x11446); (0x1145E, 0x1145E); (0x114B3, 0x114B8); (0x114BA, 0x114BA);
   (0x114BF, 0x114C0); (0x114C2, 0x114C3); (0x115B2, 0x115B5); (0x115BC, 0x115BD);
   (0x115BF, 0x115C0); (0x115DC, 0x115DD); (0x11633, 0x1163A); (0x1163D, 0x1163D);
   (0x1163F, 0x11640); (0x116AB, 0x116AB); (0x116AD, 0x116AD); (0x116B0, 0x116B5);
   (0x116B7, 0x116B7); (0x1171D, 0x1171F); (0x11722, 0x11725); (0x11727, 0x1172B);
   (0x1182F, 0x11837); (0x11839, 0x1183A); (0x1193B, 0x1193C); (0x1193E, 0x1193E);
   (0x11943, 0x11943); (0x119D4, 0x119D7); (0x119DA, 0x119DB); (0x119E0, 0x119E0);
   (0x11A01, 0x11A0A); (0x11A33, 0x11A38); (0x11A3B, 0x11A3E); (0x11A47, 0x11A47);
   (0x11A51, 0x11A56); (0x11A59, 0x11A5B); (0x11A8A, 0x11A96); (0x11A98, 0x11A99);
   (0x11C30, 0x11C36); (0x11C38, 0x11C3D); (0x11C3F, 0x11C3F); (0x11C92, 0x11CA7);
   (0x11CAA, 0x11CB0); (0x11CB2, 0x11CB3); (0x11CB5, 0x11CB6); (0x11D31, 0x11D36);
   (0x11D3A, 0x11D3A); (0x11D3C, 0x11D3D); (0x11D3F, 0x11D45); (0x11D47, 0x11D47);
   (0x11D90, 0x11D91); (0x11D95, 0x11D95); (0x11D97, 0x11D97); (0x11EF3, 0x11EF4);
   (0x13430, 0x13438); (0x16AF0, 0x16AF4); (0x16B30, 0x16B36); (0x16B40, 0x16B43);
   (0x16F4F, 0x16F4F); (0x16F8F, 0x16F9F); (0x16FE0, 0x16FE1); (0x16FE3, 0x16FE4);
   (0x1AFF0, 0x1AFF3); (0x1AFF5, 0x1AFFB); (0x1AFFD, 0x1AFFE); (0x1BC9D, 0x1BC9E);
   (0x1BCA0, 0x1BCA3); (0x1CF00, 0x1CF2D); (0x1CF30, 0x1CF46); (0x1D167, 0x1D169);
   (0x1D173, 0x1D182); (0x1D185, 0x1D18B); (0x1D1AA, 0x1D1AD); (0x1D242, 0x1D244);
   (0x1DA00, 0x1DA36); (0x1DA3B, 0x1DA6C); (0x1DA75, 0x1DA75); (0x1DA84, 0x1DA84);
   (0x1DA9B, 0x1DA9F); (0x1DAA1, 0x1DAAF); (0x1E000, 0x1E006); (0x1E008, 0x1E018);
   (0x1E01B, 0x1E021); (0x1E023, 0x1E024); (0x1E026, 0x1E02A); (0x1E130, 0x1E13D);
   (0x1E2AE, 0x1E2AE); (0x1E2EC, 0x1E2EF); (0x1E8D0, 0x1E8D6); (0x1E944, 0x1E94B);
   (0x1F3FB, 0x1F3FF); (0xE0001, 0xE0001); (0xE0020, 0xE007F); (0xE0100, 0xE01EF)]%N.

Definition casedRanges : list (N * N) :=
  [(0x41, 0x5A); (0x61, 0x7A); (0xAA, 0xAA); (0xB5, 0xB5); (0xBA, 0xBA); (0xC0, 0xD6);
   (0xD8, 0xF6); (0xF8, 0x1BA); (0x1BC, 0x1BF); (0x1C4, 0x293); (0x295, 0x2AF); (0x370, 0x373);
   (0x376, 0x377); (0x37B, 0x37D); (0x37F, 0x37F); (0x386, 0x386); (0x388, 0x38A);
   (0x38C, 0x38C); (0x38E, 0x3A1); (0x3A3, 0x3F5); (0x3F7, 0x481); (0x48A, 0x52F);
   (0x531, 0x556); (0x560, 0x588); (0x10A0, 0x10C5); (0x10C7, 0x10C7); (0x10CD, 0x10CD);
   (0x10D0, 0x10FA); (0x10FD, 0x10FF); (0x13A0, 0x13F5); (0x13F8, 0x13FD); (0x1C80, 0x1C88);
   (0x1C90, 0x1CBA); (0x1CBD, 0x1CBF); (0x1D00, 0x1D2B); (0x1D6B, 0x1D77); (0x1D79, 0x1D9A);
   (0x1E00, 0x1F15); (0x1F18, 0x1F1D); (0x1F20, 0x1F45); (0x1F48, 0x1F4D); (0x1F50, 0x1F57);
   (0x1F59, 0x1F59); (0x1F5B, 0x1F5B); (0x1F5D, 0x1F5D); (0x1F5F, 0x1F7D); (0x1F80, 0x1FB4);
   (0x1FB6, 0x1FBC); (0x1FBE, 0x1FBE); (0x1FC2, 0x1FC4); (0x1FC6, 0x1FCC); (0x1FD0, 0x1FD3);
   (0x1FD6, 0x1FDB); (0x1FE0, 0x1FEC); (0x1FF2, 0x1FF4); (0x1FF6, 0x1FFC); (0x2102, 0x2102);
   (0x2107, 0x2107); (0x210A, 0x2113); (0x2115, 0x2115); (0x2119, 0x211D); (0x2124, 0x2124);
   (0x2126, 0x2126); (0x2128, 0x2128); (0x212A, 0x212D); (0x212F, 0x2134); (0x2139, 0x2139);
   (0x213C, 0x213F); (0x2145, 0x2149); (0x214E, 0x214E); (0x2160, 0x217F); (0x2183, 0x2184);
   (0x24B6, 0x24E9); (0x2C00, 0x2C7B); (0x2C7E, 0x2CE4); (0x2CEB, 0x2CEE); (0x2CF2, 0x2CF3);
   (0x2D00, 0x2D25); (0x2D27, 0x2D27); (0x2D2D, 0x2D2D); (0xA640, 0xA66D); (0xA680, 0xA69B);
   (0xA722, 0xA76F); (0xA771, 0xA787); (0xA78B, 0xA78E); (0xA790, 0xA7CA); (0xA7D0, 0xA7D1);
   (0xA7D3, 0xA7D3); (0xA7D5, 0xA7D9); (0xA7F5, 0xA7F6); (0xA7FA, 0xA7FA); (0xAB30, 0xAB5A);
   (0xAB60, 0xAB68); (0xAB70, 0xABBF); (0xFB00, 0xFB06); (0xFB13, 0xFB17); (0xFF21, 0xFF3A);
   (0xFF41, 0xFF5A); (0x10400, 0x1044F); (0x104B0, 0x104D3); (0x104D8, 0x104FB);
   (0x10570, 0x1057A); (0x1057C, 0x1058A); (0x1058C, 0x10592); (0x10594, 0x10595);
   (0x10597, 0x105A1); (0x105A3, 0x105B1); (0x105B3, 0x105B9); (0x105BB, 0x105BC);
   (0x10C80, 0x10CB2); (0x10CC0, 0x10CF2); (0x118A0, 0x118DF); (0x16E40, 0x16E7F);
   (0x1D400, 0x1D454); (0x1D456, 0x1D49C); (0x1D49E, 0x1D49F); (0x1D4A2, 0x1D4A2);
   (0x1D4A5, 0x1D4A6); (0x1D4A9, 0x1D4AC); (0x1D4AE, 0x1D4B9); (0x1D4BB, 0x1D4BB);
   (0x1D4BD, 0x1D4C3); (0x1D4C5, 0x1D505); (0x1D507, 0x1D50A); (0x1D50D, 0x1D514);
   (0x1D516, 0x1D51C); (0x1D51E, 0x1D539); (0x1D53B, 0x1D53E); (0x1D540, 0x1D544);
   (0x1D546, 0x1D546); (0x1D54A, 0x1D550); (0x1D552, 0x1D6A5); (0x1D6A8, 0x1D6C0);
   (0x1D6C2, 0x1D6DA); (0x1D6DC, 0x1D6FA); (0x1D6FC, 0x1D714); (0x1D716, 0x1D734);
   (0x1D736, 0x1D74E); (0x1D750, 0x1D76E); (0x1D770, 0x1D788); (0x1D78A, 0x1D7A8);
   (0x1D7AA, 0x1D7C2); (0x1D7C4, 0x1D7CB); (0x1DF00, 0x1DF09); (0x1DF0B, 0x1DF1E);
   (0x1E900, 0x1E943); (0x1F130, 0x1F149); (0x1F150, 0x1F169); (0x1F170, 0x1F189)]%N.

Definition inRange (n : N) (range : N * N) : bool :=
  ((fst range <=? n) && (n <=? snd range))%N.

Definition isCaseIgnorable (n : N) : bool := existsb (inRange n) caseIgnorableRanges.

Definition isCased (n : N) : bool := existsb (inRange n) casedRanges.

(** The first character of [l] that is not case-ignorable is a cased
    letter. *)
Fixpoint reachesCased (l : list string) : bool :=
  match l with
  | [] => false
  | ch :: rest =>
      match codePoint ch with
      | Some n => if isCaseIgnorable n then reachesCased rest else isCased n
      | None => false
      end
  end.

Definition SIGMA : string := Eval vm_compute in encode 0x3A3%N.
Definition SMALL_SIGMA : string := Eval vm_compute in encode 0x3C3%N.
Definition FINAL_SIGMA : string := Eval vm_compute in encode 0x3C2%N.

(** The condition Final_Sigma of SpecialCasing.txt: a cased letter
    before the sigma and none after it, case-ignorable characters
    skipped on both sides. [before] holds the characters before the
    sigma, the nearest first. *)
Definition finalSigma (before after : list string) : bool :=
  reachesCased before && negb (reachesCased after).

(** The characters of the lower case of a character that is not a
    capital sigma. *)
Definition lowerChars (ch : string) : list string :=
  match ch with
  | String c EmptyString => [String (lowerChar c) EmptyString]
  | _ =>
      match find (fun mapping => String.eqb (fst mapping) ch) lowerTable with
      | Some mapping => snd mapping
      | None => [ch]
      end
  end.

Fixpoint lowerFrom (before l : list string) : list string :=
  match l with
  | [] => []
  | ch :: rest =>
      ((if String.eqb ch SIGMA
        then [if finalSigma before rest then FINAL_SIGMA else SMALL_SIGMA]
        else lowerChars ch)
       ++ lowerFrom (ch :: before) rest)%list
  end.

(** [s.toLowerCase()] *)
Definition toLowerCase (s : string) : string := glue (lowerFrom [] (chars s)).

(** *** Splitting and joining

    [s.split(sep)] for a separator of one byte: never empty. *)
Fixpoint splitChar (sep : ascii) (s : string) : list string :=
  match s with
  | EmptyString => [EmptyString]
  | String c r =>
      if Ascii.eqb c sep then EmptyString :: splitChar sep r
      else match splitChar sep r with
           | [] => [String c EmptyString]
           | w :: ws => String c w :: ws
           end
  end.

(** [s.split(/\s+/)] on the characters of [s]: [inRun] tells that the
    previous character was white space, so that a run of white space
    separates once. *)
Fixpoint splitSpacesFrom (inRun : bool) (l : list string) : list string :=
  match l with
  | [] => [EmptyString]
  | ch :: rest =>
      if isWhite ch then
        if inRun then splitSpacesFrom true rest
        else EmptyString :: splitSpacesFrom true rest
      else match splitSpacesFrom false rest with
           | [] => [ch]
           | w :: ws => (ch ++ w) :: ws
           end
  end.

Definition splitSpaces (s : string) : list string := splitSpacesFrom false (chars s).

(** [parts.join(sep)] *)
Fixpoint join (sep : string) (parts : list string) : string :=
  match parts with
  | [] => EmptyString
  | [p] => p
  | p :: rest => p ++ sep ++ join sep rest
  end.

(** What [s.replace(/[^\w\s]/g, ' ')] makes of a character: a space for
    each of its code units, unless it is a word character or white
    space. *)
Definition blanks (ch : string) : list string :=
  if isWordChar ch || isWhite ch then [ch] else repeat " " (units ch).

Definition blankPunctuation (s : string) : string := glue (flat_map blanks (chars s)).

(** [arr.slice(-n)]: the last [n] elements. *)
Definition lastN {A} (n : nat) (l : list A) : list A := skipn (List.length l - n) l.

(** [[...new Set(words)]]: the first occurrence of each word, in order. *)
Fixpoint uniqueFrom (seen words : list string) : list string :=
  match words with
  | [] => []
  | w :: ws =>
      if existsb (String.eqb w) seen then uniqueFrom seen ws
      else w :: uniqueFrom (w :: seen) ws
  end.

Definition unique (words : list string) : list string := uniqueFrom [] words.

(** Decimal rendering of a template's [${n}]. *)
Definition digit (n : nat) : string :=
  String (ascii_of_nat (48 + n)) EmptyString.

Fixpoint showNatFuel (fuel n : nat) : string :=
  match fuel with
  | 0 => digit (n mod 10)
  | S f => if (n <? 10)%nat then digit n
           else showNatFuel f (n / 10) ++ digit (n mod 10)
  end.

Definition showNat (n : nat) : string := showNatFuel n n.

(** [Array.prototype.sort(cmp)], which is stable: [after a b] tells that
    the comparator is positive on [(a, b)], that is, [a] goes after [b].
    An element is placed before the first element it does not go after. *)
Section Sort.
Variable A : Type.
Variable after : A -> A -> bool.

Fixpoint insertSorted (x : A) (l : list A) : list A :=
  match l with
  | [] => [x]
  | y :: t => if after x y then y :: insertSorted x t else x :: y :: t
  end.

Definition sort (l : list A) : list A := fold_right insertSorted [] l.
End Sort.

(** A [Map], which iterates in insertion order: [set] on a key that is
    present replaces the value where it stands. *)
Section OrderedMap.
Variables K V : Type.
Variable eqb : K -> K -> bool.

Definition OMap := list (K * V).

Definition has (m : OMap) (k : K) : bool := existsb (fun e => eqb (fst e) k) m.

Fixpoint set (m : OMap) (k : K) (v : V) : OMap :=
  match m with
  | [] => [(k, v)]
  | (k', v') :: t => if eqb k' k then (k, v) :: t else (k', v') :: set t k v
  end.

Definition entries (m : OMap) : list (K * V) := m.
Definition values (m : OMap) : list V := map snd m.
End OrderedMap.

(** [arr.map((x, i) => f x i)] *)
Fixpoint mapiFrom {A B} (f : A -> nat -> B) (i : nat) (l : list A) : list B :=
  match l with
  | [] => []
  | x :: t => f x i :: mapiFrom f (S i) t
  end.

Definition mapi {A B} (f : A -> nat -> B) (l : list A) : list B := mapiFrom f 0 l.

(** [arr.reduce(f, init)] with the index the callback receives. *)
Fixpoint reduceFrom {A B} (f : B -> A -> nat -> B) (idx : nat) (l : list A) (acc : B) : B :=
  match l with
  | [] => acc
  | x :: t => reduceFrom f (S idx) t (f acc x idx)
  end.

Definition reduce {A B} (f : B -> A -> nat -> B) (l : list A) (init : B) : B :=
  reduceFrom f 0 l init.

End Js.

(* ================================================================= *)
(** ** SimilarityScorer: MemoryAgent.cosineSimilarity *)

Module Similarity.
Local Open Scope float_scope.

Definition Vector := list float.

(** [vecB[idx]] past the end is [undefined], and a product with it [NaN]. *)
Definition dotProduct (vecA vecB : Vector) : float :=
  Js.reduce (fun sum val idx => sum + val * nth idx vecB nan) vecA 0.

Definition magnitude (vec : Vector) : float :=
  sqrt (Js.reduce (fun sum val _ => sum + val * val) vec 0).

Definition cosineSimilarity (vecA vecB : Vector) : float :=
  let dotProduct := dotProduct vecA vecB in
  let magnitudeA := magnitude vecA in
  let magnitudeB := magnitude vecB in
  if ((magnitudeA =? 0) || (magnitudeB =? 0))%bool then 0
  else dotProduct / (magnitudeA * magnitudeB).

(** A vector all of whose components are a zero, of either sign. *)
Definition zeroVector (v : Vector) : Prop :=
  Forall (fun x => x = 0 \/ x = (-0)) v.

End Similarity.

(* ================================================================= *)
(** ** shared/schema.ts: the rows *)

Module Schema.

(** A row of [messages]. The [id] is drawn by the database
    ([gen_random_uuid()]); the model draws it from a counter. *)
Record Message := mkMessage {
  id : nat;
  role : string;
  content : string;
  location : option string
}.

Record InsertMessage := mkInsertMessage {
  ins_role : string;
  ins_content : string;
  ins_location : option string
}.

Record Settings := mkSettings {
  geminiApiKey : option string;
  behaviorPrompt : string;
  frameworkTemplate : string;
  characterPreset : string;
  lore : string
}.

Record InsertMemoryLog := mkInsertMemoryLog {
  log_content : string;
  log_embedding : option string;
  log_location : option string;
  log_summary : option string;
  log_type : option string;
  log_importance : nat
}.

Record MemoryLog := mkMemoryLog {
  log_id : nat;
  log_fields : InsertMemoryLog
}.

End Schema.
Import Schema.

(* ================================================================= *)
(** ** The provider, the world and the monad of [async] functions *)

Module Runtime.

(** What a [catch] clause receives: the [message] of the error, and
    whether [error.response] reports a block for [SAFETY]. *)
Record Exn := mkExn {
  message : option string;
  safetyInError : bool
}.

(** [new Error(msg)] *)
Definition Error (msg : string) : Exn := mkExn (Some msg) false.

Inductive Result (A : Type) : Type :=
| Ok (a : A)
| Throw (e : Exn).
Arguments Ok {A} a.
Arguments Throw {A} e.

(** One turn of a [GenerateContentRequest]. *)
Record Content := mkContent {
  c_role : string;
  c_text : string
}.

(** A call to the provider: [model.generateContent(prompt)],
    [model.generateContent({contents})] and [model.embedContent(text)],
    each with the model's name and the key of the client. *)
Inductive Request : Type :=
| GenerateText (model key prompt : string)
| GenerateChat (model key : string) (contents : list Content)
| EmbedContent (model key text : string).

(** What the agents read in a response: [response.text()], and whether
    [promptFeedback.blockReason] or the first candidate's [finishReason]
    is [SAFETY]. *)
Record Response := mkResponse {
  text : string;
  blockedForSafety : bool
}.

(** The environment of a run: the provider as an oracle (its answer may
    depend on the number of calls made before), [process.env.GEMINI_API_KEY],
    and the two long prompt templates, whose wording no control flow
    depends on: the template of [ProofreaderAgent.reviewResponse], a
    function of the user message and the response, and the one of
    [SmartRagAgent.buildFilteringPrompt], a function of the memories text,
    the history text and the user message. *)
Record Env := mkEnv {
  generateContent : nat -> Request -> Result Response;
  embedContent : nat -> Request -> Result Similarity.Vector;
  envApiKey : option string;
  proofreaderPrompt : string -> string -> string;
  filteringPrompt : string -> string -> string -> string
}.

(** The storage collaborator and the log of the calls to the provider. *)
Record World := mkWorld {
  messages : list Message;
  memoryLogs : list MemoryLog;
  settings : option Settings;
  nextId : nat;
  calls : list Request
}.

Definition M (A : Type) : Type := World -> Result A * World.

Definition ret {A} (a : A) : M A := fun w => (Ok a, w).

Definition throw {A} (e : Exn) : M A := fun w => (Throw e, w).

Definition bind {A B} (m : M A) (k : A -> M B) : M B :=
  fun w =>
    match m w with
    | (Ok a, w') => k a w'
    | (Throw e, w') => (Throw e, w')
    end.

(** [try { m } catch (error) { handler error }]: what [m] did to the world
    before it threw stays done. *)
Definition tryCatch {A} (m : M A) (handler : Exn -> M A) : M A :=
  fun w =>
    match m w with
    | (Ok a, w') => (Ok a, w')
    | (Throw e, w') => handler e w'
    end.

Definition logCall (r : Request) (w : World) : World :=
  mkWorld (messages w) (memoryLogs w) (settings w) (nextId w) (calls w ++ [r])%list.

Section Provider.
Variable E : Env.

Definition callGenerate (r : Request) : M Response :=
  fun w => (generateContent E (length (calls w)) r, logCall r w).

Definition callEmbed (r : Request) : M Similarity.Vector :=
  fun w => (embedContent E (length (calls w)) r, logCall r w).
End Provider.

End Runtime.
Import Runtime.

Declare Scope async_scope.
Delimit Scope async_scope with async.
Notation "x <- c1 ;; c2" := (bind c1 (fun x => c2))
  (at level 100, c1 at next level, right associativity) : async_scope.
Local Open Scope async_scope.

(* ================================================================= *)
(** ** server/storage.ts: DatabaseStorage *)

Module Storage.

Definition getSettings : M (option Settings) := fun w => (Ok (settings w), w).

(** [db.select().from(messages).orderBy(messages.createdAt)]: the rows
    are kept in the order of their creation. *)
Definition getAllMessages : M (list Message) := fun w => (Ok (messages w), w).

Definition createMessage (m : InsertMessage) : M Message :=
  fun w =>
    let created := mkMessage (nextId w) (ins_role m) (ins_content m) (ins_location m) in
    (Ok created,
     mkWorld (messages w ++ [created])%list (memoryLogs w) (settings w)
             (S (nextId w)) (calls w)).

Definition createMemoryLog (l : InsertMemoryLog) : M MemoryLog :=
  fun w =>
    let created := mkMemoryLog (nextId w) l in
    (Ok created,
     mkWorld (messages w) (memoryLogs w ++ [created])%list (settings w)
             (S (nextId w)) (calls w)).

End Storage.

(* ================================================================= *)
(** ** server/agents/memory.agent.ts *)

Module MemoryAgent.

(** A value used as a condition: [undefined] and the empty string are
    falsy. [pick o] is the string of a truthy [o]. *)
Definition pick (o : option string) : option string :=
  match o with
  | Some s => if Js.truthy s then Some s else None
  | None => None
  end.

(** [a || b] *)
Definition orElse (a b : option string) : option string :=
  match pick a with
  | Some s => Some s
  | None => b
  end.

Section WithEnv.
Variable E : Env.

(** The exported [getEmbedding(text, apiKey)]. *)
Definition getEmbedding (text : string) (apiKey : option string) : M Similarity.Vector :=
  match pick (orElse apiKey (envApiKey E)) with
  | None => throw (Error "GEMINI_API_KEY not configured")
  | Some finalApiKey =>
      tryCatch (callEmbed E (EmbedContent "embedding-001" finalApiKey text))
               (fun error => throw error)
  end.

(** The class: its only field is [apiKey]. *)
Record Agent := mkAgent { apiKey : option string }.

Definition new (key : option string) : Agent := mkAgent (orElse key (envApiKey E)).

Definition getEmbeddingOf (this : Agent) (text : string) : M Similarity.Vector :=
  getEmbedding text (apiKey this).

Fixpoint embedEach (finalApiKey : string) (texts : list string) : M (list Similarity.Vector) :=
  match texts with
  | [] => ret []
  | text :: rest =>
      values <- callEmbed E (EmbedContent "embedding-001" finalApiKey text) ;;
      embeddings <- embedEach finalApiKey rest ;;
      ret (values :: embeddings)
  end.

Definition getEmbeddings (this : Agent) (texts : list string) : M (list Similarity.Vector) :=
  match pick (orElse (apiKey this) (envApiKey E)) with
  | None => throw (Error "GEMINI_API_KEY not configured")
  | Some finalApiKey => embedEach finalApiKey texts
  end.

End WithEnv.
End MemoryAgent.

(* ================================================================= *)
(** ** server/agents/query.agent.ts: the RetrievalCoordinator *)

Module QueryAgent.

Definition stopWords : list string :=
  ["the"; "a"; "an"; "and"; "or"; "but"; "in"; "on"; "at"; "to"; "for"; "of"; "with"; "by";
   "is"; "are"; "was"; "were"; "be"; "been"; "being"; "have"; "has"; "had"; "do"; "does"; "did"].

Definition extractKeywords (query : string) : list string :=
  let words :=
    filter (fun word => (2 <? Js.length word)%nat
                        && negb (existsb (String.eqb word) stopWords))
           (Js.splitSpaces (Js.blankPunctuation (Js.toLowerCase query))) in
  Js.unique words.

(** The comparator [(a, b) => a.content.length - b.content.length] is
    positive when [a] is the longer. *)
Definition longer (a b : Message) : bool :=
  (Js.length (content b) <? Js.length (content a))%nat.

Definition matchesOf (keywordLimit : nat) (allMessages : list Message) (keyword : string)
  : list Message :=
  let matches :=
    filter (fun message =>
              let lowerContent := Js.toLowerCase (content message) in
              Js.includes lowerContent (Js.toLowerCase keyword))
           allMessages in
  let sortedMatches := Js.sort longer matches in
  firstn keywordLimit sortedMatches.

(** The second loop: a message enters [uniqueMessages] once. *)
Definition addUnique (uniqueMessages : Js.OMap nat Message) (message : Message)
  : Js.OMap nat Message :=
  if Js.has Nat.eqb uniqueMessages (id message) then uniqueMessages
  else Js.set Nat.eqb uniqueMessages (id message) message.

Definition keywordSearch (query : string) (allMessages : list Message) : list Message :=
  let keywords := extractKeywords query in
  if (length keywords =? 0)%nat then []
  else
    let keywordLimit := if (length keywords <? 5)%nat then 15 else 10 in
    let allKeywordMatches :=
      fold_left (fun acc keyword =>
                   Js.set String.eqb acc keyword (matchesOf keywordLimit allMessages keyword))
                keywords [] in
    let uniqueMessages :=
      fold_left (fun acc entry => fold_left addUnique (snd entry) acc)
                (Js.entries allKeywordMatches) [] in
    Js.values uniqueMessages.

Definition SIMILARITY_THRESHOLD : float := 0.1%float.

(** The comparator [(a, b) => b.similarity - a.similarity] is positive
    when [b] is the more similar. *)
Definition lessSimilar (a b : Message * float) : bool :=
  (0 <? snd b - snd a)%float.

Section WithEnv.
Variable E : Env.

(** [allMessages.map((message, i) => ...messageEmbeddings[i]...)]: an
    embedding that is missing makes [cosineSimilarity] throw. *)
Fixpoint similaritiesFrom (queryEmbedding : Similarity.Vector)
    (messageEmbeddings : list Similarity.Vector) (i : nat) (allMessages : list Message)
  : M (list (Message * float)) :=
  match allMessages with
  | [] => ret []
  | message :: rest =>
      match nth_error messageEmbeddings i with
      | None => throw (Error "Cannot read properties of undefined")
      | Some embedding =>
          more <- similaritiesFrom queryEmbedding messageEmbeddings (S i) rest ;;
          ret ((message, Similarity.cosineSimilarity queryEmbedding embedding) :: more)
      end
  end.

Definition semanticSearch (memoryAgent : MemoryAgent.Agent) (query : string)
    (allMessages : list Message) : M (list Message) :=
  tryCatch
    (queryEmbedding <- MemoryAgent.getEmbeddingOf E memoryAgent query ;;
     messageEmbeddings <- MemoryAgent.getEmbeddings E memoryAgent (map content allMessages) ;;
     similarities <- similaritiesFrom queryEmbedding messageEmbeddings 0 allMessages ;;
     let relevantMessages :=
       map fst
           (Js.sort lessSimilar
                    (filter (fun s => (SIMILARITY_THRESHOLD <? snd s)%float) similarities)) in
     ret (firstn 15 relevantMessages))
    (fun error => ret []).

(** The merge loop: a semantic result is pushed when its id is not among
    the ids of the keyword results. *)
Definition pushIfNew (existingIds : list nat) (combinedResults : list Message)
    (message : Message) : list Message :=
  if existsb (Nat.eqb (id message)) existingIds then combinedResults
  else (combinedResults ++ [message])%list.

Definition merge (keywordBasedResults semanticSearchResults : list Message) : list Message :=
  let combinedResults := keywordBasedResults in
  let existingIds := map id combinedResults in
  let combinedResults := fold_left (pushIfNew existingIds) semanticSearchResults combinedResults in
  firstn 100 combinedResults.

Definition queryMessages (query apiKey : string) : M (list Message) :=
  let memoryAgent := MemoryAgent.new E (Some apiKey) in
  allMessages <- Storage.getAllMessages ;;
  if (length allMessages =? 0)%nat then ret []
  else
    let keywordBasedResults := keywordSearch query allMessages in
    semanticSearchResults <- semanticSearch memoryAgent query allMessages ;;
    ret (merge keywordBasedResults semanticSearchResults).

End WithEnv.
End QueryAgent.

(* ================================================================= *)
(** ** server/agents/SmartRagAgent.ts: the ContextDistiller *)

Module SmartRagAgent.
Section WithEnv.
Variable E : Env.

Definition buildFilteringPrompt (userMessage : string)
    (retrievedMemories recentHistory : list Message) : string :=
  let memoriesText :=
    Js.join (Js.nl ++ Js.nl)
            (map (fun mem => "[Memory Chunk]" ++ Js.nl ++ role mem ++ ": " ++ content mem)
                 retrievedMemories) in
  let historyText :=
    Js.join Js.nl (map (fun msg => role msg ++ ": " ++ content msg) recentHistory) in
  filteringPrompt E memoriesText historyText userMessage.

(** [this.gemini] is the client built from the key of the constructor. *)
Definition filterContext (key : string) (userMessage : string)
    (retrievedMemories recentHistory : list Message) : M string :=
  if (length retrievedMemories =? 0)%nat then ret EmptyString
  else
    let prompt := buildFilteringPrompt userMessage retrievedMemories recentHistory in
    result <- callGenerate E (GenerateText "gemini-2.5-pro" key prompt) ;;
    ret (Js.trim (text result)).

(** The constructor throws on a falsy key. *)
Definition new (apiKey : string) : M string :=
  if Js.truthy apiKey then ret apiKey
  else throw (Error "API key is required to initialize SmartRagAgent").

Definition handleRequest (this : string) (userMessage : string)
    (rawConversationHistory : list Message) (clientApiKey : string) : M string :=
  retrievedMemories <- QueryAgent.queryMessages E userMessage clientApiKey ;;
  let recentHistory := Js.lastN 5 rawConversationHistory in
  filteredCanon <- filterContext this userMessage retrievedMemories recentHistory ;;
  ret filteredCanon.

End WithEnv.
End SmartRagAgent.

(* ================================================================= *)
(** ** server/agents/generation.agent.ts: the ResponseGenerator *)

Module GenerationAgent.

Record HistoryEntry := mkEntry {
  h_role : string;
  h_content : string
}.

Record ChatContext := mkChatContext {
  ctx_behaviorPrompt : string;
  ctx_frameworkTemplate : string;
  ctx_characterPreset : option string;
  ctx_lore : option string;
  relevantMemories : list string;
  highFidelityTranscript : option string;
  conversationHistory : list HistoryEntry
}.

Definition SAFETY_SENTINEL : string := "Generation error due to Safety Issue".
Definition APOLOGY : string := "I couldn’t generate a response. Please try again.".

Definition section (heading : string) (body : option string) : string :=
  match MemoryAgent.pick body with
  | Some b => Js.nl ++ Js.nl ++ heading ++ Js.nl ++ b
  | None => EmptyString
  end.

Definition systemInstructionOf (context : ChatContext) : string :=
  let systemInstruction := ctx_behaviorPrompt context in
  let systemInstruction :=
    systemInstruction ++ section "--- PRESET CHARACTER DETAILS ---" (ctx_characterPreset context) in
  let systemInstruction :=
    systemInstruction ++ section "--- WORLD LORE & BACKGROUND ---" (ctx_lore context) in
  let systemInstruction :=
    systemInstruction ++ section "Output Format:" (Some (ctx_frameworkTemplate context)) in
  match MemoryAgent.pick (highFidelityTranscript context) with
  | Some transcript =>
      systemInstruction ++ Js.nl ++ Js.nl
      ++ "--- Full Transcript of a Relevant Past Event ---" ++ Js.nl
      ++ "You have requested details about a past event. Here is the full transcript of that scene to help you provide a detailed answer:"
      ++ Js.nl ++ transcript
  | None =>
      if (0 <? length (relevantMemories context))%nat then
        let memoryContext :=
          Js.join Js.nl
                  (Js.mapi (fun mem i => "[Memory " ++ Js.showNat (i + 1) ++ "]: " ++ mem)
                           (relevantMemories context)) in
        systemInstruction ++ Js.nl ++ Js.nl
        ++ "--- Relevant Context from Memory ---" ++ Js.nl ++ memoryContext
      else systemInstruction
  end.

Definition contentsOf (userMessage : string) (context : ChatContext) : list Content :=
  let systemInstruction := systemInstructionOf context in
  let contents :=
    map (fun msg => mkContent (if String.eqb (h_role msg) "user" then "user" else "model")
                              (h_content msg))
        (conversationHistory context) in
  let contents :=
    match contents with
    | first :: rest =>
        if String.eqb (c_role first) "user" then
          mkContent (c_role first)
                    (systemInstruction ++ Js.nl ++ Js.nl ++ "---" ++ Js.nl ++ Js.nl ++ c_text first)
          :: rest
        else mkContent "user" systemInstruction :: contents
    | [] => [mkContent "user" systemInstruction]
    end in
  (contents ++ [mkContent "user" userMessage])%list.

Section WithEnv.
Variable E : Env.

(** The client is built from [apiKey] when it is truthy, and is the one
    of the constructor otherwise. *)
Definition clientKey (apiKey : option string) : string :=
  match MemoryAgent.pick apiKey with
  | Some k => k
  | None => match MemoryAgent.pick (envApiKey E) with Some k => k | None => EmptyString end
  end.

Definition generateStoryResponse (userMessage : string) (context : ChatContext)
    (apiKey : option string) : M string :=
  let request :=
    GenerateChat "gemini-3-pro-preview" (clientKey apiKey) (contentsOf userMessage context) in
  tryCatch
    (result <- callGenerate E request ;;
     if blockedForSafety result then ret SAFETY_SENTINEL
     else if Js.truthy (text result) then ret (text result) else ret APOLOGY)
    (fun error =>
       if safetyInError error then ret SAFETY_SENTINEL
       else
         match message error with
         | Some msg =>
             if Js.includes msg "API_KEY" then
               throw (Error "Invalid or missing Gemini API key. Please configure it in Settings.")
             else
               throw (Error ("Failed to generate response: "
                             ++ (if Js.truthy msg then msg else "Unknown error")))
         | None => throw (Error "Failed to generate response: Unknown error")
         end).

End WithEnv.
End GenerationAgent.

(* ================================================================= *)
(** ** server/agents/proofreader.agent.ts: the ComplianceReviewer *)

Module ProofreaderAgent.

Record ProofreaderResult := mkResult {
  isCompliant : bool;
  feedback : option string
}.

(** [text.replace(/^NON-COMPLIANT\s*/, '')] *)
Definition stripMarker (text : string) : string :=
  if Js.startsWith text "NON-COMPLIANT" then Js.trimStart (Js.dropString 13 text)
  else text.

Definition NO_FEEDBACK : string :=
  "The response was non-compliant, but no specific feedback was provided.".

Section WithEnv.
Variable E : Env.

Definition reviewResponse (response apiKey userMessage : string) : M ProofreaderResult :=
  let prompt := proofreaderPrompt E userMessage response in
  tryCatch
    (result <- callGenerate E (GenerateText "gemini-2.5-pro" apiKey prompt) ;;
     let text := Js.trim (text result) in
     if Js.startsWith text "COMPLIANT" then ret (mkResult true None)
     else
       let feedback := Js.trim (stripMarker text) in
       ret (mkResult false (Some (if Js.truthy feedback then feedback else NO_FEEDBACK))))
    (fun error => ret (mkResult true None)).

End WithEnv.
End ProofreaderAgent.

(* ================================================================= *)
(** ** server/agents/orchestrator.agent.ts *)

Module OrchestratorAgent.
Import GenerationAgent ProofreaderAgent.

Definition LABEL : string := "**Location:**".

(** What a greedy dot-star matches: the characters before the first line
    terminator. *)
Definition restOfLine (s : string) : string :=
  Js.glue (Js.takeWhile (fun ch => negb (Js.isTerminator ch)) (Js.chars s)).

(** The capture group of the regular expression of [_extractLocation]
    on [text], when the expression matches. The expression is anchored at
    the start of the text, skips white space (line ends included), reads
    the label, skips white space again, and captures the characters up to
    the end of the line. *)
Definition explicitMatch (text : string) : option string :=
  let s := Js.trimStart text in
  if Js.startsWith s LABEL then
    Some (restOfLine (Js.trimStart (Js.dropString (String.length LABEL) s)))
  else None.

Definition header (text : string) : string :=
  Js.join Js.nl (firstn 5 (Js.splitChar (ascii_of_nat 10) text)).

Definition locationPrompt (header : string) : string :=
  Js.nl
  ++ "From the following header, extract the full location string. The location is typically the first line, often containing a place, time, and day. It might look like "
  ++ Js.dq ++ "Heizen Academy - Classroom 1-A | Morning | [Day 1] | 09:00" ++ Js.dq ++ "." ++ Js.nl
  ++ "Respond with *only* the location string, and nothing else. If no clear location is found, respond with "
  ++ Js.dq ++ "N/A" ++ Js.dq ++ "." ++ Js.nl
  ++ "Header:" ++ Js.nl
  ++ Js.dq ++ Js.dq ++ Js.dq ++ Js.nl
  ++ header ++ Js.nl
  ++ Js.dq ++ Js.dq ++ Js.dq ++ Js.nl.

(** The test on the answer of the model. *)
Definition acceptable (location : string) : bool :=
  Js.truthy location && negb (String.eqb location "N/A")
  && (5 <? Js.length location)%nat.

Definition MAX_RETRIES : nat := 2.

(** The corrective note pushed onto the working history. *)
Definition systemNote (feedback : option string) : string :=
  "System Note: The previous response was not compliant. Please fix the following issues and regenerate the response:"
  ++ Js.nl ++ "- " ++ match feedback with Some f => f | None => "null" end.

Definition pushFeedback (chatContext : ChatContext) (generatedResponse : string)
    (feedback : option string) : ChatContext :=
  mkChatContext (ctx_behaviorPrompt chatContext) (ctx_frameworkTemplate chatContext)
    (ctx_characterPreset chatContext) (ctx_lore chatContext)
    (relevantMemories chatContext) (highFidelityTranscript chatContext)
    (conversationHistory chatContext
     ++ [mkEntry "model" generatedResponse; mkEntry "user" (systemNote feedback)])%list.

(** [rawConversationHistory[length - 1].location || "Unknown"] *)
Definition lastKnownLocationOf (rawConversationHistory : list Message) : string :=
  match rev rawConversationHistory with
  | [] => "Unknown"
  | lastMessage :: _ =>
      match MemoryAgent.pick (location lastMessage) with
      | Some l => l
      | None => "Unknown"
      end
  end.

Section WithEnv.
Variable E : Env.

Definition _extractLocation (text apiKey : string) : M (option string) :=
  if negb (Js.truthy text) then ret None
  else
    match MemoryAgent.pick (explicitMatch text) with
    | Some captured => ret (Some (Js.trim captured))
    | None =>
        let header := header text in
        tryCatch
          (result <- callGenerate E (GenerateText "gemini-3-flash-preview" apiKey
                                                  (locationPrompt header)) ;;
           let location := Js.trim (Runtime.text result) in
           if acceptable location then ret (Some location) else ret None)
          (fun error => ret None)
    end.

(** The [for] loop of [handleRequest]: [remaining] is [MAX_RETRIES - i],
    and [response] the value of the variable when the iteration starts. *)
Fixpoint generationLoop (remaining : nat) (userMessage : string) (chatContext : ChatContext)
    (geminiApiKey : string) (response : string) : M string :=
  match remaining with
  | 0 => ret response
  | S remaining' =>
      generatedResponse <-
        generateStoryResponse E userMessage chatContext (Some geminiApiKey) ;;
      review <- reviewResponse E generatedResponse geminiApiKey userMessage ;;
      if isCompliant review then ret generatedResponse
      else
        generationLoop remaining' userMessage
          (pushFeedback chatContext generatedResponse (feedback review))
          geminiApiKey generatedResponse
  end.

Definition chatContextOf (settings : Settings) (filteredCanon : string)
    (updatedConversationHistory : list Message) : ChatContext :=
  mkChatContext (behaviorPrompt settings) (frameworkTemplate settings)
    (MemoryAgent.pick (Some (characterPreset settings))) None
    [filteredCanon] None
    (map (fun msg => mkEntry (if String.eqb (role msg) "user" then "user" else "model")
                             (content msg))
         (Js.lastN 20 updatedConversationHistory)).

Definition handleRequest (userMessage : string) (rawConversationHistory : list Message)
    (clientApiKey : option string) : M string :=
  settings <- Storage.getSettings ;;
  match settings with
  | None => throw (Error "Settings not found.")
  | Some settings =>
      match MemoryAgent.pick (MemoryAgent.orElse clientApiKey (geminiApiKey settings)) with
      | None => throw (Error "Gemini API key is missing.")
      | Some geminiApiKey =>
          smartRagAgent <- SmartRagAgent.new geminiApiKey ;;
          let lastKnownLocation := lastKnownLocationOf rawConversationHistory in
          createdMessage <-
            Storage.createMessage (mkInsertMessage "user" userMessage (Some lastKnownLocation)) ;;
          let updatedConversationHistory := (rawConversationHistory ++ [createdMessage])%list in
          filteredCanon <-
            SmartRagAgent.handleRequest E smartRagAgent userMessage
                                        updatedConversationHistory geminiApiKey ;;
          let chatContext := chatContextOf settings filteredCanon updatedConversationHistory in
          response <- generationLoop MAX_RETRIES userMessage chatContext geminiApiKey
                                     EmptyString ;;
          extracted <- _extractLocation response geminiApiKey ;;
          let newLocation :=
            match MemoryAgent.pick extracted with
            | Some l => l
            | None => lastKnownLocation
            end in
          _ <- Storage.createMessage (mkInsertMessage "assistant" response (Some newLocation)) ;;
          ret response
      end
  end.

End WithEnv.
End OrchestratorAgent.

(* ================================================================= *)
(** ** server/gemini.ts: summarizeForMemory *)

Module Gemini.
Section WithEnv.
Variable E : Env.

(** The retry loop: [remaining] is [maxRetries - attempt + 1]. The wait
    between two attempts changes nothing the model observes. *)
Fixpoint summarizeAttempts (remaining : nat) (key text : string) : M string :=
  match remaining with
  | 0 => ret text
  | S remaining' =>
      tryCatch
        (result <- callGenerate E
                     (GenerateChat "gemini-2.5-flash" key
                        [mkContent "user"
                                   ("Summarize this chat for memory:" ++ Js.nl ++ Js.nl ++ text)]) ;;
         ret (if Js.truthy (Runtime.text result) then Runtime.text result else text))
        (fun err =>
           match remaining' with
           | 0 => ret text
           | _ => summarizeAttempts remaining' key text
           end)
  end.

Definition summarizeForMemory (messages : list string) (apiKey : option string) : M string :=
  let text := Js.join Js.nl messages in
  summarizeAttempts 3 (GenerationAgent.clientKey E apiKey) text.

End WithEnv.
End Gemini.

(* ================================================================= *)
(** ** server/routes.ts: POST /api/chat *)

Module Routes.
Import GenerationAgent ProofreaderAgent.

Inductive Body : Type :=
| JsonMessage (m : Message)
| JsonError (error : string).

Record HttpResponse := mkHttp {
  status : nat;
  body : Body
}.

Definition DEFAULT_BEHAVIOR : string :=
  "You are a creative and engaging storyteller. Your responses should be imaginative, vivid, and captivating.".

(** [lastFourMessages.map((m) => `${m.role}: ${m.content}`).join("\n")] *)
Definition conversationSnippet (lastFourMessages : list Message) : string :=
  Js.join Js.nl (map (fun m => role m ++ ": " ++ content m) lastFourMessages).

Section WithEnv.
Variable E : Env.

Definition chatContextOf (settings : option Settings) (filteredContext : string)
    (allMessages : list Message) : ChatContext :=
  mkChatContext
    (match MemoryAgent.pick (option_map behaviorPrompt settings) with
     | Some p => p
     | None => DEFAULT_BEHAVIOR
     end)
    (match MemoryAgent.pick (option_map frameworkTemplate settings) with
     | Some t => t
     | None => EmptyString
     end)
    (option_map characterPreset settings)
    (option_map lore settings)
    (if Js.truthy filteredContext then [filteredContext] else [])
    None
    (map (fun msg => mkEntry (role msg) (content msg)) (Js.lastN 20 allMessages)).

(** The consolidation step: a memory log every 4 messages. *)
Definition consolidate (updatedMessages : list Message) (apiKey : string) : M unit :=
  let totalMessages := length updatedMessages in
  if ((totalMessages mod 4 =? 0) && (0 <? totalMessages))%nat then
    let lastFourMessages := Js.lastN 4 updatedMessages in
    let conversationSnippet := conversationSnippet lastFourMessages in
    summary <- Gemini.summarizeForMemory E (map content lastFourMessages) (Some apiKey) ;;
    _ <- Storage.createMemoryLog
           (mkInsertMemoryLog conversationSnippet None None (Some summary) None 5) ;;
    ret tt
  else ret tt.

Definition isStoryMode : bool := true.

(** The handler. [parsed] is what the schema of the request makes of the
    body: it returns the [content] of the body, or it throws its error,
    whose message is the one of the validation library. *)
Definition chat (parsed : Result string) : M HttpResponse :=
  tryCatch
    (match parsed with
     | Throw zodError => throw zodError
     | Ok content =>
         settings <- Storage.getSettings ;;
         match MemoryAgent.pick
                 (MemoryAgent.orElse
                    (match settings with Some s => geminiApiKey s | None => None end)
                    (envApiKey E)) with
         | None =>
             ret (mkHttp 400 (JsonError "Gemini API key not configured. Please add it in Settings."))
         | Some apiKey =>
             userMessage <- Storage.createMessage (mkInsertMessage "user" content None) ;;
             allMessages <- Storage.getAllMessages ;;
             aiResponse <-
               (if isStoryMode then
                  smartRagAgent <- SmartRagAgent.new apiKey ;;
                  filteredContext <-
                    SmartRagAgent.handleRequest E smartRagAgent content allMessages apiKey ;;
                  let chatContext := chatContextOf settings filteredContext allMessages in
                  aiResponse <- generateStoryResponse E content chatContext (Some apiKey) ;;
                  proofreaderResult <- reviewResponse E aiResponse apiKey content ;;
                  ret aiResponse
                else
                  smartRagAgent <- SmartRagAgent.new apiKey ;;
                  SmartRagAgent.handleRequest E smartRagAgent content allMessages apiKey) ;;
             assistantMessage <-
               Storage.createMessage (mkInsertMessage "assistant" aiResponse None) ;;
             updatedMessages <- Storage.getAllMessages ;;
             _ <- consolidate updatedMessages apiKey ;;
             ret (mkHttp 200 (JsonMessage assistantMessage))
         end
     end)
    (fun error =>
       ret (mkHttp 500 (JsonError (match MemoryAgent.pick (message error) with
                                   | Some msg => msg
                                   | None => "Failed to generate response"
                                   end)))).

End WithEnv.
End Routes.

(* ================================================================= *)
(** ** What a run leaves behind: the vocabulary of the properties *)

Module Runs.

(** The world after the calls [d] were logged: the storage is the same. *)
Definition addCalls (d : list Request) (w : World) : World :=
  mkWorld (messages w) (memoryLogs w) (settings w) (nextId w) (calls w ++ d)%list.

(** A generation attempt is a call to the model of the ResponseGenerator. *)
Definition isAttempt (r : Request) : bool :=
  match r with
  | GenerateChat model _ _ => String.eqb model "gemini-3-pro-preview"
  | _ => false
  end.

Definition attempts (d : list Request) : nat := length (filter isAttempt d).

(** [within n m]: from any world, [m] leaves the storage as it is and
    makes at most [n] generation attempts. *)
Definition within {A} (n : nat) (m : M A) : Prop :=
  forall w, exists d, snd (m w) = addCalls d w /\ attempts d <= n.

(** The invariant of the [messages] table: the ids are distinct (the id
    is the primary key) and below the counter they are drawn from. *)
Definition wellKeyed (w : World) : Prop :=
  NoDup (map id (messages w)) /\ Forall (fun m => id m < nextId w) (messages w).

(** [keepsKeys m]: a run of [m] keeps the invariant. *)
Definition keepsKeys {A} (m : M A) : Prop :=
  forall w, wellKeyed w -> wellKeyed (snd (m w)).

End Runs.

Module RetrievalSpec.
Import QueryAgent Runs.

(** The invariant of [uniqueMessages]: distinct keys, and each key is the
    id of its message. *)
Definition keyedById (um : Js.OMap nat Message) : Prop :=
  NoDup (map fst um) /\ Forall (fun e => fst e = id (snd e)) um.

(** A semantic result is new when its id is not an id of a keyword result. *)
Definition isNew (keywordBasedResults : list Message) (message : Message) : bool :=
  negb (existsb (Nat.eqb (id message)) (map id keywordBasedResults)).

(** The ranking of the scored turns: threshold, sort, cap at 15. *)
Definition ranked (similarities : list (Message * float)) : list Message :=
  firstn 15 (map fst (Js.sort lessSimilar
                        (filter (fun s => (SIMILARITY_THRESHOLD <? snd s)%float) similarities))).

(** An embedding call made between [w] and [w'] threw. *)
Definition embeddingFailed (E : Env) (w w' : World) : Prop :=
  exists i r e,
    nth_error (calls w') (length (calls w) + i) = Some r
    /\ embedContent E (length (calls w) + i) r = Throw e.

Section WithEnv.
Variable E : Env.

(** The calls [d], logged from position [n] on, were all answered. *)
Definition embedsOk (n : nat) (d : list Request) : Prop :=
  forall i r, nth_error d i = Some r -> exists v, embedContent E (n + i) r = Ok v.

(** [answered m]: when [m] returns, it has only logged calls, and each
    of them was answered by the embedding provider. *)
Definition answered {A} (m : M A) : Prop :=
  forall w a w', m w = (Ok a, w') ->
  exists d, w' = addCalls d w /\ embedsOk (length (calls w)) d.

End WithEnv.

End RetrievalSpec.

Module PipelineSpec.
Import GenerationAgent ProofreaderAgent OrchestratorAgent Runs.

(** The one request of a review. *)
Definition reviewRequest (E : Env) (response apiKey userMessage : string) : Request :=
  GenerateText "gemini-2.5-pro" apiKey (proofreaderPrompt E userMessage response).

(** The one request of a distillation. *)
Definition filterRequest (E : Env) (key userMessage : string)
    (retrievedMemories recentHistory : list Message) : Request :=
  GenerateText "gemini-2.5-pro" key
    (SmartRagAgent.buildFilteringPrompt E userMessage retrievedMemories recentHistory).

(** The user turn that [handleRequest] persists at its entry. *)
Definition userTurn (w : World) (userMessage : string) (history : list Message) : Message :=
  mkMessage (nextId w) "user" userMessage (Some (lastKnownLocationOf history)).

Definition withUserTurn (w : World) (userMessage : string) (history : list Message) : World :=
  mkWorld (messages w ++ [userTurn w userMessage history])%list (memoryLogs w) (settings w)
          (S (nextId w)) (calls w).

(** The assistant turn persisted at the end. *)
Definition assistantTurn (w : World) (response location : string) : Message :=
  mkMessage (S (nextId w)) "assistant" response (Some location).

(** [extracted || lastKnownLocation] *)
Definition resolve (extracted : option string) (lastKnownLocation : string) : string :=
  match MemoryAgent.pick extracted with
  | Some l => l
  | None => lastKnownLocation
  end.

(** The explicit label as the design document words it: the leading
    line of the text starts with the literal [Location:], and the
    location is what follows on that line. *)
Definition statedExplicitLocation (text : string) : option string :=
  let leadingLine := hd EmptyString (Js.splitChar (ascii_of_nat 10) text) in
  if Js.startsWith leadingLine "Location:"
  then Some (Js.trim (Js.dropString 9 leadingLine))
  else None.

(** The one request of the location tracker. *)
Definition locationRequest (key text : string) : Request :=
  GenerateText "gemini-3-flash-preview" key (locationPrompt (header text)).

Section WithEnv.
Variable E : Env.

(** The stages of [handleRequest] after the user turn is stored: the
    function is these stages run from [withUserTurn]
    ([handleRequest_unfold]). *)
Definition stages (settings : Settings) (key userMessage : string) (history : list Message)
    (w : World) : M string :=
  let updated := (history ++ [userTurn w userMessage history])%list in
  filteredCanon <- SmartRagAgent.handleRequest E key userMessage updated key ;;
  response <- generationLoop E MAX_RETRIES userMessage
                (chatContextOf settings filteredCanon updated) key EmptyString ;;
  extracted <- _extractLocation E response key ;;
  _ <- Storage.createMessage
         (mkInsertMessage "assistant" response
            (Some (resolve extracted (lastKnownLocationOf history)))) ;;
  ret response.

End WithEnv.

End PipelineSpec.

Module RouteSpec.
Import GenerationAgent ProofreaderAgent Routes Runs.

(** The two rows of an exchange. *)
Definition userRow (w : World) (content : string) : Message :=
  mkMessage (nextId w) "user" content None.

Definition assistantRow (w : World) (aiResponse : string) : Message :=
  mkMessage (S (nextId w)) "assistant" aiResponse None.

(** The memory log of a consolidation. *)
Definition consolidated (logId : nat) (lastFourMessages : list Message) (summary : string)
  : MemoryLog :=
  mkMemoryLog logId
    (mkInsertMemoryLog (conversationSnippet lastFourMessages) None None (Some summary) None 5).

(** The condition of the route: the count is a positive multiple of 4. *)
Definition due (totalMessages : nat) : bool :=
  ((totalMessages mod 4 =? 0) && (0 <? totalMessages))%nat.

(** A world with one more row of [messages]. *)
Definition store (m : Message) (w : World) : World :=
  mkWorld (messages w ++ [m])%list (memoryLogs w) (settings w) (S (nextId w)) (calls w).

Definition onError (error : Exn) : M HttpResponse :=
  ret (mkHttp 500 (JsonError (match MemoryAgent.pick (message error) with
                              | Some msg => msg
                              | None => "Failed to generate response"
                              end))).

Section WithEnv.
Variable E : Env.

(** The key the route settles on. *)
Definition routeKey (w : World) : option string :=
  MemoryAgent.pick
    (MemoryAgent.orElse (match settings w with Some s => geminiApiKey s | None => None end)
                        (envApiKey E)).

(** The agent flow of the route, between the two [createMessage]; with
    [persistAndConsolidate] and [onError] it makes up the handler
    ([chat_unfold]). *)
Definition agentFlow (settings : option Settings) (apiKey content : string)
    (allMessages : list Message) : M string :=
  if isStoryMode then
    smartRagAgent <- SmartRagAgent.new apiKey ;;
    filteredContext <- SmartRagAgent.handleRequest E smartRagAgent content allMessages apiKey ;;
    let chatContext := chatContextOf settings filteredContext allMessages in
    aiResponse <- generateStoryResponse E content chatContext (Some apiKey) ;;
    proofreaderResult <- reviewResponse E aiResponse apiKey content ;;
    ret aiResponse
  else
    smartRagAgent <- SmartRagAgent.new apiKey ;;
    SmartRagAgent.handleRequest E smartRagAgent content allMessages apiKey.

(** What follows the agent flow in the handler. *)
Definition persistAndConsolidate (apiKey aiResponse : string) : M HttpResponse :=
  assistantMessage <- Storage.createMessage (mkInsertMessage "assistant" aiResponse None) ;;
  updatedMessages <- Storage.getAllMessages ;;
  _ <- consolidate E updatedMessages apiKey ;;
  ret (mkHttp 200 (JsonMessage assistantMessage)).

End WithEnv.

End RouteSpec.

(* ================================================================= *)
(** ** The vocabulary of the further properties *)

Module StageSpec.
Import QueryAgent.

(** The test of the first loop of [keywordSearch]. *)
Definition mentions (keyword : string) (message : Message) : bool :=
  Js.includes (Js.toLowerCase (content message)) (Js.toLowerCase keyword).

(** The order of the comparator of the first loop: by content length. *)
Definition notLonger (a b : Message) : Prop :=
  Js.length (content a) <= Js.length (content b).

End StageSpec.

Module FlowSpec.
Import GenerationAgent.

(** The one request of [summarizeForMemory], sent again on each retry. *)
Definition summaryRequest (E : Env) (messages : list string) (apiKey : option string)
  : Request :=
  GenerateChat "gemini-2.5-flash" (clientKey E apiKey)
    [mkContent "user" ("Summarize this chat for memory:" ++ Js.nl ++ Js.nl
                       ++ Js.join Js.nl messages)].

End FlowSpec.

(* ================================================================= *)
(** ** String.prototype.replace and match with a literal pattern *)

Module JsPattern.

(** The first occurrence of [pattern] in [s]: what stands before it and
    what stands after it. *)
Fixpoint cut (s pattern : string) : option (string * string) :=
  if String.prefix pattern s
  then Some (EmptyString, Js.dropString (String.length pattern) s)
  else match s with
       | EmptyString => None
       | String c r =>
           match cut r pattern with
           | Some (before, after) => Some (String c before, after)
           | None => None
           end
       end.

(** The replacement text of [replace]: a dollar sign followed by a
    dollar sign, an ampersand, a backtick or an apostrophe stands for a
    dollar sign, the match, what is before the match and what is after
    it. A pattern that is a string has no capture, so that every other
    dollar sign stands for itself. *)
Fixpoint substitution (matched before after replacement : string) : string :=
  match replacement with
  | EmptyString => EmptyString
  | String d tail =>
      if Ascii.eqb d "$"%char then
        match tail with
        | String c r =>
            if Ascii.eqb c "$"%char then String "$"%char (substitution matched before after r)
            else if Ascii.eqb c "&"%char then matched ++ substitution matched before after r
            else if Ascii.eqb c "`"%char then before ++ substitution matched before after r
            else if Ascii.eqb c "'"%char then after ++ substitution matched before after r
            else String d (substitution matched before after tail)
        | EmptyString => String d EmptyString
        end
      else String d (substitution matched before after tail)
  end.

(** [s.replace(pattern, replacement)] for a pattern that is a string:
    the first occurrence only. *)
Definition replaceFirst (s pattern replacement : string) : string :=
  match cut s pattern with
  | Some (before, after) => before ++ substitution pattern before after replacement ++ after
  | None => s
  end.

(** The longest prefix that ends with a closing brace. *)
Fixpoint uptoLastBrace (s : string) : option string :=
  match s with
  | EmptyString => None
  | String c r =>
      match uptoLastBrace r with
      | Some kept => Some (String c kept)
      | None => if Ascii.eqb c "}"%char then Some (String c EmptyString) else None
      end
  end.

(** The match of the regular expression of [classifyMemory]: an opening
    brace, any characters (line ends included, as many as possible), a
    closing brace. It starts at the first opening brace and ends at the
    last closing brace after it. *)
Fixpoint matchBraces (s : string) : option string :=
  match s with
  | EmptyString => None
  | String c r =>
      if Ascii.eqb c "{"%char then option_map (String c) (uptoLastBrace r)
      else matchBraces r
  end.

End JsPattern.

(* ================================================================= *)
(** ** The SummaryAgent class *)

Module SummaryAgent.
Import GenerationAgent.

Definition promptOf (text location : string) : string :=
  "Create a summary of the following scene. The summary MUST begin with a "
  ++ Js.dq ++ "Header:" ++ Js.dq ++ " line containing the provided scene location." ++ Js.nl
  ++ Js.nl
  ++ "Scene Location: " ++ location ++ Js.nl
  ++ Js.nl
  ++ "Conversation Snippet:" ++ Js.nl
  ++ "---" ++ Js.nl
  ++ text ++ Js.nl
  ++ "---" ++ Js.nl
  ++ Js.nl
  ++ "Summary:" ++ Js.nl
  ++ "Header: " ++ location ++ Js.nl.

Section WithEnv.
Variable E : Env.

Definition summarizeForMemory (messages : list string) (location : string)
    (apiKey : option string) : M string :=
  let text := Js.join Js.nl (map (fun m => "- " ++ m) messages) in
  let prompt := promptOf text location in
  tryCatch
    (result <- callGenerate E (GenerateText "gemini-2.5-pro" (clientKey E apiKey) prompt) ;;
     ret (if Js.truthy (Runtime.text result) then Runtime.text result else text))
    (fun err =>
       ret ("Summary of conversation at " ++ location ++ ": " ++ Js.join " ... " messages)).

End WithEnv.
End SummaryAgent.

(* ================================================================= *)
(** ** server/agents/classification.agent.ts *)

Module ClassificationAgent.
Import GenerationAgent.

Definition classificationPrompt : string :=
  Js.nl
  ++ "Analyze the following memory log. Your task is to classify it into ONE of the following types: PLOT, CHARACTER, EVENT, LORE, OTHER."
  ++ Js.nl ++ Js.nl
  ++ "Return your answer ONLY in a valid JSON format with a single key "
  ++ Js.dq ++ "type" ++ Js.dq ++ "." ++ Js.nl
  ++ Js.nl
  ++ "- PLOT: A crucial event that drives the main narrative forward." ++ Js.nl
  ++ "- CHARACTER: Describes a character's traits, appearance, backstory, or development."
  ++ Js.nl
  ++ "- EVENT: A specific, self-contained occurrence in the story." ++ Js.nl
  ++ "- LORE: Background information about the world, its history, rules, or objects."
  ++ Js.nl
  ++ "- OTHER: Anything else." ++ Js.nl
  ++ Js.nl
  ++ "Memory Log:" ++ Js.nl
  ++ "---" ++ Js.nl
  ++ "{{MEMORY_LOG}}" ++ Js.nl
  ++ "---" ++ Js.nl
  ++ Js.nl
  ++ "JSON Response:" ++ Js.nl.

Definition PLACEHOLDER : string := "{{MEMORY_LOG}}".

Section WithEnv.
Variable E : Env.

(** [JSON.parse] and the test on [parsed.type]: [None] when the parse
    throws, [Some None] when the value has no [type] that is a string. *)
Variable parseType : string -> option (option string).

Definition promptOf (text : string) : string :=
  JsPattern.replaceFirst classificationPrompt PLACEHOLDER text.

(** The function returns an object with the one field [type]; the model
    returns the field. The message of the error of [JSON.parse] is the
    engine's; nothing reads it. *)
Definition classifyMemory (text : string) (apiKey : option string) : M string :=
  let prompt := promptOf text in
  tryCatch
    (result <- callGenerate E
                 (GenerateText "gemini-3-flash-preview" (clientKey E apiKey) prompt) ;;
     let responseText := Runtime.text result in
     match JsPattern.matchBraces responseText with
     | None => throw (Error "Model did not return valid JSON.")
     | Some jsonMatch =>
         match parseType jsonMatch with
         | None => throw (Error "SyntaxError")
         | Some (Some type) => ret type
         | Some None =>
             throw (Error "Parsed JSON does not contain a 'type' string property.")
         end
     end)
    (fun err => ret "OTHER").

End WithEnv.
End ClassificationAgent.

(* ================================================================= *)
(** ** server/gemini.ts: calculateSimilarity and retrieveRelevantMemories *)

Module MemoryRetrieval.
Local Open Scope float_scope.

(** The number that holds a count. The sum is exact below 2^53, and an
    array holds fewer elements than that. *)
Fixpoint ofNat (n : nat) : float :=
  match n with
  | O => 0
  | S n' => ofNat n' + 1
  end.

(** [!x] on a number: zero, of either sign, and NaN are falsy. *)
Definition falsy (x : float) : bool := ((x =? 0) || is_nan x)%bool.

(** [words.filter((x) => x === w).length] *)
Definition occurrences (words : list string) (w : string) : float :=
  ofNat (length (filter (fun x => String.eqb x w) words)).

Definition calculateSimilarity (text1 text2 : string) : float :=
  let words1 := Js.splitSpaces (Js.toLowerCase text1) in
  let words2 := Js.splitSpaces (Js.toLowerCase text2) in
  let unique := Js.unique (words1 ++ words2)%list in
  let v1 := map (occurrences words1) unique in
  let v2 := map (occurrences words2) unique in
  let dot := Js.reduce (fun s v i => s + v * nth i v2 nan) v1 0 in
  let mag1 := sqrt (Js.reduce (fun s v _ => s + v * v) v1 0) in
  let mag2 := sqrt (Js.reduce (fun s v _ => s + v * v) v2 0) in
  if (falsy mag1 || falsy mag2)%bool then 0 else dot / (mag1 * mag2).

Record Memory := mkMemory {
  m_content : string;
  m_importance : float
}.

Record Scored := mkScored {
  s_content : string;
  s_score : float
}.

Definition scoreOf (query : string) (m : Memory) : Scored :=
  mkScored (m_content m) (calculateSimilarity query (m_content m) * (m_importance m / 10)).

(** The comparator [(a, b) => b.score - a.score] is positive when [b]
    has the higher score. *)
Definition lowerScore (a b : Scored) : bool := (0 <? s_score b - s_score a).

(** [topK] is a count; its default is 3. *)
Definition retrieveRelevantMemories (query : string) (memories : list Memory) (topK : nat)
  : list string :=
  let scored := map (scoreOf query) memories in
  map s_content
      (filter (fun m => 0.1 <? s_score m)
              (firstn topK (Js.sort lowerScore scored))).

End MemoryRetrieval.

(* ================================================================= *)
(** ** Concrete runs: providers, corpora and worlds *)

Module Fixtures.
Import GenerationAgent.

(** The corpus of scripts/test-orchestrator.ts. *)
Definition villageCorpus : list Message :=
  [mkMessage 0 "assistant" "The sky is blue in the village." (Some "Village");
   mkMessage 1 "user" "I look at the sky." (Some "Village");
   mkMessage 2 "assistant" "You see a bird flying in the forest." (Some "Forest");
   mkMessage 3 "user" "I follow the bird." (Some "Forest")].

Definition storySettings : Settings :=
  mkSettings (Some "key") "You are a storyteller." EmptyString EmptyString EmptyString.

Definition villageWorld : World := mkWorld villageCorpus [] (Some storySettings) 4 [].

(** A world with the first two turns only. *)
Definition twoTurnWorld : World :=
  mkWorld (firstn 2 villageCorpus) [] (Some storySettings) 2 [].

(** Embeddings with two components: how much a text is about the sky. *)
Definition skyEmbedding (n : nat) (r : Request) : Result Similarity.Vector :=
  match r with
  | EmbedContent _ _ text =>
      Ok (if Js.includes (Js.toLowerCase text) "sky" then [1; 0.5]%float else [0.25; 1]%float)
  | _ => Throw (Error "not an embedding request")
  end.

Definition embeddingDown (n : nat) (r : Request) : Result Similarity.Vector :=
  Throw (Error "embedding service unavailable").

(** A language model whose reviews always object, whose location answers
    find nothing, and whose drafts are numbered by the call. *)
Definition strictModel (n : nat) (r : Request) : Result Response :=
  match r with
  | GenerateText model _ _ =>
      if String.eqb model "gemini-2.5-pro"
      then Ok (mkResponse "NON-COMPLIANT time skipped 6 hours" false)
      else Ok (mkResponse "N/A" false)
  | GenerateChat _ _ _ => Ok (mkResponse ("Draft " ++ Js.showNat n) false)
  | EmbedContent _ _ _ => Throw (Error "not a generation request")
  end.

(** A language model that accepts every draft. *)
Definition lenientModel (n : nat) (r : Request) : Result Response :=
  match r with
  | GenerateText model _ _ =>
      if String.eqb model "gemini-2.5-pro"
      then Ok (mkResponse "COMPLIANT" false)
      else Ok (mkResponse "N/A" false)
  | GenerateChat _ _ _ => Ok (mkResponse ("Draft " ++ Js.showNat n) false)
  | EmbedContent _ _ _ => Throw (Error "not a generation request")
  end.

(** A language model whose reviewer is down while the rest answers. *)
Definition reviewerDown (n : nat) (r : Request) : Result Response :=
  match r with
  | GenerateText model _ _ =>
      if String.eqb model "gemini-2.5-pro"
      then Throw (mkExn (Some "429 Too Many Requests") false)
      else Ok (mkResponse "N/A" false)
  | GenerateChat _ _ _ => Ok (mkResponse ("Draft " ++ Js.showNat n) false)
  | EmbedContent _ _ _ => Throw (Error "not a generation request")
  end.

(** A language model that reads a location in every header. *)
Definition guideModel (n : nat) (r : Request) : Result Response :=
  match r with
  | GenerateText model _ _ =>
      if String.eqb model "gemini-2.5-pro"
      then Ok (mkResponse "COMPLIANT" false)
      else Ok (mkResponse "  Village Square | Noon  " false)
  | GenerateChat _ _ _ => Ok (mkResponse ("Draft " ++ Js.showNat n) false)
  | EmbedContent _ _ _ => Throw (Error "not a generation request")
  end.

(** A language model that is down. *)
Definition modelDown (n : nat) (r : Request) : Result Response :=
  Throw (mkExn (Some "503 Service Unavailable") false).

Definition shortProofreaderPrompt (userMessage response : string) : string :=
  "User: " ++ userMessage ++ Js.nl ++ "Response: " ++ response.

Definition shortFilteringPrompt (memoriesText historyText userMessage : string) : string :=
  "Memories: " ++ memoriesText ++ Js.nl ++ "History: " ++ historyText ++ Js.nl
  ++ "Input: " ++ userMessage.

Definition envWith (model : nat -> Request -> Result Response)
    (embedder : nat -> Request -> Result Similarity.Vector) : Env :=
  mkEnv model embedder None shortProofreaderPrompt shortFilteringPrompt.

(** Generated texts: with the label in bold, with the label plain, with
    the bold label and nothing after it, and with no label. *)
Definition boldLabelText : string :=
  "**Location:** Heizen Academy - Classroom 1-A | Morning" ++ Js.nl ++ "The bell rings.".

Definition plainLabelText : string :=
  "Location: Village Square" ++ Js.nl ++ "The sun rises.".

Definition emptyLabelText : string := "**Location:**   " ++ Js.nl.

Definition unlabelledText : string := "The sun rises over the square.".

(** A corpus of 110 turns, ten for each of eleven keywords. *)
Definition elevenKeywords : list string :=
  ["alpha"; "bravo"; "charlie"; "delta"; "echo"; "foxtrot"; "golf"; "hotel"; "india";
   "juliet"; "kilo"].

Definition elevenQuery : string := Js.join " " elevenKeywords.

Definition largeCorpus : list Message :=
  flat_map (fun entry =>
              map (fun b => mkMessage (10 * fst entry + b) "assistant" (snd entry) None)
                  (seq 0 10))
           (combine (seq 0 11) elevenKeywords).

Definition largeWorld : World := mkWorld largeCorpus [] (Some storySettings) 110 [].

End Fixtures.

(* ================================================================= *)
(** ** Further runs: providers and contexts *)

Module Scenes.
Import GenerationAgent.

(** A language model every answer of which is blocked for safety. *)
Definition censoredModel (n : nat) (r : Request) : Result Response :=
  Ok (mkResponse "A tale that was cut short" true).

(** A context with one user turn and nothing optional. *)
Definition plainContext : ChatContext :=
  mkChatContext "You are a storyteller." EmptyString None None [] None
                [mkEntry "user" "I look at the sky."].

End Scenes.

Module Outages.

(** A world in which no key is configured. *)
Definition keylessWorld : World :=
  mkWorld Fixtures.villageCorpus []
          (Some (mkSettings None "You are a storyteller." EmptyString EmptyString EmptyString))
          4 [].

End Outages.

Module Classifiers.

(** A language model that wraps its JSON answer in a code fence. *)
Definition fencedModel (n : nat) (r : Request) : Result Response :=
  Ok (mkResponse ("```json" ++ Js.nl ++ "{" ++ Js.dq ++ "type" ++ Js.dq ++ ": "
                  ++ Js.dq ++ "LORE" ++ Js.dq ++ "}" ++ Js.nl ++ "```") false).

(** A parser that knows one document. *)
Definition loreParser (json : string) : option (option string) :=
  if String.eqb json ("{" ++ Js.dq ++ "type" ++ Js.dq ++ ": " ++ Js.dq ++ "LORE" ++ Js.dq ++ "}")
  then Some (Some "LORE") else None.

End Classifiers.

Module Exchanges.

(** A world with the first three turns only. *)
Definition threeTurnWorld : World :=
  mkWorld (firstn 3 Fixtures.villageCorpus) [] (Some Fixtures.storySettings) 3 [].

(** An error of the schema of the request: the body has no [content]. *)
Definition missingContent : Exn := Error "Required".

End Exchanges.

Module Headers.
Import GenerationAgent.

(** A generated text whose label comes after a line end, a no-break
    space and a space, with a tabulation after it, and whose line ends
    with a carriage return. *)
Definition paddedLabelText : string :=
  Js.nl ++ Js.encode 0xA0%N ++ " **Location:**" ++ String (ascii_of_nat 9) EmptyString
  ++ "Café du Port | Soir  " ++ String (ascii_of_nat 13) EmptyString ++ Js.nl
  ++ "La cloche sonne.".

(** A generated text of seven lines, none of which opens with the bold
    label. *)
Definition sevenLineText : string :=
  Js.join Js.nl
    ["The sun rises."; "A cart rolls by."; EmptyString; "The baker waves.";
     "Location: the old bridge"; "A dog barks."; "The bell rings."].

(** Language models whose location answers have 5 and 6 code units. *)
Definition cafeModel (n : nat) (r : Request) : Result Response :=
  Ok (mkResponse " Cafés " false).

Definition harbourModel (n : nat) (r : Request) : Result Response :=
  Ok (mkResponse " Cafés! " false).

End Headers.

(* ================================================================= *)
(** * Properties *)

(* ================================================================= *)
(** ** The characters of a string *)

Module CharFacts.

Lemma width_positive (c : ascii) : 1 <= Js.width c.
Proof.
  unfold Js.width.
  destruct (nat_of_ascii c <? 192)%nat; [lia|].
  destruct (nat_of_ascii c <? 224)%nat; [lia|].
  destruct (nat_of_ascii c <? 240)%nat; lia.
Qed.

Lemma take_drop (n : nat) (s : string) : Js.takeString n s ++ Js.dropString n s = s.
Proof.
  revert s. induction n as [|n IH]; intros s; [reflexivity|].
  destruct s as [|c r]; [reflexivity|]. simpl. now rewrite IH.
Qed.

Lemma length_dropString (n : nat) (s : string) :
  String.length (Js.dropString n s) = String.length s - n.
Proof.
  revert s. induction n as [|n IH]; intros s; simpl; [lia|].
  destruct s as [|c r]; [reflexivity|]. simpl. apply IH.
Qed.

Lemma length_takeString (n : nat) (s : string) :
  String.length (Js.takeString n s) = Nat.min n (String.length s).
Proof.
  revert s. induction n as [|n IH]; intros s; [reflexivity|].
  destruct s as [|c r]; [reflexivity|]. simpl. now rewrite IH.
Qed.

Lemma length_append (a b : string) :
  String.length (a ++ b) = String.length a + String.length b.
Proof. induction a as [|c a IH]; simpl; [reflexivity | now rewrite IH]. Qed.

Lemma append_empty (a : string) : a ++ EmptyString = a.
Proof. induction a as [|c a IH]; simpl; [reflexivity | now rewrite IH]. Qed.

Lemma append_assoc (a b c : string) : (a ++ b) ++ c = a ++ b ++ c.
Proof. induction a as [|x a IH]; simpl; [reflexivity | now rewrite IH]. Qed.

Lemma take_whole (a b : string) : Js.takeString (String.length a) (a ++ b) = a.
Proof. induction a as [|c a IH]; simpl; [now destruct b | now rewrite IH]. Qed.

Lemma drop_whole (a b : string) : Js.dropString (String.length a) (a ++ b) = b.
Proof. induction a as [|c a IH]; simpl; [reflexivity | exact IH]. Qed.

Lemma glue_app (l1 l2 : list string) : Js.glue (l1 ++ l2)%list = Js.glue l1 ++ Js.glue l2.
Proof.
  induction l1 as [|x l1 IH]; simpl; [reflexivity|]. now rewrite IH, append_assoc.
Qed.

(** Enough fuel is any count from the length of the string on. *)
Lemma charsFuel_enough (fuel : nat) :
  forall more s, String.length s <= fuel -> String.length s <= more ->
  Js.charsFuel fuel s = Js.charsFuel more s.
Proof.
  induction fuel as [|fuel IH]; intros more s Hf Hm.
  - destruct s; [now destruct more | simpl in Hf; lia].
  - destruct s as [|c r]; [now destruct more|].
    destruct more as [|more]; [simpl in Hm; lia|].
    cbn [Js.charsFuel]. f_equal.
    pose proof (width_positive c) as Hw.
    cbn [String.length] in Hf, Hm.
    apply IH; rewrite length_dropString; cbn [String.length]; lia.
Qed.

Lemma chars_cons (c : ascii) (r : string) :
  Js.chars (String c r)
  = Js.takeString (Js.width c) (String c r)
    :: Js.chars (Js.dropString (Js.width c) (String c r)).
Proof.
  unfold Js.chars. cbn [String.length Js.charsFuel]. f_equal.
  pose proof (width_positive c) as Hw.
  apply charsFuel_enough; rewrite length_dropString; cbn [String.length]; lia.
Qed.

Lemma chars_empty : Js.chars EmptyString = [].
Proof. reflexivity. Qed.

(** The characters of a string make up the string. *)
Lemma glue_chars (s : string) : Js.glue (Js.chars s) = s.
Proof.
  remember (String.length s) as n eqn:Hn.
  assert (Hle : String.length s <= n) by lia. clear Hn.
  revert s Hle. induction n as [|n IH]; intros s Hle.
  - destruct s; [reflexivity | simpl in Hle; lia].
  - destruct s as [|c r]; [reflexivity|].
    rewrite chars_cons. cbn [Js.glue fold_right]. fold (Js.glue).
    change (fold_right append EmptyString
              (Js.chars (Js.dropString (Js.width c) (String c r))))
      with (Js.glue (Js.chars (Js.dropString (Js.width c) (String c r)))).
    rewrite IH; [apply take_drop|].
    pose proof (width_positive c). rewrite length_dropString.
    cbn [String.length] in *. lia.
Qed.

(** A character that has all the bytes its first byte announces. *)
Definition full (ch : string) : bool :=
  match ch with
  | EmptyString => false
  | String c _ => (String.length ch =? Js.width c)%nat
  end.

Lemma chars_full (ch rest : string) :
  full ch = true -> Js.chars (ch ++ rest) = ch :: Js.chars rest.
Proof.
  destruct ch as [|c r]; [discriminate|]. intros Hfull. apply Nat.eqb_eq in Hfull.
  change (String c r ++ rest) with (String c (r ++ rest)).
  rewrite chars_cons. change (String c (r ++ rest)) with (String c r ++ rest).
  rewrite <- Hfull. now rewrite take_whole, drop_whole.
Qed.

Lemma chars_all_full (l : list string) (rest : string) :
  Forall (fun ch => full ch = true) l ->
  Js.chars (Js.glue l ++ rest) = (l ++ Js.chars rest)%list.
Proof.
  induction 1 as [|ch l Hch Hl IH]; [reflexivity|].
  cbn [Js.glue fold_right]. change (fold_right append EmptyString l) with (Js.glue l).
  rewrite append_assoc, (chars_full _ _ Hch), IH. reflexivity.
Qed.

Lemma chars_glue_full (l : list string) :
  Forall (fun ch => full ch = true) l -> Js.chars (Js.glue l) = l.
Proof.
  intros H. rewrite <- (append_empty (Js.glue l)), (chars_all_full _ H), chars_empty.
  apply app_nil_r.
Qed.

(** A list of characters that is the list of the characters of its text. *)
Definition Chunked (l : list string) : Prop := Js.chars (Js.glue l) = l.

Lemma chunked_chars (s : string) : Chunked (Js.chars s).
Proof. unfold Chunked. now rewrite glue_chars. Qed.

Lemma chunked_tail (ch : string) (l : list string) :
  Chunked (ch :: l) -> Chunked l /\ ch <> EmptyString /\ (full ch = true \/ l = []).
Proof.
  unfold Chunked. cbn [Js.glue fold_right].
  change (fold_right append EmptyString l) with (Js.glue l). intros H.
  destruct ch as [|c r].
  - exfalso. cbn [append] in H.
    assert (Hglue : Js.glue (Js.chars (Js.glue l)) = Js.glue (EmptyString :: l))
      by now rewrite H.
    rewrite glue_chars in Hglue. cbn [Js.glue fold_right append] in Hglue.
    destruct (Js.glue l) as [|c r] eqn:Hg; [discriminate|].
    rewrite chars_cons in H. injection H as Htake Hrest.
    pose proof (width_positive c). destruct (Js.width c); [lia | discriminate].
  - change (String c r ++ Js.glue l) with (String c (r ++ Js.glue l)) in H.
    rewrite chars_cons in H. injection H as Htake Hrest.
    change (String c (r ++ Js.glue l)) with (String c r ++ Js.glue l) in *.
    assert (Hlen : String.length (String c r)
                   = Nat.min (Js.width c) (String.length (String c r ++ Js.glue l))).
    { rewrite <- Htake at 1. apply length_takeString. }
    rewrite length_append in Hlen.
    destruct (Nat.eq_dec (String.length (String c r)) (Js.width c)) as [Hfull | Hshort].
    + rewrite <- Hfull, drop_whole in Hrest.
      split; [exact Hrest|]. split; [discriminate|].
      left. cbn [full]. now apply Nat.eqb_eq.
    + assert (Hnone : String.length (Js.glue l) = 0) by lia.
      destruct (Js.glue l) as [|g gs] eqn:Hg; [|simpl in Hnone; lia].
      rewrite append_empty in Hrest.
      assert (Hdrop : Js.dropString (Js.width c) (String c r) = EmptyString).
      { pose proof (length_dropString (Js.width c) (String c r)) as Hd.
        destruct (Js.dropString (Js.width c) (String c r)); [reflexivity|].
        cbn [String.length] in Hd, Hlen, Hshort. lia. }
      rewrite Hdrop, chars_empty in Hrest. subst l.
      split; [reflexivity|]. split; [discriminate|]. now right.
Qed.

Lemma chunked_suffix (l1 l2 : list string) : Chunked (l1 ++ l2) -> Chunked l2.
Proof.
  induction l1 as [|ch l1 IH]; intros H; [exact H|].
  apply IH. now apply (chunked_tail (ch := ch)).
Qed.

Lemma chunked_prefix (l1 l2 : list string) : Chunked (l1 ++ l2) -> Chunked l1.
Proof.
  induction l1 as [|ch l1 IH]; intros H; [reflexivity|].
  change ((ch :: l1) ++ l2)%list with (ch :: (l1 ++ l2))%list in H.
  destruct (chunked_tail H) as [Htail [Hne [Hfull | Hnil]]].
  - unfold Chunked. cbn [Js.glue fold_right].
    change (fold_right append EmptyString l1) with (Js.glue l1).
    rewrite (chars_full _ _ Hfull). f_equal. apply IH, Htail.
  - apply app_eq_nil in Hnil. destruct Hnil as [-> ->]. now rewrite app_nil_r in H.
Qed.

Lemma chars_nonempty (s ch : string) : In ch (Js.chars s) -> ch <> EmptyString.
Proof.
  intros Hin. apply in_split in Hin. destruct Hin as [l1 [l2 Hsplit]].
  pose proof (chunked_chars s) as Hc. rewrite Hsplit in Hc.
  apply chunked_suffix in Hc. now apply (chunked_tail (ch := ch)) in Hc.
Qed.

Lemma isWhite_table (ch : string) : Js.isWhite ch = true -> In ch Js.whiteSpace.
Proof.
  unfold Js.isWhite. intros H. apply existsb_exists in H.
  destruct H as [x [Hin Heq]]. apply String.eqb_eq in Heq. now subst.
Qed.

Lemma white_full (ch : string) : Js.isWhite ch = true -> full ch = true.
Proof.
  intros H. apply isWhite_table in H.
  assert (Hall : forallb full Js.whiteSpace = true) by (vm_compute; reflexivity).
  rewrite forallb_forall in Hall. now apply Hall.
Qed.

Lemma terminator_white (ch : string) : Js.isTerminator ch = true -> Js.isWhite ch = true.
Proof.
  unfold Js.isTerminator. intros H. apply existsb_exists in H.
  destruct H as [x [Hin Heq]]. apply String.eqb_eq in Heq. subst x.
  assert (Hall : forallb Js.isWhite Js.lineTerminators = true) by (vm_compute; reflexivity).
  rewrite forallb_forall in Hall. now apply Hall.
Qed.

Lemma word_full (ch : string) : Js.isWordChar ch = true -> full ch = true.
Proof.
  destruct ch as [|c [|d r]]; try discriminate. cbn [Js.isWordChar full String.length].
  destruct c as [[] [] [] [] [] [] [] []]; intros H; try discriminate H; reflexivity.
Qed.

Lemma word_not_white (ch : string) : Js.isWordChar ch = true -> Js.isWhite ch = false.
Proof.
  destruct ch as [|c [|d r]]; try discriminate. cbn [Js.isWordChar].
  destruct c as [[] [] [] [] [] [] [] []]; intros H; try discriminate H; reflexivity.
Qed.

(** The tables at work: the length counts code units, the white space
    and the cases are those of Unicode, a capital sigma at the end of a
    word becomes a final sigma, and what is not a word character is
    blanked by the code unit. *)
Lemma characters_at_work :
  Js.length "Cafés" = 5
  /\ Js.length (Js.encode 0x1F600%N) = 2
  /\ Js.trim (Js.encode 0xA0%N ++ " Café " ++ Js.encode 0x2028%N ++ Js.encode 0x3000%N)
     = "Café"
  /\ Js.toLowerCase "École ΟΔΟΣ ΣΑΣ İ" = "école οδος σας i̇"
  /\ Js.splitSpaces (Js.blankPunctuation ("Hello, wörld" ++ Js.encode 0x1F600%N ++ "x! a_b "))
     = ["Hello"; "w"; "rld"; "x"; "a_b"; EmptyString].
Proof.
  split; [vm_compute; reflexivity|]. split; [vm_compute; reflexivity|].
  split; [vm_compute; reflexivity|]. split; vm_compute; reflexivity.
Qed.

End CharFacts.

(* ================================================================= *)
(** ** Lists, sorting and the insertion-ordered map *)

Module JsFacts.

Lemma insertSorted_perm (A : Type) (after : A -> A -> bool) (x : A) (l : list A) :
  Permutation (Js.insertSorted after x l) (x :: l).
Proof.
  induction l as [|y t IH]; simpl.
  - apply Permutation_refl.
  - destruct (after x y).
    + apply perm_trans with (y :: x :: t).
      * now apply perm_skip.
      * apply perm_swap.
    + apply Permutation_refl.
Qed.

Lemma sort_perm (A : Type) (after : A -> A -> bool) (l : list A) :
  Permutation (Js.sort after l) l.
Proof.
  induction l as [|x t IH]; simpl.
  - apply perm_nil.
  - apply perm_trans with (x :: Js.sort after t).
    + apply insertSorted_perm.
    + now apply perm_skip.
Qed.

Lemma filter_keeps_distinct_keys (Row Key : Type) (key : Row -> Key)
    (keep : Row -> bool) :
  forall rows, NoDup (map key rows) -> NoDup (map key (filter keep rows)).
Proof.
  intros rows. induction rows as [|x t IH]; simpl; intros H.
  - constructor.
  - inversion H as [|? ? Hnotin Hnd]; subst.
    destruct (keep x); simpl; [|now apply IH].
    constructor; [|now apply IH].
    intros Hin. apply Hnotin.
    apply in_map_iff in Hin. destruct Hin as [y [Hy Hin]].
    apply filter_In in Hin. apply in_map_iff. exists y. tauto.
Qed.

Lemma NoDup_firstn (A : Type) (n : nat) (l : list A) :
  NoDup l -> NoDup (firstn n l).
Proof.
  intros H. rewrite <- (firstn_skipn n l) in H.
  now apply NoDup_app_remove_r in H.
Qed.

Lemma NoDup_map_firstn (A B : Type) (f : A -> B) (n : nat) (l : list A) :
  NoDup (map f l) -> NoDup (map f (firstn n l)).
Proof.
  intros H. rewrite <- firstn_map. now apply NoDup_firstn.
Qed.

Lemma NoDup_map_perm (A B : Type) (f : A -> B) (l l' : list A) :
  Permutation l l' -> NoDup (map f l') -> NoDup (map f l).
Proof.
  intros Hp Hnd.
  apply Permutation_NoDup with (l := map f l'); [|exact Hnd].
  apply Permutation_map. now apply Permutation_sym.
Qed.

(** The map keyed by message id. *)
Lemma has_false_notin (V : Type) (m : Js.OMap nat V) (k : nat) :
  Js.has Nat.eqb m k = false -> ~ In k (map fst m).
Proof.
  unfold Js.has. induction m as [|[k' v'] t IH]; simpl; intros H.
  - tauto.
  - apply orb_false_iff in H. destruct H as [Hk Ht].
    apply Nat.eqb_neq in Hk. intros [Heq | Hin]; [congruence|].
    now apply IH.
Qed.

Lemma set_absent (V : Type) (m : Js.OMap nat V) (k : nat) (v : V) :
  Js.has Nat.eqb m k = false -> Js.set Nat.eqb m k v = (m ++ [(k, v)])%list.
Proof.
  unfold Js.has. induction m as [|[k' v'] t IH]; simpl; intros H.
  - reflexivity.
  - apply orb_false_iff in H. destruct H as [Hk Ht].
    rewrite Hk. now rewrite IH.
Qed.

End JsFacts.

(* ================================================================= *)
(** ** SimilarityScorer *)

Module SimilarityFacts.
Import Similarity.
Local Open Scope float_scope.

Lemma sumSquares_zero (v : Vector) (idx : nat) :
  zeroVector v ->
  Js.reduceFrom (fun sum val (_ : nat) => sum + val * val) idx v 0 = 0.
Proof.
  intros Hz. revert idx.
  induction Hz as [|x v Hx _ IH]; intros idx; simpl.
  - reflexivity.
  - destruct Hx as [-> | ->]; exact (IH (S idx)).
Qed.

Lemma magnitude_zeroVector (v : Vector) : zeroVector v -> magnitude v = 0.
Proof.
  intros Hz. unfold magnitude, Js.reduce.
  rewrite (sumSquares_zero 0 Hz). reflexivity.
Qed.

Lemma zeroVector_repeat (n : nat) : zeroVector (repeat 0 n).
Proof.
  unfold zeroVector. induction n; simpl; constructor; auto.
Qed.

(** C9, as the code computes it. The result is 0 whenever a computed
    magnitude is zero, so whenever an argument is a zero vector, whatever
    the other argument holds; otherwise it is the binary64 quotient of the
    dot product by the product of the magnitudes, each operation rounded. *)
Theorem cosineSimilarity_zero_guard (a b : Vector) :
  ((magnitude a =? 0) = true \/ (magnitude b =? 0) = true ->
   cosineSimilarity a b = 0)
  /\ (zeroVector a \/ zeroVector b -> cosineSimilarity a b = 0)
  /\ ((magnitude a =? 0) = false -> (magnitude b =? 0) = false ->
      cosineSimilarity a b = dotProduct a b / (magnitude a * magnitude b)).
Proof.
  unfold cosineSimilarity. repeat split.
  - intros [H | H]; rewrite H; [reflexivity | now rewrite orb_true_r].
  - intros [H | H]; rewrite (magnitude_zeroVector H); simpl.
    + reflexivity.
    + now rewrite orb_true_r.
  - intros Ha Hb. now rewrite Ha, Hb.
Qed.

Lemma cosineSimilarity_zero_guard_witness :
  zeroVector [0; 0; 0]
  /\ cosineSimilarity [0; 0; 0] [1; 2; 3] = 0
  /\ cosineSimilarity [3; 4] [3; 4] = dotProduct [3; 4] [3; 4] / (magnitude [3; 4] * magnitude [3; 4])
  /\ cosineSimilarity [3; 4] [3; 4] = 1.
Proof.
  split; [exact (zeroVector_repeat 3)|].
  split; [apply (proj1 (proj2 (cosineSimilarity_zero_guard [0; 0; 0] [1; 2; 3])));
          left; exact (zeroVector_repeat 3)|].
  split; [apply (proj2 (proj2 (cosineSimilarity_zero_guard [3; 4] [3; 4]))); reflexivity|].
  reflexivity.
Defined.

(** C9 as stated fails in binary64: the similarity of [1; 1] with itself
    is 0.99999999999999978, not 1, and the similarity of [1; 1; 1] with
    itself is 1.0000000000000002, above 1. *)
Lemma cosineSimilarity_self_not_one :
  cosineSimilarity [1; 1] [1; 1] = 0.99999999999999978
  /\ (cosineSimilarity [1; 1] [1; 1] =? 1) = false
  /\ cosineSimilarity [1; 1; 1] [1; 1; 1] = 1.0000000000000002
  /\ (1 <? cosineSimilarity [1; 1; 1] [1; 1; 1]) = true
  /\ (magnitude [1; 1] =? 0) = false.
Proof. repeat split; vm_compute; reflexivity. Qed.

End SimilarityFacts.

(* ================================================================= *)
(** ** RetrievalCoordinator: the keyword stage and the merge *)

Module RetrievalFacts.
Import QueryAgent RetrievalSpec.

Lemma addUnique_keyed (um : Js.OMap nat Message) (message : Message) :
  keyedById um -> keyedById (addUnique um message).
Proof.
  intros [Hnd Hkey]. unfold addUnique.
  destruct (Js.has Nat.eqb um (id message)) eqn:Hhas; [now split|].
  rewrite (@JsFacts.set_absent _ um (id message) message Hhas). split.
  - rewrite map_app. simpl.
    apply NoDup_app; [exact Hnd | repeat constructor; simpl; tauto |].
    intros k Hk [<- | []]. now apply (@JsFacts.has_false_notin _ um (id message) Hhas).
  - apply Forall_app. split; [exact Hkey | now repeat constructor].
Qed.

Lemma addAll_keyed (matches : list Message) :
  forall um, keyedById um -> keyedById (fold_left addUnique matches um).
Proof.
  induction matches as [|m t IH]; simpl; intros um H; [exact H|].
  apply IH. now apply addUnique_keyed.
Qed.

Lemma collect_keyed (found : list (string * list Message)) :
  forall um, keyedById um ->
  keyedById (fold_left (fun acc entry => fold_left addUnique (snd entry) acc) found um).
Proof.
  induction found as [|e t IH]; simpl; intros um H; [exact H|].
  apply IH. now apply addAll_keyed.
Qed.

Lemma values_distinct (um : Js.OMap nat Message) :
  keyedById um -> NoDup (map id (Js.values um)).
Proof.
  intros [Hnd Hkey]. unfold Js.values. rewrite map_map.
  replace (map (fun e => id (snd e)) um) with (map fst um); [exact Hnd|].
  induction Hkey as [|e t He _ IH]; simpl; [reflexivity|].
  inversion Hnd; subst. rewrite He. f_equal. now apply IH.
Qed.

(** The keyword stage never yields a turn twice, whatever the corpus. *)
Lemma keywordSearch_distinct (query : string) (allMessages : list Message) :
  NoDup (map id (keywordSearch query allMessages)).
Proof.
  unfold keywordSearch.
  destruct (length (extractKeywords query) =? 0)%nat; [constructor|].
  apply values_distinct, collect_keyed. split; constructor.
Qed.

Lemma pushLoop_eq (existingIds : list nat) (semantic : list Message) :
  forall combined,
  fold_left (pushIfNew existingIds) semantic combined
  = (combined ++ filter (fun m => negb (existsb (Nat.eqb (id m)) existingIds)) semantic)%list.
Proof.
  induction semantic as [|m t IH]; simpl; intros combined.
  - now rewrite app_nil_r.
  - rewrite IH. unfold pushIfNew.
    destruct (existsb (Nat.eqb (id m)) existingIds); simpl; [reflexivity|].
    now rewrite <- app_assoc.
Qed.

Lemma merge_eq (kw sem : list Message) :
  merge kw sem = firstn 100 (kw ++ filter (isNew kw) sem).
Proof. unfold merge. now rewrite pushLoop_eq. Qed.

Lemma isNew_spec (kw : list Message) (m : Message) :
  isNew kw m = true <-> ~ In (id m) (map id kw).
Proof.
  unfold isNew. rewrite negb_true_iff. split.
  - intros H Hin. apply not_true_iff_false in H. apply H.
    apply existsb_exists. exists (id m). split; [exact Hin | apply Nat.eqb_refl].
  - intros H. apply not_true_iff_false. intros Hex. apply H.
    apply existsb_exists in Hex. destruct Hex as [k [Hin Hk]].
    apply Nat.eqb_eq in Hk. now subst.
Qed.

Lemma merge_distinct (kw sem : list Message) :
  NoDup (map id kw) -> NoDup (map id sem) -> NoDup (map id (merge kw sem)).
Proof.
  intros Hkw Hsem. rewrite merge_eq.
  apply JsFacts.NoDup_map_firstn. rewrite map_app.
  apply NoDup_app; [exact Hkw | now apply JsFacts.filter_keeps_distinct_keys |].
  intros k Hin1 Hin2. apply in_map_iff in Hin2. destruct Hin2 as [m [<- Hm]].
  apply filter_In in Hm. destruct Hm as [_ Hnew].
  now apply isNew_spec in Hnew.
Qed.

Lemma merge_length (kw sem : list Message) : length (merge kw sem) <= 100.
Proof. unfold merge. apply firstn_le_length. Qed.

End RetrievalFacts.

(* ================================================================= *)
(** ** The monad: runs that only talk to the provider *)

Module RuntimeFacts.
Import Runs.

Lemma addCalls_nil (w : World) : addCalls [] w = w.
Proof. destruct w; unfold addCalls; simpl. now rewrite app_nil_r. Qed.

Lemma addCalls_app (d1 d2 : list Request) (w : World) :
  addCalls d2 (addCalls d1 w) = addCalls (d1 ++ d2) w.
Proof. unfold addCalls; simpl. now rewrite app_assoc. Qed.

Lemma logCall_addCalls (r : Request) (w : World) : logCall r w = addCalls [r] w.
Proof. reflexivity. Qed.

Lemma attempts_app (d1 d2 : list Request) :
  attempts (d1 ++ d2) = attempts d1 + attempts d2.
Proof. unfold attempts. now rewrite filter_app, length_app. Qed.

Lemma within_ret {A} (a : A) : within 0 (ret a).
Proof. intros w. exists []. simpl. now rewrite addCalls_nil. Qed.

Lemma within_throw {A} (e : Exn) : within 0 (@throw A e).
Proof. intros w. exists []. simpl. now rewrite addCalls_nil. Qed.

Lemma within_mono {A} (n n' : nat) (m : M A) : n <= n' -> within n m -> within n' m.
Proof. intros Hle H w. destruct (H w) as [d [Hd Hn]]. exists d. split; [exact Hd | lia]. Qed.

Lemma within_bind {A B} (a b : nat) (m : M A) (k : A -> M B) :
  within a m -> (forall x, within b (k x)) -> within (a + b) (bind m k).
Proof.
  intros Hm Hk w. unfold bind.
  destruct (Hm w) as [d1 [Hd1 Hn1]].
  destruct (m w) as [[x | e] w1]; simpl in Hd1; subst w1.
  - destruct (Hk x (addCalls d1 w)) as [d2 [Hd2 Hn2]].
    exists (d1 ++ d2)%list. rewrite Hd2, addCalls_app, attempts_app. split; [reflexivity | lia].
  - exists d1. split; [reflexivity | lia].
Qed.

Lemma within_tryCatch {A} (a b : nat) (m : M A) (handler : Exn -> M A) :
  within a m -> (forall e, within b (handler e)) -> within (a + b) (tryCatch m handler).
Proof.
  intros Hm Hh w. unfold tryCatch.
  destruct (Hm w) as [d1 [Hd1 Hn1]].
  destruct (m w) as [[x | e] w1]; simpl in Hd1; subst w1.
  - exists d1. split; [reflexivity | lia].
  - destruct (Hh e (addCalls d1 w)) as [d2 [Hd2 Hn2]].
    exists (d1 ++ d2)%list. rewrite Hd2, addCalls_app, attempts_app. split; [reflexivity | lia].
Qed.

Lemma within_callGenerate (E : Env) (r : Request) :
  within (if isAttempt r then 1 else 0) (callGenerate E r).
Proof.
  intros w. exists [r]. split; [reflexivity|].
  unfold attempts. simpl. destruct (isAttempt r); simpl; lia.
Qed.

Lemma within_callEmbed (E : Env) (model key text : string) :
  within 0 (callEmbed E (EmbedContent model key text)).
Proof.
  intros w. exists [EmbedContent model key text].
  split; [reflexivity | unfold attempts; simpl; lia].
Qed.

Lemma within_if {A} (n : nat) (c : bool) (m1 m2 : M A) :
  within n m1 -> within n m2 -> within n (if c then m1 else m2).
Proof. now destruct c. Qed.

Lemma quiet_bind {A B} (m : M A) (k : A -> M B) :
  within 0 m -> (forall x, within 0 (k x)) -> within 0 (bind m k).
Proof. exact (@within_bind A B 0 0 m k). Qed.

Lemma quiet_tryCatch {A} (m : M A) (handler : Exn -> M A) :
  within 0 m -> (forall e, within 0 (handler e)) -> within 0 (tryCatch m handler).
Proof. exact (@within_tryCatch A 0 0 m handler). Qed.

Lemma quiet_textCall (E : Env) (model key prompt : string) :
  within 0 (callGenerate E (GenerateText model key prompt)).
Proof. exact (within_callGenerate E (GenerateText model key prompt)). Qed.

Lemma quiet_getAllMessages : within 0 Storage.getAllMessages.
Proof. intros w. exists []. simpl. now rewrite addCalls_nil. Qed.

Create HintDb quiet.

#[export] Hint Resolve within_ret within_throw within_if quiet_bind quiet_tryCatch
  within_callEmbed quiet_textCall quiet_getAllMessages : quiet.

(** Runs that only talk to the provider, and [createMessage], keep the
    invariant of the table. *)
Lemma within_keepsKeys {A} (n : nat) (m : M A) : within n m -> keepsKeys m.
Proof. intros H w Hw. destruct (H w) as [d [-> _]]. exact Hw. Qed.

Lemma createMessage_keepsKeys (m : InsertMessage) : keepsKeys (Storage.createMessage m).
Proof.
  intros w [Hnd Hlt]. split; simpl.
  - rewrite map_app. simpl. apply NoDup_app; [exact Hnd | repeat constructor; simpl; tauto |].
    intros k Hin [<- | []]. apply in_map_iff in Hin. destruct Hin as [x [Hx Hin]].
    rewrite Forall_forall in Hlt. specialize (Hlt x Hin). lia.
  - apply Forall_app. split.
    + eapply Forall_impl; [|exact Hlt]. simpl. intros x Hx. lia.
    + constructor; [simpl; lia | constructor].
Qed.

Lemma bind_keepsKeys {A B} (m : M A) (k : A -> M B) :
  keepsKeys m -> (forall x, keepsKeys (k x)) -> keepsKeys (bind m k).
Proof.
  intros Hm Hk w Hw. unfold bind. specialize (Hm w Hw).
  destruct (m w) as [[x | e] w1]; simpl in Hm; [now apply Hk | exact Hm].
Qed.

(** What a run that only talks to the provider leaves in the storage. *)
Lemma within_storage {A} (n : nat) (m : M A) (w : World) :
  within n m ->
  messages (snd (m w)) = messages w /\ memoryLogs (snd (m w)) = memoryLogs w
  /\ settings (snd (m w)) = settings w /\ nextId (snd (m w)) = nextId w.
Proof. intros H. destruct (H w) as [d [-> _]]. now repeat split. Qed.

End RuntimeFacts.

(* ================================================================= *)
(** ** RetrievalCoordinator: the semantic stage and [queryMessages] *)

Module SemanticFacts.
Import QueryAgent RuntimeFacts Runs RetrievalSpec.

Lemma bind_ok {A B} (m : M A) (k : A -> M B) (w w' : World) (b : B) :
  bind m k w = (Ok b, w') -> exists a w1, m w = (Ok a, w1) /\ k a w1 = (Ok b, w').
Proof.
  unfold bind. destruct (m w) as [[a | e] w1]; intros H; [|discriminate].
  now exists a, w1.
Qed.

Lemma ranked_distinct (similarities : list (Message * float)) :
  NoDup (map id (map fst similarities)) -> NoDup (map id (ranked similarities)).
Proof.
  intros H. unfold ranked. apply JsFacts.NoDup_map_firstn.
  rewrite map_map in *.
  eapply JsFacts.NoDup_map_perm; [apply JsFacts.sort_perm|].
  now apply JsFacts.filter_keeps_distinct_keys.
Qed.

Lemma ranked_incl (similarities : list (Message * float)) :
  incl (ranked similarities) (map fst similarities).
Proof.
  intros m Hm. unfold ranked in Hm.
  assert (Hin : In m (map fst (Js.sort lessSimilar
            (filter (fun s => (SIMILARITY_THRESHOLD <? snd s)%float) similarities)))).
  { rewrite <- (firstn_skipn 15). apply in_or_app. now left. }
  apply in_map_iff in Hin. destruct Hin as [s [<- Hs]].
  apply (Permutation_in _ (JsFacts.sort_perm lessSimilar _)) in Hs.
  apply filter_In in Hs. now apply in_map.
Qed.

Section WithEnv.
Variable E : Env.

Lemma embedsOk_nil (n : nat) : embedsOk E n [].
Proof. intros i r H. destruct i; discriminate. Qed.

Lemma embedsOk_app (n : nat) (d1 d2 : list Request) :
  embedsOk E n d1 -> embedsOk E (n + length d1) d2 -> embedsOk E n (d1 ++ d2).
Proof.
  intros H1 H2 i r Hi.
  destruct (Nat.lt_ge_cases i (length d1)) as [Hlt | Hge].
  - rewrite nth_error_app1 in Hi by exact Hlt. now apply H1.
  - rewrite nth_error_app2 in Hi by exact Hge.
    destruct (H2 _ _ Hi) as [v Hv]. exists v.
    replace (n + i) with (n + length d1 + (i - length d1)) by lia. exact Hv.
Qed.

Lemma answered_ret {A} (a : A) : answered E (ret a).
Proof.
  intros w x w' H. inversion H; subst. exists []. split.
  - now rewrite addCalls_nil.
  - apply embedsOk_nil.
Qed.

Lemma answered_throw {A} (e : Exn) : answered E (@throw A e).
Proof. intros w x w' H. discriminate. Qed.

Lemma answered_bind {A B} (m : M A) (k : A -> M B) :
  answered E m -> (forall x, answered E (k x)) -> answered E (bind m k).
Proof.
  intros Hm Hk w b w' H.
  apply bind_ok in H. destruct H as [a [w1 [H1 H2]]].
  destruct (Hm _ _ _ H1) as [d1 [-> Hd1]].
  destruct (Hk _ _ _ _ H2) as [d2 [-> Hd2]].
  exists (d1 ++ d2)%list. split; [now rewrite addCalls_app|].
  apply embedsOk_app; [exact Hd1|].
  simpl in Hd2. now rewrite length_app in Hd2.
Qed.

Lemma answered_callEmbed (r : Request) : answered E (callEmbed E r).
Proof.
  intros w v w' H. unfold callEmbed in H. inversion H as [[Hv Hw]].
  exists [r]. split; [reflexivity|].
  intros i r' Hi. destruct i as [|i]; simpl in Hi.
  - inversion Hi; subst r'. exists v. now rewrite Nat.add_0_r.
  - destruct i; discriminate.
Qed.

Lemma answered_rethrow {A} (m : M A) :
  answered E m -> answered E (tryCatch m (fun error => throw error)).
Proof.
  intros Hm w a w' H. unfold tryCatch in H.
  destruct (m w) as [[x | e] w1] eqn:Hmw; [|discriminate].
  inversion H; subst. exact (Hm _ _ _ Hmw).
Qed.

Lemma answered_getEmbedding (text : string) (apiKey : option string) :
  answered E (MemoryAgent.getEmbedding E text apiKey).
Proof.
  unfold MemoryAgent.getEmbedding.
  destruct (MemoryAgent.pick _); [|apply answered_throw].
  apply answered_rethrow, answered_callEmbed.
Qed.

Lemma answered_embedEach (key : string) (texts : list string) :
  answered E (MemoryAgent.embedEach E key texts).
Proof.
  induction texts as [|t rest IH]; simpl.
  - apply answered_ret.
  - apply answered_bind; [apply answered_callEmbed|]. intros v.
    apply answered_bind; [exact IH|]. intros vs. apply answered_ret.
Qed.

Lemma answered_getEmbeddings (agent : MemoryAgent.Agent) (texts : list string) :
  answered E (MemoryAgent.getEmbeddings E agent texts).
Proof.
  unfold MemoryAgent.getEmbeddings.
  destruct (MemoryAgent.pick _); [apply answered_embedEach | apply answered_throw].
Qed.

Lemma similaritiesFrom_ok (q : Similarity.Vector) (embs : list Similarity.Vector)
    (msgs : list Message) :
  forall i w sims w',
  similaritiesFrom q embs i msgs w = (Ok sims, w') -> w' = w /\ map fst sims = msgs.
Proof.
  induction msgs as [|m t IH]; simpl; intros i w sims w' H.
  - inversion H; subst. now split.
  - destruct (nth_error embs i); [|discriminate].
    apply bind_ok in H. destruct H as [more [w1 [H1 H2]]].
    apply IH in H1. destruct H1 as [-> Hmore].
    inversion H2; subst. simpl. now split.
Qed.

Lemma answered_similaritiesFrom (q : Similarity.Vector) (embs : list Similarity.Vector)
    (i : nat) (msgs : list Message) :
  answered E (similaritiesFrom q embs i msgs).
Proof.
  intros w sims w' H. apply similaritiesFrom_ok in H. destruct H as [-> _].
  exists []. split; [now rewrite addCalls_nil | apply embedsOk_nil].
Qed.

End WithEnv.
End SemanticFacts.

Module RetrievalClaims.
Import QueryAgent RuntimeFacts RetrievalFacts SemanticFacts Runs RetrievalSpec.

Lemma nth_error_firstn_some (A : Type) (n i : nat) (l : list A) (a : A) :
  nth_error (firstn n l) i = Some a -> nth_error l i = Some a.
Proof.
  revert i l. induction n as [|n IH]; intros i l H.
  - destruct i; discriminate.
  - destruct l as [|x t]; [destruct i; discriminate|].
    destruct i as [|i]; simpl in *; [exact H | now apply IH].
Qed.

(** On an empty corpus every keyword matches nothing. *)
Lemma set_no_match (m : Js.OMap string (list Message)) (k : string) :
  Forall (fun e => snd e = []) m -> Forall (fun e => snd e = []) (Js.set String.eqb m k []).
Proof.
  induction m as [|[k' v'] t IH]; simpl; intros H.
  - now repeat constructor.
  - inversion H; subst. destruct (String.eqb k' k).
    + now constructor.
    + constructor; [assumption | now apply IH].
Qed.

Lemma keywordSearch_nil (query : string) : keywordSearch query [] = [].
Proof.
  unfold keywordSearch.
  destruct (length (extractKeywords query) =? 0)%nat; [reflexivity|].
  set (limit := if (length (extractKeywords query) <? 5)%nat then 15 else 10).
  assert (Hall : forall keywords m, Forall (fun e => snd e = []) m ->
            Forall (fun e : string * list Message => snd e = [])
              (fold_left (fun acc keyword => Js.set String.eqb acc keyword
                                               (matchesOf limit [] keyword)) keywords m)).
  { induction keywords as [|k t IH]; simpl; intros m Hm; [exact Hm|].
    apply IH. unfold matchesOf; simpl. rewrite firstn_nil. now apply set_no_match. }
  specialize (Hall (extractKeywords query) [] (Forall_nil _)).
  unfold Js.entries.
  induction Hall as [|e t He _ IH]; simpl; [reflexivity|].
  rewrite He. simpl. exact IH.
Qed.

Section WithEnv.
Variable E : Env.

Lemma within_getEmbedding (text : string) (apiKey : option string) :
  within 0 (MemoryAgent.getEmbedding E text apiKey).
Proof.
  unfold MemoryAgent.getEmbedding. destruct (MemoryAgent.pick _); auto with quiet.
Qed.

Lemma within_embedEach (key : string) (texts : list string) :
  within 0 (MemoryAgent.embedEach E key texts).
Proof. induction texts as [|t rest IH]; simpl; auto 10 with quiet. Qed.

Lemma within_getEmbeddings (agent : MemoryAgent.Agent) (texts : list string) :
  within 0 (MemoryAgent.getEmbeddings E agent texts).
Proof.
  unfold MemoryAgent.getEmbeddings.
  destruct (MemoryAgent.pick _); auto using within_embedEach with quiet.
Qed.

Lemma within_similaritiesFrom (q : Similarity.Vector) (embs : list Similarity.Vector)
    (msgs : list Message) :
  forall i, within 0 (similaritiesFrom q embs i msgs).
Proof.
  induction msgs as [|m t IH]; simpl; intros i; [auto with quiet|].
  destruct (nth_error embs i); auto 10 with quiet.
Qed.

#[local] Hint Resolve within_getEmbedding within_getEmbeddings within_similaritiesFrom : quiet.

Lemma within_semanticSearch (agent : MemoryAgent.Agent) (query : string)
    (allMessages : list Message) :
  within 0 (semanticSearch E agent query allMessages).
Proof.
  unfold semanticSearch, MemoryAgent.getEmbeddingOf. auto 10 with quiet.
Qed.

#[local] Hint Resolve within_semanticSearch : quiet.

Lemma within_queryMessages (query apiKey : string) :
  within 0 (queryMessages E query apiKey).
Proof. unfold queryMessages. auto 10 with quiet. Qed.

(** The semantic stage always returns: nothing, or the ranking of the
    corpus scored turn by turn; in the second case every embedding call
    it made was answered. *)
Lemma semanticSearch_outcome (agent : MemoryAgent.Agent) (query : string)
    (allMessages : list Message) (w : World) :
  exists sem d,
    semanticSearch E agent query allMessages w = (Ok sem, addCalls d w)
    /\ (sem = []
        \/ (embedsOk E (length (calls w)) d
            /\ exists sims, map fst sims = allMessages /\ sem = ranked sims)).
Proof.
  destruct (within_semanticSearch agent query allMessages w) as [d [Hd _]].
  unfold semanticSearch, tryCatch in *.
  match goal with |- context [bind ?m ?k w] => set (body := bind m k) in * end.
  assert (Hbody : answered E body).
  { apply answered_bind; [apply answered_getEmbedding|]. intros qe.
    apply answered_bind; [apply answered_getEmbeddings|]. intros embs.
    apply answered_bind; [apply answered_similaritiesFrom|]. intros sims.
    apply answered_ret. }
  destruct (body w) as [[sem | e] w1] eqn:Hrun.
  - exists sem. destruct (Hbody _ _ _ Hrun) as [d1 [-> Hok]].
    exists d1. split; [reflexivity|]. right. split; [exact Hok|].
    unfold body in Hrun.
    apply bind_ok in Hrun. destruct Hrun as [qe [w2 [_ Hrun]]].
    apply bind_ok in Hrun. destruct Hrun as [embs [w3 [_ Hrun]]].
    apply bind_ok in Hrun. destruct Hrun as [sims [w4 [Hsims Hret]]].
    apply similaritiesFrom_ok in Hsims. destruct Hsims as [_ Hfst].
    exists sims. split; [exact Hfst|]. now inversion Hret.
  - exists [], d. simpl in Hd. rewrite <- Hd. split; [reflexivity | now left].
Qed.

Lemma queryMessages_run (query apiKey : string) (w : World) :
  exists sem d,
    queryMessages E query apiKey w
    = (Ok (merge (keywordSearch query (messages w)) sem), addCalls d w)
    /\ ((messages w = [] /\ sem = [] /\ d = [])
        \/ (messages w <> []
            /\ semanticSearch E (MemoryAgent.new E (Some apiKey)) query (messages w) w
               = (Ok sem, addCalls d w)))
    /\ (sem = []
        \/ (embedsOk E (length (calls w)) d
            /\ exists sims, map fst sims = messages w /\ sem = ranked sims)).
Proof.
  unfold queryMessages, bind, Storage.getAllMessages.
  destruct (messages w) as [|m0 rest] eqn:Hmsgs.
  - exists [], []. simpl. rewrite addCalls_nil, keywordSearch_nil.
    split; [reflexivity|]. split; [now left | now left].
  - cbn [length Nat.eqb].
    destruct (semanticSearch_outcome (MemoryAgent.new E (Some apiKey)) query (m0 :: rest) w)
      as [sem [d [Hrun Hsem]]].
    rewrite Hrun. exists sem, d. split; [reflexivity|].
    split; [right; split; [discriminate | reflexivity] | exact Hsem].
Qed.

End WithEnv.

#[export] Hint Resolve within_queryMessages : quiet.

End RetrievalClaims.

Module Retrieval.
Import QueryAgent RuntimeFacts RetrievalFacts SemanticFacts RetrievalClaims.
Import Fixtures Runs RetrievalSpec.

(** C2. On a corpus whose turns have distinct ids (the id is the primary
    key of the table), [queryMessages] returns, and what it returns holds
    no turn id twice and at most 100 turns, whatever the query and
    whatever the embedding provider answers or throws. *)
Theorem queryMessages_distinct_capped (E : Env) (query apiKey : string) (w : World) :
  NoDup (map id (messages w)) ->
  exists results,
    fst (queryMessages E query apiKey w) = Ok results
    /\ NoDup (map id results)
    /\ length results <= 100.
Proof.
  intros Hids.
  destruct (queryMessages_run E query apiKey w) as [sem [d [Hrun [_ Hsem]]]].
  rewrite Hrun. eexists. split; [reflexivity|]. split; [|apply merge_length].
  apply merge_distinct; [apply keywordSearch_distinct|].
  destruct Hsem as [-> | [_ [sims [Hfst ->]]]]; [constructor|].
  apply ranked_distinct. now rewrite Hfst.
Qed.

Lemma queryMessages_distinct_capped_witness :
  NoDup (map id (messages villageWorld))
  /\ exists results,
       fst (queryMessages (envWith strictModel skyEmbedding)
                          "What color is the sky?" "key" villageWorld) = Ok results
       /\ NoDup (map id results)
       /\ length results <= 100.
Proof.
  assert (H : NoDup (map id (messages villageWorld))).
  { simpl. repeat constructor; simpl; lia. }
  split; [exact H|].
  exact (queryMessages_distinct_capped (envWith strictModel skyEmbedding)
           "What color is the sky?" "key" villageWorld H).
Defined.

(** C3. The merged result is the keyword results followed by the semantic
    results whose id no keyword result has, cut at 100; so a turn of the
    keyword stage stands before every turn that only the semantic stage
    contributed. On an empty corpus both stages are skipped and the
    semantic stage contributes nothing. *)
Theorem queryMessages_keyword_first (E : Env) (query apiKey : string) (w : World) :
  let keywordResults := keywordSearch query (messages w) in
  exists semanticResults results,
    fst (queryMessages E query apiKey w) = Ok results
    /\ ((messages w = [] /\ semanticResults = [])
        \/ (messages w <> []
            /\ fst (semanticSearch E (MemoryAgent.new E (Some apiKey)) query (messages w) w)
               = Ok semanticResults))
    /\ results = firstn 100 (keywordResults ++ filter (isNew keywordResults) semanticResults)
    /\ forall i j a b,
         nth_error results i = Some a -> nth_error results j = Some b ->
         In (id a) (map id keywordResults) -> ~ In (id b) (map id keywordResults) ->
         i < j.
Proof.
  intros kw.
  destruct (queryMessages_run E query apiKey w) as [sem [d [Hrun [Hstage _]]]].
  exists sem, (merge kw sem). rewrite Hrun. split; [reflexivity|].
  split.
  { destruct Hstage as [[Hnil [-> _]] | [Hne Hsearch]]; [now left | right].
    split; [exact Hne | now rewrite Hsearch]. }
  split; [apply merge_eq|].
  intros i j a b Ha Hb Hina Hnotb.
  rewrite merge_eq in Ha, Hb.
  apply nth_error_firstn_some in Ha. apply nth_error_firstn_some in Hb.
  assert (Hi : i < length kw).
  { destruct (Nat.lt_ge_cases i (length kw)) as [Hlt | Hge]; [exact Hlt|].
    rewrite nth_error_app2 in Ha by exact Hge.
    apply nth_error_In, filter_In in Ha. destruct Ha as [_ Hnew].
    apply isNew_spec in Hnew. contradiction. }
  assert (Hj : length kw <= j).
  { destruct (Nat.lt_ge_cases j (length kw)) as [Hlt | Hge]; [|exact Hge].
    rewrite nth_error_app1 in Hb by exact Hlt.
    apply nth_error_In in Hb. exfalso. apply Hnotb. now apply in_map. }
  lia.
Qed.

Lemma queryMessages_keyword_first_witness :
  map id (keywordSearch "What color is the sky?" (messages villageWorld)) = [1; 0]
  /\ option_map (map id)
       (match fst (queryMessages (envWith strictModel skyEmbedding)
                                 "What color is the sky?" "key" villageWorld) with
        | Ok results => Some results
        | Throw _ => None
        end) = Some [1; 0; 2; 3]
  /\ exists semanticResults results,
       fst (queryMessages (envWith strictModel skyEmbedding)
                          "What color is the sky?" "key" villageWorld) = Ok results
       /\ ((messages villageWorld = [] /\ semanticResults = [])
           \/ (messages villageWorld <> []
               /\ fst (semanticSearch (envWith strictModel skyEmbedding)
                         (MemoryAgent.new (envWith strictModel skyEmbedding) (Some "key"))
                         "What color is the sky?" (messages villageWorld) villageWorld)
                  = Ok semanticResults))
       /\ results
          = firstn 100
              (keywordSearch "What color is the sky?" (messages villageWorld)
               ++ filter (isNew (keywordSearch "What color is the sky?" (messages villageWorld)))
                         semanticResults)
       /\ forall i j a b,
            nth_error results i = Some a -> nth_error results j = Some b ->
            In (id a) (map id (keywordSearch "What color is the sky?" (messages villageWorld))) ->
            ~ In (id b) (map id (keywordSearch "What color is the sky?" (messages villageWorld))) ->
            i < j.
Proof.
  split; [vm_compute; reflexivity|].
  split; [vm_compute; reflexivity|].
  exact (queryMessages_keyword_first (envWith strictModel skyEmbedding)
           "What color is the sky?" "key" villageWorld).
Defined.

(** C6, with the cap. Retrieval always returns. When an embedding call of
    the semantic stage throws, the stage contributes the empty list and
    the result is the keyword results cut at 100: the keyword results
    themselves when there are at most 100 of them. *)
Theorem embedding_failure_keyword_only (E : Env) (query apiKey : string) (w : World) :
  let run := queryMessages E query apiKey w in
  let keywordResults := keywordSearch query (messages w) in
  (exists results, fst run = Ok results)
  /\ (embeddingFailed E w (snd run) ->
      fst (semanticSearch E (MemoryAgent.new E (Some apiKey)) query (messages w) w) = Ok []
      /\ fst run = Ok (firstn 100 keywordResults)
      /\ (length keywordResults <= 100 -> fst run = Ok keywordResults)).
Proof.
  intros run kw. unfold run.
  destruct (queryMessages_run E query apiKey w) as [sem [d [Hrun [Hstage Hsem]]]].
  rewrite Hrun. cbn [fst snd]. split; [now eexists|].
  intros [i [r [e [Hnth Hthrow]]]].
  unfold addCalls in Hnth. cbn [calls] in Hnth.
  rewrite nth_error_app2 in Hnth by lia.
  replace (length (calls w) + i - length (calls w)) with i in Hnth by lia.
  assert (Hnil : sem = []).
  { destruct Hsem as [-> | [Hok _]]; [reflexivity|].
    destruct (Hok _ _ Hnth) as [v Hv]. congruence. }
  subst sem. rewrite merge_eq. cbn [filter]. rewrite app_nil_r.
  split.
  { destruct Hstage as [[_ [_ ->]] | [_ Hsearch]].
    - destruct i; discriminate.
    - now rewrite Hsearch. }
  split; [reflexivity|].
  intros Hle. f_equal. apply firstn_all2. exact Hle.
Qed.

Lemma embedding_failure_keyword_only_witness :
  embeddingFailed (envWith strictModel embeddingDown) villageWorld
    (snd (queryMessages (envWith strictModel embeddingDown)
                        "What color is the sky?" "key" villageWorld))
  /\ length (keywordSearch "What color is the sky?" (messages villageWorld)) <= 100
  /\ fst (queryMessages (envWith strictModel embeddingDown)
                        "What color is the sky?" "key" villageWorld)
     = Ok (keywordSearch "What color is the sky?" (messages villageWorld)).
Proof.
  assert (Hfail : embeddingFailed (envWith strictModel embeddingDown) villageWorld
            (snd (queryMessages (envWith strictModel embeddingDown)
                                "What color is the sky?" "key" villageWorld))).
  { exists 0, (EmbedContent "embedding-001" "key" "What color is the sky?"),
           (Error "embedding service unavailable").
    split; vm_compute; reflexivity. }
  assert (Hlen : length (keywordSearch "What color is the sky?" (messages villageWorld)) <= 100).
  { vm_compute. lia. }
  split; [exact Hfail|]. split; [exact Hlen|].
  exact (proj2 (proj2 (proj2 (embedding_failure_keyword_only
                                (envWith strictModel embeddingDown)
                                "What color is the sky?" "key" villageWorld) Hfail)) Hlen).
Defined.

(** C6 as stated fails above the cap: with eleven keywords that match ten
    turns each, the keyword stage yields 110 turns, the embedding provider
    throws, and the merged result holds the first 100 of them only. *)
Lemma embedding_failure_result_is_capped :
  embeddingFailed (envWith strictModel embeddingDown) largeWorld
    (snd (queryMessages (envWith strictModel embeddingDown) elevenQuery "key" largeWorld))
  /\ length (keywordSearch elevenQuery (messages largeWorld)) = 110
  /\ option_map (@length Message)
       (match fst (queryMessages (envWith strictModel embeddingDown)
                                 elevenQuery "key" largeWorld) with
        | Ok results => Some results
        | Throw _ => None
        end) = Some 100
  /\ fst (queryMessages (envWith strictModel embeddingDown) elevenQuery "key" largeWorld)
     <> Ok (keywordSearch elevenQuery (messages largeWorld)).
Proof.
  split.
  { exists 0, (EmbedContent "embedding-001" "key" elevenQuery),
           (Error "embedding service unavailable").
    split; vm_compute; reflexivity. }
  split; [vm_compute; reflexivity|].
  split; [vm_compute; reflexivity|].
  intros H. apply (f_equal (fun r => match r with
                                     | Ok results => length results
                                     | Throw _ => 0
                                     end)) in H.
  vm_compute in H. discriminate.
Qed.

End Retrieval.

(* ================================================================= *)
(** ** The agents only talk to the provider *)

Module AgentFacts.
Import RuntimeFacts RetrievalClaims GenerationAgent ProofreaderAgent OrchestratorAgent Runs.

Section WithEnv.
Variable E : Env.

Lemma within_filterContext (key userMessage : string) (retrieved recent : list Message) :
  within 0 (SmartRagAgent.filterContext E key userMessage retrieved recent).
Proof. unfold SmartRagAgent.filterContext. auto 10 with quiet. Qed.

#[local] Hint Resolve within_filterContext : quiet.

Lemma within_ragRequest (this userMessage : string) (history : list Message)
    (clientApiKey : string) :
  within 0 (SmartRagAgent.handleRequest E this userMessage history clientApiKey).
Proof. unfold SmartRagAgent.handleRequest. auto 10 with quiet. Qed.

Lemma within_generateStoryResponse (userMessage : string) (context : ChatContext)
    (apiKey : option string) :
  within 1 (generateStoryResponse E userMessage context apiKey).
Proof.
  unfold generateStoryResponse.
  apply (within_tryCatch (a := 1) (b := 0)).
  - apply (within_bind (a := 1) (b := 0)).
    + exact (within_callGenerate E (GenerateChat "gemini-3-pro-preview" _ _)).
    + intros result. repeat apply within_if; apply within_ret.
  - intros error. apply within_if; [apply within_ret|].
    destruct (message error); [apply within_if|]; apply within_throw.
Qed.

Lemma within_reviewResponse (response apiKey userMessage : string) :
  within 0 (reviewResponse E response apiKey userMessage).
Proof. unfold reviewResponse. auto 10 with quiet. Qed.

Lemma within_generationLoop (remaining : nat) :
  forall userMessage chatContext key response,
  within remaining (generationLoop E remaining userMessage chatContext key response).
Proof.
  induction remaining as [|n IH]; intros userMessage chatContext key response; simpl.
  - apply within_ret.
  - apply (within_bind (a := 1) (b := n)); [apply within_generateStoryResponse|].
    intros generated.
    apply (within_bind (a := 0) (b := n)); [apply within_reviewResponse|].
    intros review. apply within_if; [|apply IH].
    apply (within_mono (n := 0)); [lia | apply within_ret].
Qed.

Lemma within_extractLocation (text apiKey : string) :
  within 0 (_extractLocation E text apiKey).
Proof.
  unfold _extractLocation. apply within_if; [auto with quiet|].
  destruct (MemoryAgent.pick (explicitMatch text)); auto 10 with quiet.
Qed.

Lemma within_summarizeAttempts (remaining : nat) (key text : string) :
  within 0 (Gemini.summarizeAttempts E remaining key text).
Proof.
  induction remaining as [|n IH]; simpl; [apply within_ret|].
  apply (within_tryCatch (a := 0) (b := 0)).
  - apply (within_bind (a := 0) (b := 0)).
    + exact (within_callGenerate E (GenerateChat "gemini-2.5-flash" key _)).
    + intros result. apply within_ret.
  - intros err. destruct n; [apply within_ret | exact IH].
Qed.

(** The reviewer and the location tracker catch everything. *)
Lemma reviewResponse_returns (response apiKey userMessage : string) (w : World) :
  exists verdict, fst (reviewResponse E response apiKey userMessage w) = Ok verdict.
Proof.
  unfold reviewResponse, tryCatch, bind, callGenerate.
  destruct (generateContent E _ _) as [result | e]; simpl; [|now eexists].
  destruct (Js.startsWith _ _); now eexists.
Qed.

Lemma extractLocation_returns (text apiKey : string) (w : World) :
  exists extracted, fst (_extractLocation E text apiKey w) = Ok extracted.
Proof.
  unfold _extractLocation.
  destruct (negb (Js.truthy text)); [now eexists|].
  destruct (MemoryAgent.pick (explicitMatch text)); [now eexists|].
  unfold tryCatch, bind, callGenerate.
  destruct (generateContent E _ _) as [result | e]; simpl; [|now eexists].
  destruct (acceptable _); now eexists.
Qed.

End WithEnv.
End AgentFacts.

(* ================================================================= *)
(** ** ComplianceReviewer and ContextDistiller: provider failures *)

Module FailurePolicy.
Import RuntimeFacts AgentFacts GenerationAgent ProofreaderAgent OrchestratorAgent.
Import Fixtures Runs PipelineSpec.

(** C7. When the provider call of the reviewer throws, the verdict is
    compliant with no feedback; the review never throws; and in the loop
    of the Orchestrator the draft under review is then the response. *)
Theorem reviewResponse_failure_is_compliant (E : Env) (response apiKey userMessage : string)
    (w : World) (e : Exn) :
  generateContent E (length (calls w)) (reviewRequest E response apiKey userMessage) = Throw e ->
  reviewResponse E response apiKey userMessage w
  = (Ok (mkResult true None), addCalls [reviewRequest E response apiKey userMessage] w)
  /\ forall remaining chatContext previous w0,
       generateStoryResponse E userMessage chatContext (Some apiKey) w0 = (Ok response, w) ->
       generationLoop E (S remaining) userMessage chatContext apiKey previous w0
       = (Ok response, addCalls [reviewRequest E response apiKey userMessage] w).
Proof.
  intros Hthrow.
  assert (Hreview : reviewResponse E response apiKey userMessage w
            = (Ok (mkResult true None),
               addCalls [reviewRequest E response apiKey userMessage] w)).
  { unfold reviewResponse, tryCatch, bind, callGenerate.
    fold (reviewRequest E response apiKey userMessage). now rewrite Hthrow. }
  split; [exact Hreview|].
  intros remaining chatContext previous w0 Hgen.
  simpl. unfold bind at 1. rewrite Hgen.
  unfold bind at 1. now rewrite Hreview.
Qed.

Lemma reviewResponse_failure_is_compliant_witness :
  generateContent (envWith reviewerDown embeddingDown) 0
    (reviewRequest (envWith reviewerDown embeddingDown) "Draft 0" "key" "I look at the sky.")
  = Throw (mkExn (Some "429 Too Many Requests") false)
  /\ reviewResponse (envWith reviewerDown embeddingDown) "Draft 0" "key" "I look at the sky."
       villageWorld
     = (Ok (mkResult true None),
        addCalls [reviewRequest (envWith reviewerDown embeddingDown)
                    "Draft 0" "key" "I look at the sky."] villageWorld).
Proof.
  assert (H : generateContent (envWith reviewerDown embeddingDown) (length (calls villageWorld))
                (reviewRequest (envWith reviewerDown embeddingDown)
                   "Draft 0" "key" "I look at the sky.")
              = Throw (mkExn (Some "429 Too Many Requests") false)) by reflexivity.
  split; [exact H|].
  exact (proj1 (reviewResponse_failure_is_compliant
                  (envWith reviewerDown embeddingDown)
                  "Draft 0" "key" "I look at the sky." villageWorld H)).
Defined.

(** C8. With no retrieved turn, [filterContext] returns the empty string
    and leaves the world, so the log of provider calls, as it was. With
    retrieved turns it makes one call, and when that call throws the same
    error reaches the caller: it is not caught and not retried. *)
Theorem filterContext_empty_or_propagates (E : Env) (key userMessage : string)
    (recentHistory : list Message) (w : World) :
  SmartRagAgent.filterContext E key userMessage [] recentHistory w = (Ok EmptyString, w)
  /\ forall retrievedMemories e,
       retrievedMemories <> [] ->
       generateContent E (length (calls w))
         (filterRequest E key userMessage retrievedMemories recentHistory) = Throw e ->
       SmartRagAgent.filterContext E key userMessage retrievedMemories recentHistory w
       = (Throw e,
          addCalls [filterRequest E key userMessage retrievedMemories recentHistory] w).
Proof.
  split; [reflexivity|].
  intros retrieved e Hne Hthrow.
  unfold SmartRagAgent.filterContext.
  destruct retrieved as [|m0 rest]; [contradiction|].
  cbn [length Nat.eqb].
  unfold bind, callGenerate.
  fold (filterRequest E key userMessage (m0 :: rest) recentHistory).
  now rewrite Hthrow.
Qed.

Lemma filterContext_empty_or_propagates_witness :
  villageCorpus <> []
  /\ SmartRagAgent.filterContext (envWith modelDown embeddingDown) "key"
       "What color is the sky?" villageCorpus [] villageWorld
     = (Throw (mkExn (Some "503 Service Unavailable") false),
        addCalls [filterRequest (envWith modelDown embeddingDown) "key"
                    "What color is the sky?" villageCorpus []] villageWorld).
Proof.
  assert (Hne : villageCorpus <> []) by discriminate.
  split; [exact Hne|].
  exact (proj2 (filterContext_empty_or_propagates (envWith modelDown embeddingDown)
                  "key" "What color is the sky?" [] villageWorld)
               villageCorpus (mkExn (Some "503 Service Unavailable") false) Hne eq_refl).
Defined.

End FailurePolicy.

(* ================================================================= *)
(** ** Orchestrator: the run of [handleRequest] *)

Module Pipeline.
Import RuntimeFacts AgentFacts GenerationAgent ProofreaderAgent OrchestratorAgent.
Import Runs PipelineSpec.

Lemma pick_truthy (o : option string) (s : string) :
  MemoryAgent.pick o = Some s -> Js.truthy s = true.
Proof.
  destruct o as [t|]; simpl; [|discriminate].
  destruct (Js.truthy t) eqn:Ht; [|discriminate].
  intros H. inversion H; subst. exact Ht.
Qed.

Section WithEnv.
Variable E : Env.

Lemma handleRequest_unfold (userMessage : string) (history : list Message)
    (clientApiKey : option string) (w : World) (s : Settings) (key : string) :
  settings w = Some s ->
  MemoryAgent.pick (MemoryAgent.orElse clientApiKey (geminiApiKey s)) = Some key ->
  handleRequest E userMessage history clientApiKey w
  = stages E s key userMessage history w (withUserTurn w userMessage history).
Proof.
  intros Hs Hk. unfold handleRequest, bind at 1, Storage.getSettings.
  rewrite Hs, Hk. unfold SmartRagAgent.new, bind at 1.
  rewrite (pick_truthy _ Hk). reflexivity.
Qed.

Lemma handleRequest_rejected (userMessage : string) (history : list Message)
    (clientApiKey : option string) (w : World) :
  match settings w with
  | Some s => MemoryAgent.pick (MemoryAgent.orElse clientApiKey (geminiApiKey s)) = None
  | None => True
  end ->
  exists e, handleRequest E userMessage history clientApiKey w = (Throw e, w).
Proof.
  intros H. unfold handleRequest, bind, Storage.getSettings.
  destruct (settings w) as [s|]; [rewrite H|]; now eexists.
Qed.

(** The run of the stages, storage and log side by side. *)
Lemma stages_run (s : Settings) (key userMessage : string) (history : list Message)
    (w0 w1 : World) :
  exists d,
    calls (snd (stages E s key userMessage history w0 w1)) = (calls w1 ++ d)%list
    /\ attempts d <= 2
    /\ match fst (stages E s key userMessage history w0 w1) with
       | Throw e => messages (snd (stages E s key userMessage history w0 w1)) = messages w1
       | Ok response =>
           exists w3,
             messages w3 = messages w1 /\ nextId w3 = nextId w1
             /\ messages (snd (stages E s key userMessage history w0 w1))
                = (messages w1
                   ++ [mkMessage (nextId w1) "assistant" response
                         (Some (resolve
                                  (match fst (_extractLocation E response key w3) with
                                   | Ok extracted => extracted
                                   | Throw _ => None
                                   end)
                                  (lastKnownLocationOf history)))])%list
       end.
Proof.
  unfold stages, bind.
  set (updated := (history ++ [userTurn w0 userMessage history])%list).
  destruct (within_ragRequest E key userMessage updated key w1) as [d1 [Hd1 Hn1]].
  destruct (SmartRagAgent.handleRequest E key userMessage updated key w1)
    as [[canon | e] w2]; simpl in Hd1; subst w2.
  2:{ exists d1. cbn [fst snd]. split; [reflexivity | split; [lia | reflexivity]]. }
  destruct (within_generationLoop E MAX_RETRIES userMessage
              (chatContextOf s canon updated) key EmptyString (addCalls d1 w1))
    as [d2 [Hd2 Hn2]].
  unfold MAX_RETRIES in Hn2.
  destruct (generationLoop E MAX_RETRIES userMessage (chatContextOf s canon updated) key
              EmptyString (addCalls d1 w1)) as [[response | e] w3]; simpl in Hd2; subst w3.
  2:{ exists (d1 ++ d2)%list. cbn [fst snd]. rewrite attempts_app.
      split; [simpl; now rewrite app_assoc | split; [lia | reflexivity]]. }
  destruct (within_extractLocation E response key (addCalls d2 (addCalls d1 w1)))
    as [d3 [Hd3 Hn3]].
  destruct (extractLocation_returns E response key (addCalls d2 (addCalls d1 w1)))
    as [extracted Hex].
  destruct (_extractLocation E response key (addCalls d2 (addCalls d1 w1)))
    as [[extracted' | e] w4] eqn:Hloc; simpl in Hd3, Hex; subst w4; [|discriminate].
  inversion Hex; subst extracted'.
  exists (d1 ++ d2 ++ d3)%list. cbn [fst snd]. rewrite !attempts_app.
  split; [simpl; now rewrite !app_assoc|]. split; [lia|].
  exists (addCalls d2 (addCalls d1 w1)). rewrite Hloc. simpl. now repeat split.
Qed.

(** A request leaves a table with distinct ids: the corpus that the next
    retrieval reads satisfies the hypothesis of the retrieval properties. *)
Lemma handleRequest_keepsKeys (userMessage : string) (history : list Message)
    (clientApiKey : option string) :
  keepsKeys (handleRequest E userMessage history clientApiKey).
Proof.
  unfold handleRequest.
  apply bind_keepsKeys.
  { apply (within_keepsKeys (n := 0)). intros w. exists []. simpl. now rewrite addCalls_nil. }
  intros [s|]; [|exact (within_keepsKeys (within_throw _))].
  destruct (MemoryAgent.pick _) as [key|]; [|exact (within_keepsKeys (within_throw _))].
  apply bind_keepsKeys.
  { apply (within_keepsKeys (n := 0)). unfold SmartRagAgent.new. auto with quiet. }
  intros agent. apply bind_keepsKeys; [apply createMessage_keepsKeys|].
  intros created. apply bind_keepsKeys; [exact (within_keepsKeys (within_ragRequest E _ _ _ _))|].
  intros canon.
  apply bind_keepsKeys; [exact (within_keepsKeys (within_generationLoop E _ _ _ _ _))|].
  intros response.
  apply bind_keepsKeys; [exact (within_keepsKeys (within_extractLocation E _ _))|].
  intros extracted. apply bind_keepsKeys; [apply createMessage_keepsKeys|].
  intros stored. exact (within_keepsKeys (within_ret _)).
Qed.

End WithEnv.
End Pipeline.

Module Orchestrator.
Import RuntimeFacts AgentFacts GenerationAgent ProofreaderAgent OrchestratorAgent.
Import Runs PipelineSpec.
Import Pipeline Fixtures.

(** A draft is never the empty string: an empty answer of the provider
    is replaced by the apology. *)
Lemma generateStoryResponse_nonempty (E : Env) (userMessage : string) (context : ChatContext)
    (apiKey : option string) (w w' : World) (generated : string) :
  generateStoryResponse E userMessage context apiKey w = (Ok generated, w') ->
  generated <> EmptyString.
Proof.
  unfold generateStoryResponse, tryCatch, bind, callGenerate.
  destruct (generateContent E _ _) as [result | error]; simpl.
  - destruct (blockedForSafety result); [intros H; inversion H; discriminate|].
    destruct (Js.truthy (text result)) eqn:Ht; intros H; inversion H; subst.
    + intros Hempty. rewrite Hempty in Ht. discriminate.
    + discriminate.
  - destruct (safetyInError error); [intros H; inversion H; discriminate|].
    destruct (message error) as [msg|]; [destruct (Js.includes msg _)|]; discriminate.
Qed.

(** C1. Whatever the provider answers, one call of [handleRequest] logs at
    most 2 generation attempts. When both attempts return a draft and both
    drafts are judged non-compliant, the second draft is returned, it is
    the content of the assistant turn stored after the user turn, and it
    is not empty. *)
Theorem handleRequest_bounded_retry (E : Env) (userMessage : string)
    (history : list Message) (clientApiKey : option string) (w : World) :
  let run := handleRequest E userMessage history clientApiKey w in
  (exists d, calls (snd run) = (calls w ++ d)%list /\ attempts d <= 2)
  /\ forall s key canon draft1 feedback1 draft2 feedback2 w2 w3 w4 w5 w6,
       settings w = Some s ->
       MemoryAgent.pick (MemoryAgent.orElse clientApiKey (geminiApiKey s)) = Some key ->
       let updated := (history ++ [userTurn w userMessage history])%list in
       let chatContext := chatContextOf s canon updated in
       SmartRagAgent.handleRequest E key userMessage updated key
         (withUserTurn w userMessage history) = (Ok canon, w2) ->
       generateStoryResponse E userMessage chatContext (Some key) w2 = (Ok draft1, w3) ->
       reviewResponse E draft1 key userMessage w3 = (Ok (mkResult false feedback1), w4) ->
       generateStoryResponse E userMessage (pushFeedback chatContext draft1 feedback1)
         (Some key) w4 = (Ok draft2, w5) ->
       reviewResponse E draft2 key userMessage w5 = (Ok (mkResult false feedback2), w6) ->
       exists location,
         fst run = Ok draft2
         /\ messages (snd run)
            = (messages w ++ [userTurn w userMessage history;
                              assistantTurn w draft2 location])%list
         /\ draft2 <> EmptyString.
Proof.
  intros run. split.
  - unfold run.
    destruct (settings w) as [s|] eqn:Hs.
    + destruct (MemoryAgent.pick (MemoryAgent.orElse clientApiKey (geminiApiKey s)))
        as [key|] eqn:Hk.
      * rewrite (handleRequest_unfold E userMessage history clientApiKey w Hs Hk).
        destruct (stages_run E s key userMessage history w (withUserTurn w userMessage history))
          as [d [Hd [Hn _]]].
        exists d. split; [exact Hd | exact Hn].
      * destruct (handleRequest_rejected E userMessage history clientApiKey w) as [e He];
          [now rewrite Hs|].
        rewrite He. exists []. simpl. rewrite app_nil_r.
        split; [reflexivity | unfold attempts; simpl; lia].
    + destruct (handleRequest_rejected E userMessage history clientApiKey w) as [e He];
        [now rewrite Hs|].
      rewrite He. exists []. simpl. rewrite app_nil_r.
      split; [reflexivity | unfold attempts; simpl; lia].
  - intros s key canon draft1 feedback1 draft2 feedback2 w2 w3 w4 w5 w6 Hs Hk
           updated chatContext Hrag Hg1 Hr1 Hg2 Hr2.
    unfold run. rewrite (handleRequest_unfold E userMessage history clientApiKey w Hs Hk).
    destruct (stages_run E s key userMessage history w (withUserTurn w userMessage history))
      as [d [_ [_ Hshape]]].
    assert (Hfst : fst (stages E s key userMessage history w (withUserTurn w userMessage history))
                   = Ok draft2).
    { unfold stages, bind. fold updated. rewrite Hrag. fold chatContext.
      unfold MAX_RETRIES. cbn [generationLoop]. unfold bind.
      rewrite Hg1. cbv beta iota. rewrite Hr1. cbv beta iota. cbn [isCompliant feedback].
      rewrite Hg2. cbv beta iota. rewrite Hr2. cbv beta iota. cbn [isCompliant ret].
      destruct (extractLocation_returns E draft2 key w6) as [extracted Hex].
      destruct (_extractLocation E draft2 key w6) as [[ex | e] w7]; simpl in Hex; [|discriminate].
      reflexivity. }
    rewrite Hfst in Hshape. destruct Hshape as [w' [_ [_ Hmsgs]]].
    eexists. split; [exact Hfst|]. split.
    + rewrite Hmsgs. simpl. rewrite <- app_assoc. reflexivity.
    + exact (generateStoryResponse_nonempty _ _ _ _ _ Hg2).
Qed.

(** C10. The stages run from the world in which the user turn is already
    stored. When the request throws in one of them, the storage holds the
    user turn and no assistant turn for the request; when it returns, the
    assistant turn follows the user turn. *)
Theorem handleRequest_keeps_user_turn (E : Env) (userMessage : string)
    (history : list Message) (clientApiKey : option string) (w : World)
    (s : Settings) (key : string) :
  settings w = Some s ->
  MemoryAgent.pick (MemoryAgent.orElse clientApiKey (geminiApiKey s)) = Some key ->
  let run := handleRequest E userMessage history clientApiKey w in
  run = stages E s key userMessage history w (withUserTurn w userMessage history)
  /\ messages (withUserTurn w userMessage history)
     = (messages w ++ [userTurn w userMessage history])%list
  /\ match fst run with
     | Throw e => messages (snd run) = (messages w ++ [userTurn w userMessage history])%list
     | Ok response =>
         exists location,
           messages (snd run)
           = (messages w ++ [userTurn w userMessage history;
                             assistantTurn w response location])%list
     end.
Proof.
  intros Hs Hk run. unfold run.
  rewrite (handleRequest_unfold E userMessage history clientApiKey w Hs Hk).
  split; [reflexivity|]. split; [reflexivity|].
  destruct (stages_run E s key userMessage history w (withUserTurn w userMessage history))
    as [d [_ [_ Hshape]]].
  destruct (fst (stages E s key userMessage history w (withUserTurn w userMessage history)))
    as [response | e].
  - destruct Hshape as [w' [_ [_ Hmsgs]]]. eexists. rewrite Hmsgs. simpl.
    rewrite <- app_assoc. reflexivity.
  - exact Hshape.
Qed.

Lemma handleRequest_bounded_retry_witness :
  exists location,
    fst (handleRequest (envWith strictModel embeddingDown)
           "What color is the sky?" villageCorpus None villageWorld) = Ok "Draft 4"
    /\ messages (snd (handleRequest (envWith strictModel embeddingDown)
                        "What color is the sky?" villageCorpus None villageWorld))
       = (messages villageWorld
          ++ [userTurn villageWorld "What color is the sky?" villageCorpus;
              assistantTurn villageWorld "Draft 4" location])%list
    /\ "Draft 4" <> EmptyString.
Proof.
  eapply (proj2 (handleRequest_bounded_retry (envWith strictModel embeddingDown)
                   "What color is the sky?" villageCorpus None villageWorld)).
  - reflexivity.
  - reflexivity.
  - lazy. reflexivity.
  - lazy. reflexivity.
  - lazy. reflexivity.
  - lazy. reflexivity.
  - lazy. reflexivity.
Defined.

Lemma handleRequest_keeps_user_turn_witness :
  settings villageWorld = Some storySettings
  /\ MemoryAgent.pick (MemoryAgent.orElse None (geminiApiKey storySettings)) = Some "key"
  /\ fst (handleRequest (envWith modelDown embeddingDown)
            "What color is the sky?" villageCorpus None villageWorld)
     = Throw (mkExn (Some "503 Service Unavailable") false)
  /\ messages (snd (handleRequest (envWith modelDown embeddingDown)
                      "What color is the sky?" villageCorpus None villageWorld))
     = (messages villageWorld
        ++ [userTurn villageWorld "What color is the sky?" villageCorpus])%list.
Proof.
  assert (Hs : settings villageWorld = Some storySettings) by reflexivity.
  assert (Hk : MemoryAgent.pick (MemoryAgent.orElse None (geminiApiKey storySettings))
               = Some "key") by reflexivity.
  assert (Hthrow : fst (handleRequest (envWith modelDown embeddingDown)
                          "What color is the sky?" villageCorpus None villageWorld)
                   = Throw (mkExn (Some "503 Service Unavailable") false))
    by (vm_compute; reflexivity).
  split; [exact Hs|]. split; [exact Hk|]. split; [exact Hthrow|].
  destruct (handleRequest_keeps_user_turn (envWith modelDown embeddingDown)
              "What color is the sky?" villageCorpus None villageWorld Hs Hk)
    as [_ [_ Hshape]].
  rewrite Hthrow in Hshape. exact Hshape.
Defined.

End Orchestrator.

(* ================================================================= *)
(** ** LocationTracker *)

Module Location.
Import RuntimeFacts AgentFacts GenerationAgent ProofreaderAgent OrchestratorAgent.
Import Runs PipelineSpec.
Import Pipeline Fixtures.

Lemma acceptable_spec (location : string) :
  acceptable location = true <-> (location <> "N/A" /\ 5 < Js.length location).
Proof.
  unfold acceptable. rewrite !andb_true_iff, negb_true_iff, String.eqb_neq, Nat.ltb_lt.
  split.
  - intros [[_ Hna] Hlen]. now split.
  - intros [Hna Hlen]. repeat split; try assumption.
    destruct location; [|reflexivity]. change (5 < 0) in Hlen. lia.
Qed.

(** The last known location is read from the last row of the history. *)
Lemma lastKnownLocationOf_last (history : list Message) :
  lastKnownLocationOf history
  = match nth_error history (length history - 1) with
    | Some lastMessage =>
        match location lastMessage with
        | Some l => if Js.truthy l then l else "Unknown"
        | None => "Unknown"
        end
    | None => "Unknown"
    end.
Proof.
  unfold lastKnownLocationOf.
  induction history as [|m0 earlier _] using rev_ind; [reflexivity|].
  rewrite rev_unit, length_app. cbn [length].
  replace (length earlier + 1 - 1) with (length earlier) by lia.
  rewrite nth_error_app2 by lia. rewrite Nat.sub_diag. cbn [nth_error].
  unfold MemoryAgent.pick. destruct (location m0) as [l|]; [|reflexivity].
  now destruct (Js.truthy l).
Qed.

(** C4, as the code does it. The label is [**Location:**], looked for at
    the start of the text after optional white space; the capture is the
    rest of the line on which the text goes on after the label. A capture
    that is not empty is returned trimmed and the world, so the log of
    provider calls, is left as it was. Otherwise a text that is not empty
    costs exactly one call, whose prompt holds the first 5 lines of the
    text, and whose trimmed answer is accepted when it is longer than 5
    code units and is not [N/A]; a failed call or a rejected answer gives
    no location, and so does the empty text, without any call. The
    assistant turn then carries the location found, or else the location
    of the last row of the history, or else [Unknown]. *)
Theorem extractLocation_strategy (E : Env) (text key : string) (w : World) :
  let request :=
    GenerateText "gemini-3-flash-preview" key
      (locationPrompt (Js.join Js.nl (firstn 5 (Js.splitChar (ascii_of_nat 10) text)))) in
  (text = EmptyString -> _extractLocation E text key w = (Ok None, w))
  /\ (forall captured,
        explicitMatch text = Some captured -> captured <> EmptyString ->
        _extractLocation E text key w = (Ok (Some (Js.trim captured)), w))
  /\ (text <> EmptyString ->
      explicitMatch text = None \/ explicitMatch text = Some EmptyString ->
      _extractLocation E text key w
      = (Ok (match generateContent E (length (calls w)) request with
             | Ok result =>
                 if Js.truthy (Js.trim (Runtime.text result))
                    && negb (String.eqb (Js.trim (Runtime.text result)) "N/A")
                    && (5 <? Js.length (Js.trim (Runtime.text result)))%nat
                 then Some (Js.trim (Runtime.text result))
                 else None
             | Throw _ => None
             end),
         mkWorld (messages w) (memoryLogs w) (settings w) (nextId w)
                 (calls w ++ [request])%list))
  /\ (forall location,
        Js.truthy location && negb (String.eqb location "N/A")
        && (5 <? Js.length location)%nat = true
        <-> (location <> "N/A" /\ 5 < Js.length location))
  /\ (forall userMessage history clientApiKey s w0,
        let run := handleRequest E userMessage history clientApiKey w0 in
        let lastKnownLocation :=
          match nth_error history (length history - 1) with
          | Some lastMessage =>
              match location lastMessage with
              | Some l => if Js.truthy l then l else "Unknown"
              | None => "Unknown"
              end
          | None => "Unknown"
          end in
        settings w0 = Some s ->
        MemoryAgent.pick (MemoryAgent.orElse clientApiKey (geminiApiKey s)) = Some key ->
        fst run = Ok text ->
        exists w3 extracted,
          messages w3
          = (messages w0 ++ [mkMessage (nextId w0) "user" userMessage (Some lastKnownLocation)])%list
          /\ fst (_extractLocation E text key w3) = Ok extracted
          /\ messages (snd run)
             = (messages w0
                ++ [mkMessage (nextId w0) "user" userMessage (Some lastKnownLocation);
                    mkMessage (S (nextId w0)) "assistant" text
                      (Some (match extracted with
                             | Some found => if Js.truthy found then found else lastKnownLocation
                             | None => lastKnownLocation
                             end))])%list).
Proof.
  intros request.
  split; [intros ->; reflexivity|].
  split.
  { intros captured Hmatch Hne. unfold _extractLocation.
    destruct text as [|c rest]; [discriminate|]. cbn [Js.truthy negb].
    rewrite Hmatch. unfold MemoryAgent.pick.
    destruct captured; [contradiction | reflexivity]. }
  split.
  { intros Hne Hnone. unfold _extractLocation.
    destruct text as [|c rest]; [contradiction|]. cbn [Js.truthy negb].
    assert (Hpick : MemoryAgent.pick (explicitMatch (String c rest)) = None)
      by (destruct Hnone as [-> | ->]; reflexivity).
    rewrite Hpick. unfold tryCatch, bind, callGenerate, header. fold request.
    destruct (generateContent E (length (calls w)) request) as [result | e];
      cbv beta iota zeta; [|reflexivity].
    unfold acceptable.
    now destruct (Js.truthy (Js.trim (Runtime.text result))
                  && negb (String.eqb (Js.trim (Runtime.text result)) "N/A")
                  && (5 <? Js.length (Js.trim (Runtime.text result)))%nat). }
  split; [exact acceptable_spec|].
  intros userMessage history clientApiKey s w0 run lastKnownLocation Hs Hk Hok.
  unfold run in *.
  assert (Hlast : lastKnownLocationOf history = lastKnownLocation)
    by apply lastKnownLocationOf_last.
  rewrite (handleRequest_unfold E userMessage history clientApiKey w0 Hs Hk) in *.
  destruct (stages_run E s key userMessage history w0 (withUserTurn w0 userMessage history))
    as [d [_ [_ Hshape]]].
  rewrite Hok in Hshape. destruct Hshape as [w3 [Hstored [_ Hmsgs]]].
  destruct (extractLocation_returns E text key w3) as [extracted Hex].
  exists w3, extracted.
  split; [rewrite Hstored; unfold withUserTurn, userTurn; cbn [messages]; now rewrite Hlast|].
  split; [exact Hex|].
  rewrite Hmsgs, Hex. unfold withUserTurn, userTurn, resolve, MemoryAgent.pick.
  cbn [messages nextId]. rewrite <- app_assoc, Hlast.
  destruct extracted as [found|]; [destruct (Js.truthy found)|]; reflexivity.
Qed.

Lemma extractLocation_strategy_witness :
  explicitMatch boldLabelText = Some "Heizen Academy - Classroom 1-A | Morning"
  /\ _extractLocation (envWith guideModel embeddingDown) boldLabelText "key" villageWorld
     = (Ok (Some "Heizen Academy - Classroom 1-A | Morning"), villageWorld)
  /\ explicitMatch Headers.paddedLabelText = Some "Café du Port | Soir  "
  /\ _extractLocation (envWith guideModel embeddingDown) Headers.paddedLabelText "key"
       villageWorld
     = (Ok (Some "Café du Port | Soir"), villageWorld)
  /\ explicitMatch Headers.sevenLineText = None
  /\ _extractLocation (envWith guideModel embeddingDown) Headers.sevenLineText "key"
       villageWorld
     = (Ok (Some "Village Square | Noon"),
        mkWorld villageCorpus [] (Some storySettings) 4
          [GenerateText "gemini-3-flash-preview" "key"
             (locationPrompt
                ("The sun rises." ++ Js.nl ++ "A cart rolls by." ++ Js.nl ++ Js.nl
                 ++ "The baker waves." ++ Js.nl ++ "Location: the old bridge"))])
  /\ _extractLocation (envWith strictModel embeddingDown) Headers.sevenLineText "key"
       villageWorld
     = (Ok None,
        mkWorld villageCorpus [] (Some storySettings) 4
          [GenerateText "gemini-3-flash-preview" "key"
             (locationPrompt
                ("The sun rises." ++ Js.nl ++ "A cart rolls by." ++ Js.nl ++ Js.nl
                 ++ "The baker waves." ++ Js.nl ++ "Location: the old bridge"))])
  /\ fst (_extractLocation (envWith Headers.cafeModel embeddingDown) unlabelledText "key"
            villageWorld) = Ok None
  /\ fst (_extractLocation (envWith Headers.harbourModel embeddingDown) unlabelledText "key"
            villageWorld) = Ok (Some "Cafés!")
  /\ messages (snd (handleRequest (envWith lenientModel embeddingDown) "I follow the bird."
                      (firstn 3 villageCorpus) None Exchanges.threeTurnWorld))
     = (firstn 3 villageCorpus
        ++ [mkMessage 3 "user" "I follow the bird." (Some "Forest");
            mkMessage 4 "assistant" "Draft 2" (Some "Forest")])%list.
Proof.
  assert (Hbold : explicitMatch boldLabelText
                  = Some "Heizen Academy - Classroom 1-A | Morning")
    by (vm_compute; reflexivity).
  assert (Hpadded : explicitMatch Headers.paddedLabelText = Some "Café du Port | Soir  ")
    by (vm_compute; reflexivity).
  assert (Hnone : explicitMatch Headers.sevenLineText = None) by (vm_compute; reflexivity).
  assert (Hne : Headers.sevenLineText <> EmptyString) by discriminate.
  split; [exact Hbold|]. split.
  { destruct (extractLocation_strategy (envWith guideModel embeddingDown)
                boldLabelText "key" villageWorld) as [_ [Hexplicit _]].
    rewrite (Hexplicit _ Hbold) by discriminate. vm_compute. reflexivity. }
  split; [exact Hpadded|]. split.
  { destruct (extractLocation_strategy (envWith guideModel embeddingDown)
                Headers.paddedLabelText "key" villageWorld) as [_ [Hexplicit _]].
    rewrite (Hexplicit _ Hpadded) by discriminate. vm_compute. reflexivity. }
  split; [exact Hnone|]. split.
  { destruct (extractLocation_strategy (envWith guideModel embeddingDown)
                Headers.sevenLineText "key" villageWorld) as [_ [_ [Hmodel _]]].
    rewrite (Hmodel Hne (or_introl Hnone)). vm_compute. reflexivity. }
  split.
  { destruct (extractLocation_strategy (envWith strictModel embeddingDown)
                Headers.sevenLineText "key" villageWorld) as [_ [_ [Hmodel _]]].
    rewrite (Hmodel Hne (or_introl Hnone)). vm_compute. reflexivity. }
  split; [vm_compute; reflexivity|]. split; vm_compute; reflexivity.
Defined.

(** C4 as stated fails on a leading line that starts with the literal
    [Location:]: the expression of the code wants the label between two
    pairs of asterisks, so the model is consulted and its answer, not the
    location of the line, is returned. It also fails on a bold label with
    nothing after it on the text: the capture is empty, and the model is
    consulted. *)
Lemma plain_label_consults_the_model :
  statedExplicitLocation plainLabelText = Some "Village Square"
  /\ explicitMatch plainLabelText = None
  /\ _extractLocation (envWith guideModel embeddingDown) plainLabelText "key" villageWorld
     = (Ok (Some "Village Square | Noon"),
        addCalls [locationRequest "key" plainLabelText] villageWorld)
  /\ explicitMatch emptyLabelText = Some EmptyString
  /\ _extractLocation (envWith guideModel embeddingDown) emptyLabelText "key" villageWorld
     = (Ok (Some "Village Square | Noon"),
        addCalls [locationRequest "key" emptyLabelText] villageWorld).
Proof. repeat split; vm_compute; reflexivity. Qed.

End Location.

(* ================================================================= *)
(** ** The chat route: consolidation into a memory log *)

Module ChatRoute.
Import RuntimeFacts AgentFacts GenerationAgent ProofreaderAgent Routes Fixtures Runs RouteSpec.

Lemma due_spec (n : nat) : due n = true <-> (n mod 4 = 0 /\ 0 < n).
Proof. unfold due. now rewrite andb_true_iff, Nat.eqb_eq, Nat.ltb_lt. Qed.

Section WithEnv.
Variable E : Env.

Lemma within_agentFlow (settings : option Settings) (apiKey content : string)
    (allMessages : list Message) :
  within 1 (agentFlow E settings apiKey content allMessages).
Proof.
  unfold agentFlow, isStoryMode.
  apply (within_bind (a := 0) (b := 1)).
  { unfold SmartRagAgent.new. apply within_if; [apply within_ret | apply within_throw]. }
  intros agent.
  apply (within_bind (a := 0) (b := 1)); [apply within_ragRequest|]. intros canon.
  apply (within_bind (a := 1) (b := 0)); [apply within_generateStoryResponse|]. intros ai.
  apply (within_bind (a := 0) (b := 0)); [apply within_reviewResponse|]. intros verdict.
  apply within_ret.
Qed.

Lemma summarizeAttempts_returns (remaining : nat) (key text : string) (w : World) :
  exists summary, fst (Gemini.summarizeAttempts E remaining key text w) = Ok summary.
Proof.
  revert w. induction remaining as [|n IH]; intros w; simpl; [now eexists|].
  unfold tryCatch, bind, callGenerate.
  destruct (generateContent E _ _) as [result | err]; simpl; [now eexists|].
  destruct n; [now eexists | apply IH].
Qed.

(** The consolidation step never throws; when the count is due, it runs
    the summary, which only logs calls, and stores one log; it does
    nothing otherwise. *)
Lemma consolidate_run (updatedMessages : list Message) (apiKey : string) (w : World) :
  exists d,
    if due (length updatedMessages) then
      exists summary,
        Gemini.summarizeForMemory E (map content (Js.lastN 4 updatedMessages))
          (Some apiKey) w = (Ok summary, addCalls d w)
        /\ consolidate E updatedMessages apiKey w
           = (Ok tt,
              mkWorld (messages w)
                (memoryLogs w
                 ++ [consolidated (nextId w) (Js.lastN 4 updatedMessages) summary])%list
                (settings w) (S (nextId w)) (calls w ++ d)%list)
    else d = [] /\ consolidate E updatedMessages apiKey w = (Ok tt, w).
Proof.
  unfold consolidate. fold (due (length updatedMessages)).
  destruct (due (length updatedMessages)); [|exists []; now split].
  unfold Gemini.summarizeForMemory.
  set (lastFour := Js.lastN 4 updatedMessages).
  set (text := Js.join Js.nl (map content lastFour)).
  destruct (within_summarizeAttempts E 3 (clientKey E (Some apiKey)) text w) as [d [Hd _]].
  destruct (summarizeAttempts_returns 3 (clientKey E (Some apiKey)) text w) as [summary Hs].
  exists d, summary. unfold bind.
  destruct (Gemini.summarizeAttempts E 3 (clientKey E (Some apiKey)) text w) as [[s' | e] w1];
    simpl in Hd, Hs; subst w1; [|discriminate].
  inversion Hs; subst s'. split; reflexivity.
Qed.

Lemma chat_unfold (content apiKey : string) (w : World) :
  routeKey E w = Some apiKey ->
  chat E (Ok content) w
  = tryCatch
      (aiResponse <- agentFlow E (settings w) apiKey content
                       (messages w ++ [userRow w content])%list ;;
       persistAndConsolidate E apiKey aiResponse)
      onError
      (store (userRow w content) w).
Proof.
  intros Hkey. unfold routeKey in Hkey.
  unfold chat, tryCatch. unfold bind at 1. unfold Storage.getSettings. cbv beta iota.
  rewrite Hkey. reflexivity.
Qed.

(** The runs of the handler: an error response, with the memory logs as
    they were, or the two rows stored and the consolidation step run from
    the world in which both are stored. *)
Lemma chat_run (parsed : Result string) (w : World) :
  (exists code msg w',
     chat E parsed w = (Ok (mkHttp code (JsonError msg)), w')
     /\ memoryLogs w' = memoryLogs w)
  \/ (exists content apiKey aiResponse d w4,
        parsed = Ok content
        /\ routeKey E w = Some apiKey
        /\ consolidate E
             (messages (store (assistantRow w aiResponse)
                              (addCalls d (store (userRow w content) w))))
             apiKey
             (store (assistantRow w aiResponse) (addCalls d (store (userRow w content) w)))
           = (Ok tt, w4)
        /\ chat E parsed w
           = (Ok (mkHttp 200 (JsonMessage (assistantRow w aiResponse))), w4)).
Proof.
  destruct parsed as [content | zodError].
  2:{ left. do 3 eexists. split; reflexivity. }
  destruct (routeKey E w) as [apiKey|] eqn:Hkey.
  2:{ left. exists 400, "Gemini API key not configured. Please add it in Settings.", w.
      split; [|reflexivity].
      unfold routeKey in Hkey. unfold chat, tryCatch, bind, Storage.getSettings.
      now rewrite Hkey. }
  set (w1 := store (userRow w content) w).
  destruct (within_agentFlow (settings w) apiKey content
              (messages w ++ [userRow w content])%list w1) as [d [Hd _]].
  destruct (agentFlow E (settings w) apiKey content (messages w ++ [userRow w content])%list w1)
    as [[aiResponse | e] w2] eqn:Hflow; simpl in Hd; subst w2.
  - right. exists content, apiKey, aiResponse, d.
    assert (Hpersist : forall w4,
              consolidate E (messages (store (assistantRow w aiResponse) (addCalls d w1)))
                apiKey (store (assistantRow w aiResponse) (addCalls d w1)) = (Ok tt, w4) ->
              persistAndConsolidate E apiKey aiResponse (addCalls d w1)
              = (Ok (mkHttp 200 (JsonMessage (assistantRow w aiResponse))), w4)).
    { intros w4 Hrun.
      unfold persistAndConsolidate, bind, Storage.createMessage, Storage.getAllMessages.
      cbn [ins_role ins_content ins_location].
      change (mkMessage (nextId (addCalls d w1)) "assistant" aiResponse None)
        with (assistantRow w aiResponse).
      change (mkWorld (messages (addCalls d w1) ++ [assistantRow w aiResponse])%list
                (memoryLogs (addCalls d w1)) (settings (addCalls d w1))
                (S (nextId (addCalls d w1))) (calls (addCalls d w1)))
        with (store (assistantRow w aiResponse) (addCalls d w1)).
      now rewrite Hrun. }
    destruct (consolidate_run
                (messages (store (assistantRow w aiResponse) (addCalls d w1))) apiKey
                (store (assistantRow w aiResponse) (addCalls d w1))) as [d2 Hrun].
    destruct (due _).
    + destruct Hrun as [summary [_ Hrun]]. eexists. split; [reflexivity|].
      split; [reflexivity|]. split; [exact Hrun|].
      rewrite (chat_unfold content w Hkey). unfold tryCatch. unfold bind at 1.
      fold w1. rewrite Hflow. rewrite (Hpersist _ Hrun). reflexivity.
    + destruct Hrun as [_ Hrun]. eexists. split; [reflexivity|].
      split; [reflexivity|]. split; [exact Hrun|].
      rewrite (chat_unfold content w Hkey). unfold tryCatch. unfold bind at 1.
      fold w1. rewrite Hflow. rewrite (Hpersist _ Hrun). reflexivity.
  - left. rewrite (chat_unfold content w Hkey). unfold tryCatch. unfold bind at 1.
    fold w1. rewrite Hflow. unfold onError, ret.
    do 3 eexists. split; [reflexivity|]. reflexivity.
Qed.

End WithEnv.

Lemma grown_list_differs (A : Type) (l : list A) (x : A) : (l ++ [x])%list <> l.
Proof.
  intros H. apply (f_equal (@length A)) in H. rewrite length_app in H. simpl in H. lia.
Qed.

(** The last 4 rows of a table whose count is a positive multiple of 4. *)
Lemma last_four_rows (A : Type) (rows : list A) :
  length rows mod 4 = 0 -> 0 < length rows ->
  exists earlier r1 r2 r3 r4,
    rows = (earlier ++ [r1; r2; r3; r4])%list /\ Js.lastN 4 rows = [r1; r2; r3; r4].
Proof.
  intros Hmod Hpos.
  assert (Hlen : 4 <= length rows).
  { destruct (Nat.lt_ge_cases (length rows) 4) as [Hlt | Hge]; [|exact Hge].
    rewrite Nat.mod_small in Hmod by exact Hlt. lia. }
  unfold Js.lastN.
  pose proof (firstn_skipn (length rows - 4) rows) as Hsplit.
  assert (Hfour : length (skipn (length rows - 4) rows) = 4) by (rewrite length_skipn; lia).
  destruct (skipn (length rows - 4) rows) as [|r1 [|r2 [|r3 [|r4 [|r5 more]]]]];
    simpl in Hfour; try lia.
  exists (firstn (length rows - 4) rows), r1, r2, r3, r4. split; [now symmetry | reflexivity].
Qed.

(** C5, as the code does it. A memory log is created if and only if the
    exchange completes, that is, the handler answers 200 with the
    assistant message, and the count of stored turns is then a positive
    multiple of 4. The log is created once both turns of the exchange are
    stored: the summary is what [summarizeForMemory] returns, with the key
    of the route, on the contents of the last 4 stored turns, called after
    every other call of the exchange; the content of the log is the
    transcript of these 4 turns, one line for each, the role before the
    content; the importance is 5 and the log holds nothing else. *)
Theorem chat_memory_log (E : Env) (parsed : Result string) (w : World) :
  let run := chat E parsed w in
  let stored := messages (snd run) in
  (memoryLogs (snd run) <> memoryLogs w
   <-> ((exists assistantMessage, fst run = Ok (mkHttp 200 (JsonMessage assistantMessage)))
        /\ length stored mod 4 = 0 /\ 0 < length stored))
  /\ (memoryLogs (snd run) <> memoryLogs w ->
      exists requestText apiKey aiResponse earlier t1 t2 t3 t4 d summary d',
        parsed = Ok requestText
        /\ routeKey E w = Some apiKey
        /\ fst run = Ok (mkHttp 200 (JsonMessage (assistantRow w aiResponse)))
        /\ stored = (messages w ++ [userRow w requestText; assistantRow w aiResponse])%list
        /\ stored = (earlier ++ [t1; t2; t3; t4])%list
        /\ Gemini.summarizeForMemory E [content t1; content t2; content t3; content t4]
             (Some apiKey)
             (mkWorld stored (memoryLogs w) (settings w) (S (S (nextId w)))
                      (calls w ++ d)%list)
           = (Ok summary,
              mkWorld stored (memoryLogs w) (settings w) (S (S (nextId w)))
                      ((calls w ++ d) ++ d')%list)
        /\ snd run
           = mkWorld stored
               (memoryLogs w
                ++ [mkMemoryLog (S (S (nextId w)))
                      (mkInsertMemoryLog
                         (Js.join Js.nl [(role t1 ++ ": " ++ content t1)%string;
                                         (role t2 ++ ": " ++ content t2)%string;
                                         (role t3 ++ ": " ++ content t3)%string;
                                         (role t4 ++ ": " ++ content t4)%string])
                         None None (Some summary) None 5)])%list
               (settings w) (S (S (S (nextId w)))) ((calls w ++ d) ++ d')%list).
Proof.
  intros run stored. unfold stored, run.
  destruct (chat_run E parsed w)
    as [[code0 [msg0 [w' [Hrun Hlogs]]]]
       | [requestText [apiKey [aiResponse [d [w4 [Hreq [Hkey [Hcons Hrun]]]]]]]]];
    rewrite Hrun; cbn [fst snd].
  { split.
    - split; [intros Hnew; contradiction | intros [[m Hm] _]; discriminate].
    - intros Hnew. contradiction. }
  set (w3 := store (assistantRow w aiResponse) (addCalls d (store (userRow w requestText) w)))
    in *.
  assert (Hstored : messages w3
                    = (messages w ++ [userRow w requestText; assistantRow w aiResponse])%list).
  { unfold w3. simpl. now rewrite <- app_assoc. }
  destruct (consolidate_run E (messages w3) apiKey w3) as [d2 Hstep].
  destruct (due (length (messages w3))) eqn:Hdue.
  - destruct Hstep as [summary [Hsum Hstep]].
    apply due_spec in Hdue. destruct Hdue as [Hmod Hpos].
    destruct (last_four_rows (messages w3) Hmod Hpos)
      as [earlier [t1 [t2 [t3 [t4 [Hrows Hlast]]]]]].
    rewrite Hlast in Hsum, Hstep. cbn [map] in Hsum.
    rewrite Hstep in Hcons. inversion Hcons; subst w4. cbn [messages memoryLogs].
    change (memoryLogs w3) with (memoryLogs w).
    split.
    { split; [intros _ | intros _; apply grown_list_differs].
      split; [now eexists | now split]. }
    intros _.
    exists requestText, apiKey, aiResponse, earlier, t1, t2, t3, t4, d, summary, d2.
    split; [exact Hreq|]. split; [exact Hkey|]. split; [reflexivity|].
    split; [exact Hstored|]. split; [exact Hrows|]. split.
    + exact Hsum.
    + reflexivity.
  - destruct Hstep as [_ Hstep]. rewrite Hstep in Hcons. inversion Hcons; subst w4.
    change (memoryLogs w3) with (memoryLogs w).
    split; [|intros Hnew; now elim Hnew].
    split; [intros Hnew; now elim Hnew|].
    intros [_ Hcount]. apply due_spec in Hcount. congruence.
Qed.

Lemma chat_memory_log_witness :
  fst (chat (envWith lenientModel embeddingDown) (Ok "I follow the bird.") twoTurnWorld)
  = Ok (mkHttp 200 (JsonMessage (assistantRow twoTurnWorld "Draft 2")))
  /\ length (messages (snd (chat (envWith lenientModel embeddingDown)
                               (Ok "I follow the bird.") twoTurnWorld))) = 4
  /\ memoryLogs (snd (chat (envWith lenientModel embeddingDown)
                          (Ok "I follow the bird.") twoTurnWorld))
     <> memoryLogs twoTurnWorld
  /\ map log_fields
       (memoryLogs (snd (chat (envWith lenientModel embeddingDown)
                              (Ok "I follow the bird.") twoTurnWorld)))
     = [mkInsertMemoryLog
          ("assistant: The sky is blue in the village." ++ Js.nl
           ++ "user: I look at the sky." ++ Js.nl
           ++ "user: I follow the bird." ++ Js.nl
           ++ "assistant: Draft 2")
          None None (Some "Draft 4") None 5].
Proof.
  assert (Hok : fst (chat (envWith lenientModel embeddingDown)
                          (Ok "I follow the bird.") twoTurnWorld)
                = Ok (mkHttp 200 (JsonMessage (assistantRow twoTurnWorld "Draft 2"))))
    by (vm_compute; reflexivity).
  assert (Hlen : length (messages (snd (chat (envWith lenientModel embeddingDown)
                                             (Ok "I follow the bird.") twoTurnWorld))) = 4)
    by (vm_compute; reflexivity).
  split; [exact Hok|]. split; [exact Hlen|]. split.
  - destruct (chat_memory_log (envWith lenientModel embeddingDown)
                (Ok "I follow the bird.") twoTurnWorld) as [Hiff _].
    apply Hiff. rewrite Hlen. split; [eexists; exact Hok|]. split; [reflexivity | lia].
  - vm_compute. reflexivity.
Defined.

(** C5 as stated fails on an exchange that does not complete: the user
    turn is stored before the agents run, so that a request that fails
    after it can leave a count of stored turns that is a positive multiple
    of 4, and no memory log. *)
Lemma failed_exchange_stores_no_log :
  chat (envWith modelDown embeddingDown) (Ok "I look around.") Exchanges.threeTurnWorld
  = (Ok (mkHttp 500 (JsonError "503 Service Unavailable")),
     snd (chat (envWith modelDown embeddingDown) (Ok "I look around.")
               Exchanges.threeTurnWorld))
  /\ length (messages (snd (chat (envWith modelDown embeddingDown) (Ok "I look around.")
                                 Exchanges.threeTurnWorld))) = 4
  /\ 4 mod 4 = 0
  /\ memoryLogs (snd (chat (envWith modelDown embeddingDown) (Ok "I look around.")
                           Exchanges.threeTurnWorld)) = [].
Proof. repeat split; vm_compute; reflexivity. Qed.

End ChatRoute.

(* ================================================================= *)
(** * Further properties of the code *)

(* ================================================================= *)
(** ** Keyword extraction *)

Module KeywordFacts.
Import QueryAgent.

Lemma seen_spec (w : string) (seen : list string) :
  existsb (String.eqb w) seen = true <-> In w seen.
Proof.
  rewrite existsb_exists. split.
  - intros [x [Hin Heq]]. apply String.eqb_eq in Heq. now subst.
  - intros Hin. exists w. split; [exact Hin | apply String.eqb_refl].
Qed.

Lemma uniqueFrom_spec (words : list string) :
  forall seen,
  NoDup (Js.uniqueFrom seen words)
  /\ forall w, In w (Js.uniqueFrom seen words) -> In w words /\ ~ In w seen.
Proof.
  induction words as [|x rest IH]; intros seen; simpl.
  - split; [constructor | intros w []].
  - destruct (existsb (String.eqb x) seen) eqn:Hseen.
    + destruct (IH seen) as [Hnd Hin]. split; [exact Hnd|].
      intros w Hw. destruct (Hin w Hw). split; [now right | assumption].
    + destruct (IH (x :: seen)) as [Hnd Hin]. split.
      * constructor; [|exact Hnd]. intros Hx. destruct (Hin x Hx) as [_ Hnot].
        apply Hnot. now left.
      * intros w [<- | Hw].
        -- split; [now left|]. intros Hs. apply seen_spec in Hs. congruence.
        -- destruct (Hin w Hw) as [Hr Hnot]. split; [now right|].
           intros Hs. apply Hnot. now right.
Qed.

(** Every character that [blanks] leaves is white space, or a word
    character of the string. *)
Lemma blanks_elements (l : list string) :
  Forall (fun ch => Js.isWhite ch = false -> Js.isWordChar ch = true /\ In ch l)
         (flat_map Js.blanks l).
Proof.
  induction l as [|ch rest IH]; [constructor|].
  cbn [flat_map]. apply Forall_app. split.
  - unfold Js.blanks. destruct (Js.isWordChar ch) eqn:Hword; cbn [orb].
    + constructor; [|constructor]. intros _. split; [exact Hword | now left].
    + destruct (Js.isWhite ch) eqn:Hwhite.
      * constructor; [|constructor]. intros H. congruence.
      * apply Forall_forall. intros x Hx. apply repeat_spec in Hx. subst x.
        intros H. discriminate H.
  - apply (Forall_impl _ (P := fun ch0 => Js.isWhite ch0 = false ->
                                           Js.isWordChar ch0 = true /\ In ch0 rest));
      [|exact IH].
    intros x Hx Hw. destruct (Hx Hw). split; [assumption | now right].
Qed.

Lemma blanks_full (l : list string) :
  Forall (fun ch => CharFacts.full ch = true) (flat_map Js.blanks l).
Proof.
  induction l as [|ch rest IH]; [constructor|].
  cbn [flat_map]. apply Forall_app. split; [|exact IH].
  unfold Js.blanks. destruct (Js.isWordChar ch) eqn:Hword; cbn [orb].
  - constructor; [now apply CharFacts.word_full | constructor].
  - destruct (Js.isWhite ch) eqn:Hwhite.
    + constructor; [now apply CharFacts.white_full | constructor].
    + apply Forall_forall. intros x Hx. apply repeat_spec in Hx. now subst x.
Qed.

(** The characters of the blanked string. *)
Lemma chars_blankPunctuation (s : string) :
  Js.chars (Js.blankPunctuation s) = flat_map Js.blanks (Js.chars s).
Proof. apply CharFacts.chars_glue_full, blanks_full. Qed.

(** The bytes of a token of [split(/\s+/)] are the word characters of
    the list, when every character of the list is white space or a word
    character. *)
Lemma splitSpaces_tokens (P : string -> Prop) (l : list string) :
  Forall (fun ch => Js.isWhite ch = false -> Js.isWordChar ch = true /\ P ch) l ->
  forall inRun token,
  In token (Js.splitSpacesFrom inRun l) ->
  Forall (fun c => Js.isWord c = true /\ P (String c EmptyString))
         (list_ascii_of_string token).
Proof.
  induction 1 as [|ch rest Hch Hrest IH]; intros inRun token Hin; cbn [Js.splitSpacesFrom] in Hin.
  - destruct Hin as [<- | []]. constructor.
  - destruct (Js.isWhite ch) eqn:Hwhite.
    + destruct inRun; [now apply (IH true)|].
      destruct Hin as [<- | Hin]; [constructor | now apply (IH true)].
    + destruct (Hch eq_refl) as [Hword HP].
      destruct ch as [|c [|d more]]; try discriminate Hword. cbn [Js.isWordChar] in Hword.
      destruct (Js.splitSpacesFrom false rest) as [|w ws] eqn:Hsplit.
      * destruct Hin as [<- | []]. constructor; [now split | constructor].
      * destruct Hin as [<- | Hin].
        -- cbn [append list_ascii_of_string]. constructor; [now split|].
           apply (IH false). rewrite Hsplit. now left.
        -- apply (IH false). rewrite Hsplit. now right.
Qed.

Lemma lowerChar_settled (a : ascii) : Js.lowerChar (Js.lowerChar a) = Js.lowerChar a.
Proof. destruct a as [[] [] [] [] [] [] [] []]; reflexivity. Qed.

Lemma word_is_ascii (c : ascii) : Js.isWord c = true -> nat_of_ascii c < 128.
Proof.
  destruct c as [[] [] [] [] [] [] [] []]; intros H; try discriminate H;
    apply Nat.ltb_lt; reflexivity.
Qed.

(** A character of the lower case that is a single byte. *)
Definition settledChar (ch : string) : bool :=
  match ch with
  | String c EmptyString => Ascii.eqb (Js.lowerChar c) c
  | _ => true
  end.

Lemma lowerTable_images (mapping : string * list string) :
  In mapping Js.lowerTable ->
  Forall (fun ch => CharFacts.full ch = true /\ settledChar ch = true) (snd mapping).
Proof.
  assert (Hall : forallb (fun m => forallb (fun ch => CharFacts.full ch && settledChar ch)
                                           (snd m)) Js.lowerTable = true)
    by (vm_compute; reflexivity).
  rewrite forallb_forall in Hall. intros Hin. specialize (Hall _ Hin).
  rewrite forallb_forall in Hall. apply Forall_forall. intros ch Hch.
  specialize (Hall _ Hch). now apply andb_true_iff in Hall.
Qed.

(** The lower case of a character is made of whole characters, or is
    the character itself; none of its characters is a capital letter
    of a single byte. *)
Lemma lowerChars_shape (ch : string) :
  (Forall (fun x => CharFacts.full x = true) (Js.lowerChars ch) \/ Js.lowerChars ch = [ch])
  /\ Forall (fun x => settledChar x = true) (Js.lowerChars ch).
Proof.
  unfold Js.lowerChars.
  destruct ch as [|c [|d more]].
  - cbn. split; [now right | repeat constructor].
  - split.
    + destruct (Nat.ltb_spec (nat_of_ascii c) 192) as [Hlow | Hhigh].
      * left. constructor; [|constructor].
        cbn [CharFacts.full String.length]. apply Nat.eqb_eq.
        clear -Hlow. apply Nat.ltb_lt in Hlow.
        destruct c as [[] [] [] [] [] [] [] []]; try discriminate Hlow; reflexivity.
      * right. f_equal. f_equal.
        clear -Hhigh. apply Nat.leb_le in Hhigh.
        destruct c as [[] [] [] [] [] [] [] []]; try discriminate Hhigh; reflexivity.
    + constructor; [|constructor]. cbn [settledChar].
      apply Ascii.eqb_eq, lowerChar_settled.
  - destruct (find (fun mapping => String.eqb (fst mapping) (String c (String d more)))
                   Js.lowerTable) as [mapping|] eqn:Hfind.
    + apply find_some in Hfind. destruct Hfind as [Hin _].
      pose proof (@lowerTable_images mapping Hin) as Himages. split.
      * left. apply (Forall_impl _ (P := fun x => CharFacts.full x = true
                                                  /\ settledChar x = true)); [|exact Himages].
        now intros x [Hx _].
      * apply (Forall_impl _ (P := fun x => CharFacts.full x = true
                                            /\ settledChar x = true)); [|exact Himages].
        now intros x [_ Hx].
    + split; [now right | repeat constructor].
Qed.

Lemma chunked_after_full (out l : list string) :
  Forall (fun x => CharFacts.full x = true) out ->
  CharFacts.Chunked l -> CharFacts.Chunked (out ++ l).
Proof.
  intros Hout Hl. unfold CharFacts.Chunked in *.
  rewrite CharFacts.glue_app, (CharFacts.chars_all_full _ Hout), Hl. reflexivity.
Qed.

(** The characters of the lower case of a string. *)
Lemma lowerFrom_chunked (l : list string) :
  forall before, CharFacts.Chunked l -> CharFacts.Chunked (Js.lowerFrom before l).
Proof.
  induction l as [|ch rest IH]; intros before Hl; [reflexivity|].
  destruct (CharFacts.chunked_tail Hl) as [Hrest [Hne Hlast]].
  cbn [Js.lowerFrom].
  destruct (String.eqb ch Js.SIGMA) eqn:Hsigma.
  - apply chunked_after_full; [|now apply IH].
    constructor; [|constructor]. now destruct (Js.finalSigma before rest).
  - destruct (lowerChars_shape ch) as [[Hfull | Hsame] _].
    + apply chunked_after_full; [exact Hfull | now apply IH].
    + rewrite Hsame. destruct Hlast as [Hfull | ->].
      * apply (chunked_after_full (out := [ch]));
          [constructor; [exact Hfull | constructor] | now apply IH].
      * exact Hl.
Qed.

Lemma chars_toLowerCase (s : string) :
  Js.chars (Js.toLowerCase s) = Js.lowerFrom [] (Js.chars s).
Proof. apply lowerFrom_chunked, CharFacts.chunked_chars. Qed.

Lemma lowerFrom_settled (l : list string) :
  forall before, Forall (fun x => settledChar x = true) (Js.lowerFrom before l).
Proof.
  induction l as [|ch rest IH]; intros before; [constructor|].
  cbn [Js.lowerFrom]. apply Forall_app. split; [|apply IH].
  destruct (String.eqb ch Js.SIGMA).
  - constructor; [|constructor]. now destruct (Js.finalSigma before rest).
  - apply lowerChars_shape.
Qed.

(** No character of the lower case of a string is a capital letter of
    a single byte. *)
Lemma lowered_chars (s : string) (c : ascii) :
  In (String c EmptyString) (Js.chars (Js.toLowerCase s)) -> Js.lowerChar c = c.
Proof.
  rewrite chars_toLowerCase. intros Hin.
  pose proof (lowerFrom_settled (Js.chars s) []) as Hall.
  rewrite Forall_forall in Hall. specialize (Hall _ Hin).
  now apply Ascii.eqb_eq in Hall.
Qed.

(** A token of the lower-cased, blanked query is made of word
    characters that have no upper case left. *)
Lemma normalised_chars (s token : string) :
  In token (Js.splitSpaces (Js.blankPunctuation (Js.toLowerCase s))) ->
  Forall (fun c => Js.isWord c = true /\ Js.lowerChar c = c) (list_ascii_of_string token).
Proof.
  unfold Js.splitSpaces. rewrite chars_blankPunctuation. intros Hin.
  pose proof (@splitSpaces_tokens _ _ (blanks_elements (Js.chars (Js.toLowerCase s)))
                _ _ Hin) as Hbytes.
  apply (Forall_impl _ (P := fun c => Js.isWord c = true
                                      /\ In (String c EmptyString)
                                            (Js.chars (Js.toLowerCase s))));
    [|exact Hbytes].
  intros c [Hword Hc]. split; [exact Hword | now apply (lowered_chars s)].
Qed.

(** The length of a string of characters below 128 is its number of
    bytes. *)
Lemma length_ascii (s : string) :
  Forall (fun c => nat_of_ascii c < 128) (list_ascii_of_string s) ->
  Js.length s = String.length s.
Proof.
  unfold Js.length. induction s as [|c r IH]; intros Hall; [reflexivity|].
  cbn [list_ascii_of_string] in Hall. inversion Hall as [|c0 l0 Hc Hr]; subst.
  rewrite CharFacts.chars_cons.
  assert (Hw : Js.width c = 1).
  { unfold Js.width. destruct (Nat.ltb_spec (nat_of_ascii c) 192); [reflexivity | lia]. }
  rewrite Hw. cbn [Js.takeString Js.dropString map list_sum fold_right Js.units].
  destruct (Nat.ltb_spec (nat_of_ascii c) 240); [|lia].
  change (fold_right Nat.add 0 (map Js.units (Js.chars r)))
    with (list_sum (map Js.units (Js.chars r))).
  rewrite (IH Hr). reflexivity.
Qed.

Lemma token_length (s token : string) :
  In token (Js.splitSpaces (Js.blankPunctuation (Js.toLowerCase s))) ->
  Js.length token = String.length token.
Proof.
  intros Hin. apply length_ascii.
  apply (Forall_impl _ (P := fun c => Js.isWord c = true /\ Js.lowerChar c = c));
    [|exact (@normalised_chars s token Hin)].
  intros c [Hword _]. now apply word_is_ascii.
Qed.

(** X1. The keywords of a query are pairwise distinct, each is longer
    than 2 characters, and none is a stop word. *)
Theorem extractKeywords_selective (query : string) :
  NoDup (extractKeywords query)
  /\ Forall (fun keyword => 2 < String.length keyword /\ ~ In keyword stopWords)
            (extractKeywords query).
Proof.
  unfold extractKeywords, Js.unique.
  match goal with |- context [Js.uniqueFrom [] ?ws] => destruct (uniqueFrom_spec ws []) as [Hnd Hin] end.
  split; [exact Hnd|].
  apply Forall_forall. intros k Hk. destruct (Hin k Hk) as [Hfilter _].
  apply filter_In in Hfilter. destruct Hfilter as [Htoken Hkeep].
  apply andb_true_iff in Hkeep. destruct Hkeep as [Hlen Hstop].
  apply Nat.ltb_lt in Hlen. rewrite (@token_length _ _ Htoken) in Hlen. split; [exact Hlen|].
  intros Hs. apply seen_spec in Hs. rewrite Hs in Hstop. discriminate.
Qed.

(** X2. A keyword is made of lower-case letters, digits and underscores
    only: every character of it is a word character that lower-casing
    leaves as it is. *)
Theorem extractKeywords_alphabet (query : string) :
  Forall (fun keyword =>
            Forall (fun c => Js.isWord c = true /\ Js.lowerChar c = c)
                   (list_ascii_of_string keyword))
         (extractKeywords query).
Proof.
  unfold extractKeywords, Js.unique.
  match goal with |- context [Js.uniqueFrom [] ?ws] => destruct (uniqueFrom_spec ws []) as [_ Hin] end.
  apply Forall_forall. intros k Hk. destruct (Hin k Hk) as [Hfilter _].
  apply filter_In in Hfilter. destruct Hfilter as [Htoken _].
  exact (@normalised_chars _ _ Htoken).
Qed.

End KeywordFacts.

(* ================================================================= *)
(** ** The keyword stage: origin, size and order of the results *)

Module KeywordStage.
Import QueryAgent Runs RetrievalSpec StageSpec.
Import RuntimeFacts RetrievalFacts SemanticFacts RetrievalClaims.

Lemma set_entry (K V : Type) (eqb : K -> K -> bool) (m : Js.OMap K V) (k : K) (v : V) :
  forall e, In e (Js.set eqb m k v) -> e = (k, v) \/ In e m.
Proof.
  induction m as [|[k' v'] t IH]; simpl; intros e He.
  - destruct He as [<- | []]. now left.
  - destruct (eqb k' k).
    + destruct He as [<- | He]; [now left | right; now right].
    + destruct He as [<- | He]; [right; now left|].
      destruct (IH e He) as [-> | Hin]; [now left | right; now right].
Qed.

Lemma set_size (K V : Type) (eqb : K -> K -> bool) (m : Js.OMap K V) (k : K) (v : V) :
  length (Js.set eqb m k v) <= S (length m).
Proof.
  induction m as [|[k' v'] t IH]; simpl; [lia|].
  destruct (eqb k' k); simpl; lia.
Qed.

(** The first loop: an entry of [allKeywordMatches] pairs a keyword with
    its capped, sorted matches. *)
Lemma keywordMatches_entry (limit : nat) (allMessages : list Message) (keywords : list string) :
  forall found e,
  In e (fold_left (fun acc keyword =>
                     Js.set String.eqb acc keyword (matchesOf limit allMessages keyword))
                  keywords found) ->
  In e found
  \/ exists keyword, In keyword keywords /\ e = (keyword, matchesOf limit allMessages keyword).
Proof.
  induction keywords as [|k rest IH]; simpl; intros found e He; [now left|].
  destruct (IH _ _ He) as [Hin | [k' [Hk' ->]]].
  - apply set_entry in Hin. destruct Hin as [-> | Hin]; [right | now left].
    exists k. split; [now left | reflexivity].
  - right. exists k'. split; [now right | reflexivity].
Qed.

Lemma keywordMatches_size (limit : nat) (allMessages : list Message) (keywords : list string) :
  forall found,
  length (fold_left (fun acc keyword =>
                       Js.set String.eqb acc keyword (matchesOf limit allMessages keyword))
                    keywords found)
  <= length found + length keywords.
Proof.
  induction keywords as [|k rest IH]; simpl; intros found; [lia|].
  specialize (IH (Js.set String.eqb found k (matchesOf limit allMessages k))).
  pose proof (set_size String.eqb found k (matchesOf limit allMessages k)). lia.
Qed.

(** The second loop: a value of [uniqueMessages] was there or is one of
    the matches, and each match adds at most one. *)
Lemma addUnique_value (um : Js.OMap nat Message) (message : Message) :
  forall e, In e (addUnique um message) -> In e um \/ snd e = message.
Proof.
  intros e He. unfold addUnique in He.
  destruct (Js.has Nat.eqb um (id message)); [now left|].
  apply set_entry in He. destruct He as [-> | He]; [now right | now left].
Qed.

Lemma addAll_value (matches : list Message) :
  forall um e, In e (fold_left addUnique matches um) -> In e um \/ In (snd e) matches.
Proof.
  induction matches as [|m t IH]; simpl; intros um e He; [now left|].
  destruct (IH _ _ He) as [Hin | Hin]; [|right; now right].
  apply addUnique_value in Hin. destruct Hin as [Hin | <-]; [now left | right; now left].
Qed.

Lemma addAll_size (matches : list Message) :
  forall um, length (fold_left addUnique matches um) <= length um + length matches.
Proof.
  induction matches as [|m t IH]; simpl; intros um; [lia|].
  specialize (IH (addUnique um m)).
  assert (length (addUnique um m) <= S (length um)).
  { unfold addUnique. destruct (Js.has Nat.eqb um (id m)); [lia | apply set_size]. }
  lia.
Qed.

Lemma collect_value (found : list (string * list Message)) :
  forall um e,
  In e (fold_left (fun acc entry => fold_left addUnique (snd entry) acc) found um) ->
  In e um \/ exists entry, In entry found /\ In (snd e) (snd entry).
Proof.
  induction found as [|x rest IH]; simpl; intros um e He; [now left|].
  destruct (IH _ _ He) as [Hin | [entry [Hentry Hin]]].
  - apply addAll_value in Hin. destruct Hin as [Hin | Hin]; [now left | right].
    exists x. split; [now left | exact Hin].
  - right. exists entry. split; [now right | exact Hin].
Qed.

Lemma collect_size (limit : nat) (found : list (string * list Message)) :
  Forall (fun entry => length (snd entry) <= limit) found ->
  forall um,
  length (fold_left (fun acc entry => fold_left addUnique (snd entry) acc) found um)
  <= length um + length found * limit.
Proof.
  induction 1 as [|x rest Hx _ IH]; simpl; intros um; [lia|].
  specialize (IH (fold_left addUnique (snd x) um)).
  pose proof (addAll_size (snd x) um). lia.
Qed.

Lemma matchesOf_origin (limit : nat) (allMessages : list Message) (keyword : string)
    (message : Message) :
  In message (matchesOf limit allMessages keyword) ->
  In message allMessages /\ mentions keyword message = true.
Proof.
  unfold matchesOf. intros Hin.
  assert (Hsorted : In message (Js.sort longer (filter (mentions keyword) allMessages))).
  { rewrite <- (firstn_skipn limit). apply in_or_app. now left. }
  apply (Permutation_in _ (JsFacts.sort_perm longer _)) in Hsorted.
  now apply filter_In in Hsorted.
Qed.

(** Where a result of the keyword stage comes from. *)
Lemma keywordSearch_origin (query : string) (allMessages : list Message) (message : Message) :
  In message (keywordSearch query allMessages) ->
  In message allMessages
  /\ exists keyword, In keyword (extractKeywords query) /\ mentions keyword message = true.
Proof.
  unfold keywordSearch.
  destruct (length (extractKeywords query) =? 0)%nat; [intros []|].
  unfold Js.values, Js.entries. intros Hin.
  apply in_map_iff in Hin. destruct Hin as [e [<- He]].
  apply collect_value in He. destruct He as [[] | [entry [Hentry Hin]]].
  apply keywordMatches_entry in Hentry. destruct Hentry as [[] | [keyword [Hk ->]]].
  apply matchesOf_origin in Hin. destruct Hin as [Hall Hmentions].
  split; [exact Hall|]. now exists keyword.
Qed.

(** X3. Every turn the keyword stage returns is a turn of the corpus
    whose lower-cased content contains one of the keywords of the query;
    a query without keywords yields nothing. *)
Theorem keywordSearch_sound (query : string) (allMessages : list Message) :
  Forall (fun message =>
            In message allMessages
            /\ exists keyword,
                 In keyword (extractKeywords query) /\ mentions keyword message = true)
         (keywordSearch query allMessages)
  /\ (extractKeywords query = [] -> keywordSearch query allMessages = []).
Proof.
  split.
  - apply Forall_forall. intros message. apply keywordSearch_origin.
  - intros Hnone. unfold keywordSearch. now rewrite Hnone.
Qed.

Lemma keywordSearch_sound_witness :
  extractKeywords "Is it on?" = []
  /\ keywordSearch "Is it on?" Fixtures.villageCorpus = [].
Proof.
  assert (H : extractKeywords "Is it on?" = []) by reflexivity.
  split; [exact H|].
  exact (proj2 (keywordSearch_sound "Is it on?" Fixtures.villageCorpus) H).
Defined.

(** X4. The keyword stage returns at most 15 turns per keyword when the
    query has fewer than 5 keywords, and at most 10 per keyword otherwise. *)
Theorem keywordSearch_size (query : string) (allMessages : list Message) :
  let keywords := extractKeywords query in
  length (keywordSearch query allMessages)
  <= length keywords * (if (length keywords <? 5)%nat then 15 else 10)
  /\ ((length keywords < 5)%nat -> length (keywordSearch query allMessages) <= 60).
Proof.
  intros keywords.
  assert (Hbound : length (keywordSearch query allMessages)
                   <= length keywords * (if (length keywords <? 5)%nat then 15 else 10)).
  { unfold keywordSearch. fold keywords.
    destruct (length keywords =? 0)%nat; [simpl; lia|].
    set (limit := if (length keywords <? 5)%nat then 15 else 10).
    unfold Js.values, Js.entries. rewrite length_map.
    match goal with
    | |- context [fold_left ?f keywords []] => set (found := fold_left f keywords [])
    end.
    assert (Hfound : Forall (fun entry : string * list Message =>
                               length (snd entry) <= limit) found).
    { apply Forall_forall. intros e He. unfold found in He.
      apply keywordMatches_entry in He. destruct He as [[] | [k [_ ->]]].
      unfold matchesOf. simpl. apply firstn_le_length. }
    pose proof (collect_size Hfound []) as Hsize.
    pose proof (keywordMatches_size limit allMessages keywords []) as Hentries.
    fold found in Hentries. simpl in Hsize, Hentries. nia. }
  split; [exact Hbound|].
  intros Hfew. apply Nat.ltb_lt in Hfew as Hfew'. rewrite Hfew' in Hbound. lia.
Qed.

Lemma keywordSearch_size_witness :
  (length (extractKeywords "What color is the sky?") < 5)%nat
  /\ length (keywordSearch "What color is the sky?" Fixtures.villageCorpus) <= 60.
Proof.
  assert (H : (length (extractKeywords "What color is the sky?") < 5)%nat) by (vm_compute; lia).
  split; [exact H|].
  exact (proj2 (keywordSearch_size "What color is the sky?" Fixtures.villageCorpus) H).
Defined.

(** Sorting by content length. *)
Lemma insertSorted_notLonger (x : Message) (l : list Message) :
  StronglySorted notLonger l -> StronglySorted notLonger (Js.insertSorted longer x l).
Proof.
  induction 1 as [|y t Ht IH Hy]; simpl.
  - repeat constructor.
  - unfold longer at 1. destruct (Nat.ltb_spec (Js.length (content y))
                                                (Js.length (content x))) as [Hlt | Hge].
    + constructor; [exact IH|].
      apply Forall_forall. intros z Hz.
      apply (Permutation_in _ (JsFacts.insertSorted_perm longer x t)) in Hz.
      destruct Hz as [<- | Hz]; [unfold notLonger; lia|].
      rewrite Forall_forall in Hy. now apply Hy.
    + constructor; [now constructor|].
      constructor; [exact Hge|].
      eapply Forall_impl; [|exact Hy]. unfold notLonger. intros z Hz. lia.
Qed.

Lemma sort_notLonger (l : list Message) : StronglySorted notLonger (Js.sort longer l).
Proof.
  induction l as [|x t IH]; simpl; [constructor | now apply insertSorted_notLonger].
Qed.

Lemma sorted_prefix_below (l1 l2 : list Message) :
  StronglySorted notLonger (l1 ++ l2) ->
  StronglySorted notLonger l1 /\ forall a b, In a l1 -> In b l2 -> notLonger a b.
Proof.
  induction l1 as [|x t IH]; simpl; intros H.
  - split; [constructor | intros a b []].
  - inversion H as [|? ? Hs Hall]; subst. destruct (IH Hs) as [Ht Hbelow].
    apply Forall_app in Hall. destruct Hall as [Hall1 Hall2].
    split; [now constructor|].
    intros a b [<- | Ha] Hb; [|now apply Hbelow].
    rewrite Forall_forall in Hall2. now apply Hall2.
Qed.

(** X5. For one keyword, the turns kept are the shortest matching ones:
    they come in ascending order of content length, there are as many as
    the limit allows, and every matching turn left out is at least as long
    as every turn kept. *)
Theorem matchesOf_keeps_shortest (limit : nat) (allMessages : list Message)
    (keyword : string) :
  let matches := filter (mentions keyword) allMessages in
  let kept := matchesOf limit allMessages keyword in
  StronglySorted notLonger kept
  /\ length kept = Nat.min limit (length matches)
  /\ exists leftOut,
       Permutation (kept ++ leftOut) matches
       /\ forall a b, In a kept -> In b leftOut -> notLonger a b.
Proof.
  intros matches kept. unfold kept, matchesOf. fold (mentions keyword). fold matches.
  pose proof (sort_notLonger matches) as Hsorted.
  rewrite <- (firstn_skipn limit (Js.sort longer matches)) in Hsorted.
  destruct (sorted_prefix_below _ _ Hsorted) as [Hkept Hbelow].
  split; [exact Hkept|]. split.
  - rewrite length_firstn. f_equal.
    apply Permutation_length, JsFacts.sort_perm.
  - exists (skipn limit (Js.sort longer matches)). split; [|exact Hbelow].
    rewrite firstn_skipn. apply JsFacts.sort_perm.
Qed.

End KeywordStage.

(* ================================================================= *)
(** ** Retrieval: what comes back is stored *)

Module RetrievalOrigin.
Import QueryAgent Runs RetrievalSpec StageSpec.
Import RuntimeFacts RetrievalFacts SemanticFacts RetrievalClaims.

(** X6. The semantic stage never throws; it returns at most 15 turns,
    each a turn of the corpus it was given. *)
Theorem semanticSearch_bounded (E : Env) (agent : MemoryAgent.Agent) (query : string)
    (allMessages : list Message) (w : World) :
  exists semanticResults,
    fst (semanticSearch E agent query allMessages w) = Ok semanticResults
    /\ length semanticResults <= 15
    /\ incl semanticResults allMessages.
Proof.
  destruct (semanticSearch_outcome E agent query allMessages w) as [sem [d [Hrun Hsem]]].
  exists sem. rewrite Hrun. split; [reflexivity|].
  destruct Hsem as [-> | [_ [sims [Hfst ->]]]].
  - split; [simpl; lia | intros m []].
  - split; [apply firstn_le_length|].
    rewrite <- Hfst. apply ranked_incl.
Qed.

(** X7. Every turn that [queryMessages] returns is a stored turn; on an
    empty table it returns the empty list and calls no provider. *)
Theorem queryMessages_from_storage (E : Env) (query apiKey : string) (w : World) :
  (exists results,
     fst (queryMessages E query apiKey w) = Ok results /\ incl results (messages w))
  /\ (messages w = [] -> queryMessages E query apiKey w = (Ok [], w)).
Proof.
  split.
  - destruct (queryMessages_run E query apiKey w) as [sem [d [Hrun [_ Hsem]]]].
    rewrite Hrun. eexists. split; [reflexivity|].
    intros m Hm. rewrite merge_eq in Hm.
    assert (Hin : In m (keywordSearch query (messages w)
                        ++ filter (isNew (keywordSearch query (messages w))) sem)%list).
    { rewrite <- (firstn_skipn 100). apply in_or_app. now left. }
    apply in_app_or in Hin. destruct Hin as [Hkw | Hsm].
    + unfold keywordSearch in Hkw.
      destruct (length (extractKeywords query) =? 0)%nat; [destruct Hkw|].
      unfold Js.values, Js.entries in Hkw.
      apply in_map_iff in Hkw. destruct Hkw as [e [<- He]].
      apply KeywordStage.collect_value in He. destruct He as [[] | [entry [Hentry Hin]]].
      apply KeywordStage.keywordMatches_entry in Hentry.
      destruct Hentry as [[] | [keyword [_ ->]]].
      now apply KeywordStage.matchesOf_origin in Hin.
    + apply filter_In in Hsm. destruct Hsm as [Hsm _].
      destruct Hsem as [-> | [_ [sims [Hfst ->]]]]; [destruct Hsm|].
      rewrite <- Hfst. now apply ranked_incl.
  - intros Hempty. unfold queryMessages, bind, Storage.getAllMessages.
    now rewrite Hempty.
Qed.

Lemma queryMessages_from_storage_witness :
  messages (mkWorld [] [] (Some Fixtures.storySettings) 0 []) = []
  /\ queryMessages (Fixtures.envWith Fixtures.strictModel Fixtures.skyEmbedding)
       "What color is the sky?" "key" (mkWorld [] [] (Some Fixtures.storySettings) 0 [])
     = (Ok [], mkWorld [] [] (Some Fixtures.storySettings) 0 []).
Proof.
  split; [reflexivity|].
  exact (proj2 (queryMessages_from_storage
                  (Fixtures.envWith Fixtures.strictModel Fixtures.skyEmbedding)
                  "What color is the sky?" "key"
                  (mkWorld [] [] (Some Fixtures.storySettings) 0 [])) eq_refl).
Defined.

End RetrievalOrigin.

(* ================================================================= *)
(** ** MemoryAgent: embedding the texts *)

Module EmbeddingFacts.
Import QueryAgent Runs RetrievalSpec RuntimeFacts.

Lemma embedEach_run (E : Env) (key : string) (texts : list string) :
  forall w,
  exists n,
    n <= length texts
    /\ snd (MemoryAgent.embedEach E key texts w)
       = addCalls (map (EmbedContent "embedding-001" key) (firstn n texts)) w
    /\ match fst (MemoryAgent.embedEach E key texts w) with
       | Ok vectors =>
           n = length texts
           /\ length vectors = length texts
           /\ forall i, i < length texts ->
                embedContent E (length (calls w) + i)
                  (EmbedContent "embedding-001" key (nth i texts EmptyString))
                = Ok (nth i vectors [])
       | Throw e =>
           0 < n
           /\ (forall i, i < n - 1 ->
                 exists values,
                   embedContent E (length (calls w) + i)
                     (EmbedContent "embedding-001" key (nth i texts EmptyString))
                   = Ok values)
           /\ embedContent E (length (calls w) + (n - 1))
                (EmbedContent "embedding-001" key (nth (n - 1) texts EmptyString))
              = Throw e
       end.
Proof.
  induction texts as [|t rest IH]; intros w.
  - exists 0. simpl. rewrite addCalls_nil. split; [lia|]. split; [reflexivity|].
    split; [reflexivity|]. split; [reflexivity|]. intros i Hi. lia.
  - cbn [MemoryAgent.embedEach]. unfold bind, callEmbed.
    destruct (embedContent E (length (calls w)) (EmbedContent "embedding-001" key t))
      as [values | e] eqn:Hfirst.
    + destruct (IH (logCall (EmbedContent "embedding-001" key t) w)) as [n [Hn [Hlog Hrest]]].
      assert (Hpos : forall j, length (calls (logCall (EmbedContent "embedding-001" key t) w)) + j
                               = length (calls w) + S j).
      { intros j. cbn [logCall calls]. rewrite length_app. simpl. lia. }
      exists (S n). split; [simpl; lia|].
      destruct (MemoryAgent.embedEach E key rest _) as [[vs | e] w1]; cbn [fst snd] in *;
        subst w1;
        (split; [rewrite logCall_addCalls, addCalls_app; reflexivity|]).
      * unfold ret. cbn [fst].
        destruct Hrest as [Hlen [Hvs Hcalls]].
        split; [simpl; congruence|]. split; [simpl; congruence|].
        intros i Hi. destruct i as [|j].
        -- rewrite Nat.add_0_r. exact Hfirst.
        -- rewrite <- Hpos. cbn [nth]. apply Hcalls. simpl in Hi. lia.
      * destruct Hrest as [Hsome [Hbefore Hlast]].
        split; [lia|]. split.
        -- intros i Hi. destruct i as [|j].
           ++ rewrite Nat.add_0_r. now exists values.
           ++ rewrite <- Hpos. cbn [nth]. apply Hbefore. lia.
        -- replace (S n - 1) with (S (n - 1)) by lia.
           rewrite <- Hpos. cbn [nth]. exact Hlast.
    + exists 1. cbn [fst snd firstn map length]. split; [lia|]. split; [reflexivity|].
      split; [lia|]. split; [intros i Hi; lia|].
      cbn [Nat.sub nth]. rewrite Nat.add_0_r. exact Hfirst.
Qed.

(** X8. [getEmbeddings] embeds the texts in order, one provider call for
    each, and stops at the first call that throws. When it returns, every
    text has been embedded and the result holds the answers of the calls,
    one vector for each text, in the order of the texts. When it throws,
    every call before the last one was answered and the error is the one
    of the last call. *)
Theorem getEmbeddings_one_per_text (E : Env) (agent : MemoryAgent.Agent)
    (texts : list string) (w : World) (key : string) :
  MemoryAgent.pick (MemoryAgent.orElse (MemoryAgent.apiKey agent) (envApiKey E)) = Some key ->
  exists n,
    n <= length texts
    /\ snd (MemoryAgent.getEmbeddings E agent texts w)
       = addCalls (map (EmbedContent "embedding-001" key) (firstn n texts)) w
    /\ match fst (MemoryAgent.getEmbeddings E agent texts w) with
       | Ok vectors =>
           n = length texts
           /\ length vectors = length texts
           /\ forall i, i < length texts ->
                embedContent E (length (calls w) + i)
                  (EmbedContent "embedding-001" key (nth i texts EmptyString))
                = Ok (nth i vectors [])
       | Throw e =>
           0 < n
           /\ (forall i, i < n - 1 ->
                 exists values,
                   embedContent E (length (calls w) + i)
                     (EmbedContent "embedding-001" key (nth i texts EmptyString))
                   = Ok values)
           /\ embedContent E (length (calls w) + (n - 1))
                (EmbedContent "embedding-001" key (nth (n - 1) texts EmptyString))
              = Throw e
       end.
Proof.
  intros Hkey. unfold MemoryAgent.getEmbeddings. rewrite Hkey. apply embedEach_run.
Qed.

Lemma getEmbeddings_one_per_text_witness :
  exists n,
    n <= 2
    /\ snd (MemoryAgent.getEmbeddings (Fixtures.envWith Fixtures.strictModel Fixtures.skyEmbedding)
              (MemoryAgent.mkAgent (Some "key")) ["The sky"; "A bird"] Fixtures.villageWorld)
       = addCalls (map (EmbedContent "embedding-001" "key") (firstn n ["The sky"; "A bird"]))
                  Fixtures.villageWorld
    /\ match fst (MemoryAgent.getEmbeddings
                    (Fixtures.envWith Fixtures.strictModel Fixtures.skyEmbedding)
                    (MemoryAgent.mkAgent (Some "key")) ["The sky"; "A bird"]
                    Fixtures.villageWorld) with
       | Ok vectors =>
           n = 2
           /\ length vectors = 2
           /\ forall i, i < 2 ->
                Fixtures.skyEmbedding (0 + i)
                  (EmbedContent "embedding-001" "key" (nth i ["The sky"; "A bird"] EmptyString))
                = Ok (nth i vectors [])
       | Throw e =>
           0 < n
           /\ (forall i, i < n - 1 ->
                 exists values,
                   Fixtures.skyEmbedding (0 + i)
                     (EmbedContent "embedding-001" "key"
                        (nth i ["The sky"; "A bird"] EmptyString))
                   = Ok values)
           /\ Fixtures.skyEmbedding (0 + (n - 1))
                (EmbedContent "embedding-001" "key"
                   (nth (n - 1) ["The sky"; "A bird"] EmptyString))
              = Throw e
       end.
Proof.
  exact (getEmbeddings_one_per_text
           (Fixtures.envWith Fixtures.strictModel Fixtures.skyEmbedding)
           (MemoryAgent.mkAgent (Some "key")) ["The sky"; "A bird"] Fixtures.villageWorld
           eq_refl).
Defined.

Lemma orElse_settled (a b : option string) :
  MemoryAgent.orElse (MemoryAgent.orElse a b) b = MemoryAgent.orElse a b.
Proof.
  assert (Hb : MemoryAgent.orElse b b = b).
  { unfold MemoryAgent.orElse, MemoryAgent.pick.
    destruct b as [u|]; [destruct (Js.truthy u)|]; reflexivity. }
  unfold MemoryAgent.orElse at 2 3. unfold MemoryAgent.pick.
  destruct a as [t|]; [destruct (Js.truthy t) eqn:Ht|]; try exact Hb.
  unfold MemoryAgent.orElse, MemoryAgent.pick. now rewrite Ht.
Qed.

(** X9. When neither the caller nor the environment has a key, the
    semantic stage contributes nothing and calls no provider, and the
    retrieval is the keyword stage cut at 100. *)
Theorem semanticSearch_without_key (E : Env) (query apiKey : string) (w : World) :
  MemoryAgent.pick (MemoryAgent.orElse (Some apiKey) (envApiKey E)) = None ->
  semanticSearch E (MemoryAgent.new E (Some apiKey)) query (messages w) w = (Ok [], w)
  /\ queryMessages E query apiKey w
     = (Ok (firstn 100 (keywordSearch query (messages w))), w).
Proof.
  intros Hnone.
  assert (Hsem : forall allMessages,
            semanticSearch E (MemoryAgent.new E (Some apiKey)) query allMessages w
            = (Ok [], w)).
  { intros allMessages.
    unfold semanticSearch, tryCatch, bind at 1, MemoryAgent.getEmbeddingOf,
      MemoryAgent.getEmbedding, MemoryAgent.new. cbn [MemoryAgent.apiKey].
    now rewrite orElse_settled, Hnone. }
  split; [apply Hsem|].
  unfold queryMessages, bind at 1, Storage.getAllMessages.
  destruct (messages w) as [|m0 rest] eqn:Hmsgs.
  - simpl. now rewrite RetrievalClaims.keywordSearch_nil.
  - cbn [length Nat.eqb]. unfold bind. rewrite Hsem. unfold ret.
    rewrite RetrievalFacts.merge_eq. cbn [filter]. now rewrite app_nil_r.
Qed.

Lemma semanticSearch_without_key_witness :
  MemoryAgent.pick (MemoryAgent.orElse (Some EmptyString)
                      (envApiKey (Fixtures.envWith Fixtures.strictModel Fixtures.skyEmbedding)))
  = None
  /\ queryMessages (Fixtures.envWith Fixtures.strictModel Fixtures.skyEmbedding)
       "What color is the sky?" EmptyString Fixtures.villageWorld
     = (Ok (firstn 100 (keywordSearch "What color is the sky?"
                          (messages Fixtures.villageWorld))),
        Fixtures.villageWorld).
Proof.
  split; [reflexivity|].
  exact (proj2 (semanticSearch_without_key
                  (Fixtures.envWith Fixtures.strictModel Fixtures.skyEmbedding)
                  "What color is the sky?" EmptyString Fixtures.villageWorld eq_refl)).
Defined.

End EmbeddingFacts.

(* ================================================================= *)
(** ** The generation request and its outcomes *)

Module GenerationFacts.
Import GenerationAgent OrchestratorAgent Runs CharFacts.

Lemma systemInstructionOf_opens (context : ChatContext) :
  exists rest, systemInstructionOf context = ctx_behaviorPrompt context ++ rest.
Proof.
  unfold systemInstructionOf.
  destruct (MemoryAgent.pick (highFidelityTranscript context)) as [transcript|];
    [|destruct (0 <? length (relevantMemories context))%nat];
    rewrite ?append_assoc; eexists; reflexivity.
Qed.

Lemma roles_of_history (history : list HistoryEntry) :
  Forall (fun c => c_role c = "user" \/ c_role c = "model")
         (map (fun msg => mkContent (if String.eqb (h_role msg) "user" then "user" else "model")
                                    (h_content msg))
              history).
Proof.
  induction history as [|h rest IH]; simpl; constructor; [|exact IH].
  simpl. destruct (String.eqb (h_role h) "user"); [now left | now right].
Qed.


(** X11. A block for safety, reported in the response or in the error the
    provider throws, never surfaces as an error and never as the text of
    the model: the generation returns the fixed sentence. *)
Theorem generateStoryResponse_safety (E : Env) (userMessage : string)
    (context : ChatContext) (apiKey : option string) (w : World) :
  match generateContent E (length (calls w))
          (GenerateChat "gemini-3-pro-preview" (clientKey E apiKey)
                        (contentsOf userMessage context)) with
  | Ok result => blockedForSafety result = true
  | Throw error => safetyInError error = true
  end ->
  fst (generateStoryResponse E userMessage context apiKey w) = Ok SAFETY_SENTINEL.
Proof.
  unfold generateStoryResponse, tryCatch, bind, callGenerate.
  destruct (generateContent E _ _) as [result | error]; cbv beta iota; intros H;
    rewrite H; reflexivity.
Qed.

Lemma generateStoryResponse_safety_witness :
  fst (generateStoryResponse (Fixtures.envWith Scenes.censoredModel Fixtures.embeddingDown)
         "I open the door." Scenes.plainContext (Some "key") Fixtures.villageWorld)
  = Ok "Generation error due to Safety Issue".
Proof.
  exact (generateStoryResponse_safety
           (Fixtures.envWith Scenes.censoredModel Fixtures.embeddingDown)
           "I open the door." Scenes.plainContext (Some "key") Fixtures.villageWorld eq_refl).
Defined.

(** X12. The contents of a generation request open with a user turn whose
    text starts with the behavior prompt, and close with the user message.
    The turns between them are user or model turns, no more of them than
    the history has entries. *)
Theorem contentsOf_shape (userMessage : string) (context : ChatContext) :
  exists opening turns rest,
    contentsOf userMessage context
    = (opening :: turns ++ [mkContent "user" userMessage])%list
    /\ c_role opening = "user"
    /\ c_text opening = ctx_behaviorPrompt context ++ rest
    /\ Forall (fun c => c_role c = "user" \/ c_role c = "model") turns
    /\ length turns <= length (conversationHistory context).
Proof.
  destruct (systemInstructionOf_opens context) as [more Hsys].
  unfold contentsOf. rewrite Hsys.
  destruct (conversationHistory context) as [|h history]; cbn [map].
  - exists (mkContent "user" (ctx_behaviorPrompt context ++ more)), [], more.
    repeat split; [constructor | simpl; lia].
  - cbn [c_role c_text].
    destruct (String.eqb (h_role h) "user"); cbn [String.eqb Ascii.eqb Bool.eqb].
    + eexists _, _, _. split; [reflexivity|]. cbn [c_role c_text].
      split; [reflexivity|]. split; [apply append_assoc|].
      split; [apply roles_of_history|]. rewrite length_map. simpl. lia.
    + eexists _, (_ :: _), more. split; [reflexivity|]. cbn [c_role c_text].
      split; [reflexivity|]. split; [reflexivity|].
      split; [constructor; [now right | apply roles_of_history]|].
      simpl. rewrite length_map. lia.
Qed.

(** X13. After a review that objects, the request of the next attempt is
    the one of the attempt before with two turns inserted before the user
    message: the rejected draft as a model turn, and the corrective note
    as a user turn. The system instruction and the history stay. *)
Theorem retry_request_extends (userMessage : string) (context : ChatContext)
    (generatedResponse : string) (feedback : option string) :
  exists earlier,
    contentsOf userMessage context = (earlier ++ [mkContent "user" userMessage])%list
    /\ contentsOf userMessage (pushFeedback context generatedResponse feedback)
       = (earlier ++ [mkContent "model" generatedResponse;
                      mkContent "user" (systemNote feedback);
                      mkContent "user" userMessage])%list.
Proof.
  unfold contentsOf.
  change (systemInstructionOf (pushFeedback context generatedResponse feedback))
    with (systemInstructionOf context).
  unfold pushFeedback. cbn [conversationHistory].
  rewrite map_app. cbn [map h_role h_content String.eqb Ascii.eqb Bool.eqb].
  destruct (conversationHistory context) as [|h history]; cbn [map app].
  - exists [mkContent "user" (systemInstructionOf context)]. now split.
  - cbn [c_role c_text].
    set (turn := fun msg => mkContent (if String.eqb (h_role msg) "user" then "user" else "model")
                                      (h_content msg)).
    destruct (String.eqb (if String.eqb (h_role h) "user" then "user" else "model") "user").
    + eexists (_ :: map turn history). split; [reflexivity|].
      cbn [app]. now rewrite <- !app_assoc.
    + eexists (_ :: _ :: map turn history). split; [reflexivity|].
      cbn [app]. now rewrite <- !app_assoc.
Qed.

End GenerationFacts.

(* ================================================================= *)
(** ** The verdict of the reviewer *)

Module ReviewFacts.
Import GenerationAgent ProofreaderAgent Runs PipelineSpec.

(** X14. A review makes exactly one call to the provider and never
    throws. Its verdict is either compliant without feedback, or
    non-compliant with a feedback that is not empty. *)
Theorem reviewResponse_verdict (E : Env) (response apiKey userMessage : string) (w : World) :
  snd (reviewResponse E response apiKey userMessage w)
  = logCall (reviewRequest E response apiKey userMessage) w
  /\ exists verdict,
       fst (reviewResponse E response apiKey userMessage w) = Ok verdict
       /\ match feedback verdict with
          | None => isCompliant verdict = true
          | Some f => isCompliant verdict = false /\ f <> EmptyString
          end.
Proof.
  unfold reviewResponse, reviewRequest, tryCatch, bind, callGenerate.
  destruct (generateContent E _ _) as [result | e]; cbv beta iota zeta.
  - destruct (Js.startsWith _ _).
    + split; [reflexivity|]. eexists. split; [reflexivity|]. reflexivity.
    + split; [reflexivity|]. eexists. split; [reflexivity|]. simpl. split; [reflexivity|].
      destruct (Js.truthy _) eqn:Ht; [|discriminate].
      intros Hempty. rewrite Hempty in Ht. discriminate.
  - split; [reflexivity|]. eexists. split; [reflexivity|]. reflexivity.
Qed.

End ReviewFacts.

(* ================================================================= *)
(** ** The locations that are extracted and stored *)

Module LocationFacts.
Import RuntimeFacts AgentFacts GenerationAgent ProofreaderAgent OrchestratorAgent.
Import Runs PipelineSpec Pipeline.

Lemma dropWhile_suffix (A : Type) (test : A -> bool) (l : list A) :
  exists skipped, l = (skipped ++ Js.dropWhile test l)%list.
Proof.
  induction l as [|x rest [skipped IH]]; [now exists []|]. cbn [Js.dropWhile].
  destruct (test x); [|now exists []].
  exists (x :: skipped). cbn [app]. now rewrite <- IH.
Qed.

Lemma dropWhile_head (A : Type) (test : A -> bool) (l : list A) (x : A) (rest : list A) :
  Js.dropWhile test l = x :: rest -> test x = false.
Proof.
  induction l as [|y l IH]; cbn [Js.dropWhile]; [discriminate|].
  destruct (test y) eqn:Hy; [exact IH|].
  intros H. injection H as <- _. exact Hy.
Qed.

Lemma dropWhile_fixed (A : Type) (test : A -> bool) (l : list A) :
  match l with x :: _ => test x = false | [] => True end -> Js.dropWhile test l = l.
Proof. destruct l as [|x rest]; [reflexivity|]. cbn [Js.dropWhile]. now intros ->. Qed.

Lemma dropWhile_keeps_last (A : Type) (test : A -> bool) (l : list A) (x : A) :
  test x = false -> exists kept, Js.dropWhile test (l ++ [x]) = (kept ++ [x])%list.
Proof.
  intros Hx. induction l as [|y l [kept IH]]; cbn [app Js.dropWhile].
  - rewrite Hx. now exists [].
  - destruct (test y); [now exists kept | now exists (y :: l)].
Qed.

Lemma takeWhile_prefix (A : Type) (test : A -> bool) (l : list A) :
  exists rest, l = (Js.takeWhile test l ++ rest)%list.
Proof.
  induction l as [|x l [rest IH]]; [now exists []|]. cbn [Js.takeWhile].
  destruct (test x); [|now exists (x :: l)].
  exists rest. cbn [app]. now rewrite <- IH.
Qed.

(** What [trimmed] keeps stands between what it removes. *)
Lemma trimmed_infix (l : list string) :
  exists leading trailing, l = (leading ++ Js.trimmed l ++ trailing)%list.
Proof.
  unfold Js.trimmed.
  destruct (dropWhile_suffix Js.isWhite l) as [leading Hl].
  destruct (dropWhile_suffix Js.isWhite (rev (Js.dropWhile Js.isWhite l))) as [skipped Hr].
  exists leading, (rev skipped).
  rewrite <- rev_app_distr, <- Hr, rev_involutive. exact Hl.
Qed.

(** What [trimmed] keeps neither starts nor ends with white space. *)
Lemma trimmed_settled (l : list string) : Js.trimmed (Js.trimmed l) = Js.trimmed l.
Proof.
  unfold Js.trimmed at 2 3.
  set (m := Js.dropWhile Js.isWhite l).
  set (r := Js.dropWhile Js.isWhite (rev m)).
  assert (Hr : Js.dropWhile Js.isWhite r = r).
  { apply dropWhile_fixed. destruct r as [|x rest] eqn:Hx; [exact I|].
    now apply (dropWhile_head Js.isWhite (rev m) Hx). }
  assert (Ht : Js.dropWhile Js.isWhite (rev r) = rev r).
  { apply dropWhile_fixed. destruct (rev r) as [|x rest] eqn:Hx; [exact I|].
    destruct (dropWhile_suffix Js.isWhite (rev m)) as [skipped Hm]. fold r in Hm.
    apply (f_equal (@rev string)) in Hm. rewrite rev_involutive, rev_app_distr, Hx in Hm.
    cbn [app] in Hm. now apply (dropWhile_head Js.isWhite l Hm). }
  unfold Js.trimmed. rewrite Ht, rev_involutive, Hr. reflexivity.
Qed.

Lemma chars_trimStart (s : string) :
  Js.chars (Js.trimStart s) = Js.dropWhile Js.isWhite (Js.chars s).
Proof.
  destruct (dropWhile_suffix Js.isWhite (Js.chars s)) as [skipped Hs].
  pose proof (CharFacts.chunked_chars s) as Hc. rewrite Hs in Hc.
  exact (CharFacts.chunked_suffix _ _ Hc).
Qed.

Lemma chars_trim (s : string) : Js.chars (Js.trim s) = Js.trimmed (Js.chars s).
Proof.
  destruct (trimmed_infix (Js.chars s)) as [leading [trailing Hs]].
  pose proof (CharFacts.chunked_chars s) as Hc. rewrite Hs in Hc.
  apply CharFacts.chunked_suffix in Hc. exact (CharFacts.chunked_prefix _ _ Hc).
Qed.

Lemma trim_settled (s : string) : Js.trim (Js.trim s) = Js.trim s.
Proof. unfold Js.trim at 1. rewrite chars_trim, trimmed_settled. reflexivity. Qed.

(** The trimmed string is not empty when the string starts with a
    character that is not white space. *)
Lemma trim_of_word (s ch : string) (rest : list string) :
  Js.chars s = ch :: rest -> Js.isWhite ch = false -> Js.trim s <> EmptyString.
Proof.
  intros Hs Hch. unfold Js.trim, Js.trimmed. rewrite Hs.
  cbn [Js.dropWhile]. rewrite Hch. cbn [rev].
  destruct (dropWhile_keeps_last Js.isWhite (rev rest) ch Hch) as [kept ->].
  rewrite rev_app_distr. cbn [rev app Js.glue fold_right].
  assert (Hne : ch <> EmptyString).
  { apply (CharFacts.chars_nonempty s). rewrite Hs. now left. }
  destruct ch; [contradiction | discriminate].
Qed.

Lemma captured_head (text captured : string) :
  MemoryAgent.pick (explicitMatch text) = Some captured ->
  exists ch rest, Js.chars captured = ch :: rest /\ Js.isWhite ch = false.
Proof.
  unfold explicitMatch.
  destruct (Js.startsWith (Js.trimStart text) LABEL); [|discriminate].
  set (after := Js.dropString (String.length LABEL) (Js.trimStart text)).
  unfold MemoryAgent.pick. destruct (Js.truthy (restOfLine (Js.trimStart after))) eqn:Hsome;
    [|discriminate].
  intros H. injection H as <-.
  unfold restOfLine in *. rewrite chars_trimStart in *.
  set (kept := Js.dropWhile Js.isWhite (Js.chars after)) in *.
  assert (Hchunked : CharFacts.Chunked kept).
  { destruct (dropWhile_suffix Js.isWhite (Js.chars after)) as [skipped Hs].
    pose proof (CharFacts.chunked_chars after) as Hc. rewrite Hs in Hc.
    exact (CharFacts.chunked_suffix _ _ Hc). }
  destruct (takeWhile_prefix (fun ch => negb (Js.isTerminator ch)) kept) as [rest Hkept].
  rewrite Hkept in Hchunked. apply CharFacts.chunked_prefix in Hchunked.
  rewrite Hchunked.
  destruct kept as [|ch more] eqn:Hk; [discriminate Hsome|].
  cbn [Js.takeWhile] in *.
  destruct (negb (Js.isTerminator ch)); [|discriminate Hsome].
  exists ch, (Js.takeWhile (fun ch0 => negb (Js.isTerminator ch0)) more).
  split; [reflexivity|]. now apply (dropWhile_head Js.isWhite (Js.chars after) Hk).
Qed.

Lemma acceptable_nonempty (location : string) :
  acceptable location = true -> location <> EmptyString.
Proof. intros H Hempty. subst. discriminate. Qed.

Lemma extracted_location (E : Env) (text apiKey : string) (w : World) :
  exists extracted,
    fst (_extractLocation E text apiKey w) = Ok extracted
    /\ forall l, extracted = Some l -> l <> EmptyString /\ Js.trim l = l.
Proof.
  unfold _extractLocation.
  destruct (negb (Js.truthy text)); [exists None; split; [reflexivity | discriminate]|].
  destruct (MemoryAgent.pick (explicitMatch text)) as [captured|] eqn:Hm.
  - exists (Some (Js.trim captured)). split; [reflexivity|].
    intros l Hl. inversion Hl; subst l.
    destruct (@captured_head text captured Hm) as [ch [rest [Hcap Hch]]].
    split; [exact (@trim_of_word captured ch rest Hcap Hch) | apply trim_settled].
  - unfold tryCatch, bind, callGenerate.
    destruct (generateContent E _ _) as [result | e]; cbv beta iota zeta;
      [|exists None; split; [reflexivity | discriminate]].
    destruct (acceptable (Js.trim (Runtime.text result))) eqn:Hacc;
      [|exists None; split; [reflexivity | discriminate]].
    exists (Some (Js.trim (Runtime.text result))). split; [reflexivity|].
    intros l Hl. inversion Hl; subst l.
    split; [now apply acceptable_nonempty | apply trim_settled].
Qed.

(** X15. The location tracker never throws, and a location it returns is
    not empty and carries no white space at either end. *)
Theorem extractLocation_trimmed (E : Env) (text apiKey : string) (w : World) :
  match fst (_extractLocation E text apiKey w) with
  | Ok (Some l) => l <> EmptyString /\ Js.trim l = l
  | Ok None => True
  | Throw _ => False
  end.
Proof.
  destruct (extracted_location E text apiKey w) as [extracted [Hrun Hloc]].
  rewrite Hrun. destruct extracted as [l|]; [now apply Hloc | exact I].
Qed.

Lemma lastKnownLocationOf_nonempty (history : list Message) :
  lastKnownLocationOf history <> EmptyString.
Proof.
  unfold lastKnownLocationOf. destruct (rev history) as [|lastMessage earlier]; [discriminate|].
  destruct (MemoryAgent.pick (location lastMessage)) as [l|] eqn:Hl; [|discriminate].
  apply pick_truthy in Hl. intros Hempty. subst. discriminate.
Qed.

Lemma resolve_nonempty (extracted : option string) (history : list Message) :
  resolve extracted (lastKnownLocationOf history) <> EmptyString.
Proof.
  unfold resolve. destruct (MemoryAgent.pick extracted) as [l|] eqn:Hl.
  - apply pick_truthy in Hl. intros Hempty. subst. discriminate.
  - apply lastKnownLocationOf_nonempty.
Qed.

(** X16. Whatever the provider answers, a request adds at most two turns
    at the end of the stored conversation, and each turn it adds carries a
    location that is not empty. *)
Theorem handleRequest_stores_locations (E : Env) (userMessage : string)
    (history : list Message) (clientApiKey : option string) (w : World) :
  exists added,
    messages (snd (handleRequest E userMessage history clientApiKey w))
    = (messages w ++ added)%list
    /\ length added <= 2
    /\ Forall (fun m => exists l, location m = Some l /\ l <> EmptyString) added.
Proof.
  assert (Hrejected :
            (exists e, handleRequest E userMessage history clientApiKey w = (Throw e, w)) ->
            exists added,
              messages (snd (handleRequest E userMessage history clientApiKey w))
              = (messages w ++ added)%list
              /\ length added <= 2
              /\ Forall (fun m => exists l, location m = Some l /\ l <> EmptyString) added).
  { intros [e He]. rewrite He. exists []. simpl. rewrite app_nil_r.
    split; [reflexivity|]. split; [lia | constructor]. }
  destruct (settings w) as [s|] eqn:Hs.
  2:{ apply Hrejected, handleRequest_rejected. now rewrite Hs. }
  destruct (MemoryAgent.pick (MemoryAgent.orElse clientApiKey (geminiApiKey s)))
    as [key|] eqn:Hk.
  2:{ apply Hrejected, handleRequest_rejected. now rewrite Hs. }
  rewrite (handleRequest_unfold E userMessage history clientApiKey w Hs Hk).
  destruct (stages_run E s key userMessage history w (withUserTurn w userMessage history))
    as [d [_ [_ Hshape]]].
  assert (Huser : exists l, location (userTurn w userMessage history) = Some l
                            /\ l <> EmptyString).
  { eexists. split; [reflexivity | apply lastKnownLocationOf_nonempty]. }
  destruct (fst (stages E s key userMessage history w (withUserTurn w userMessage history)))
    as [response | e].
  - destruct Hshape as [w3 [_ [_ Hmsgs]]]. rewrite Hmsgs. simpl.
    rewrite <- app_assoc. eexists. split; [reflexivity|]. split; [simpl; lia|].
    constructor; [exact Huser|]. constructor; [|constructor].
    eexists. split; [reflexivity | apply resolve_nonempty].
  - rewrite Hshape. simpl. eexists. split; [reflexivity|]. split; [simpl; lia|].
    constructor; [exact Huser | constructor].
Qed.

Lemma splitChar_nonempty (sep : ascii) (s : string) : Js.splitChar sep s <> [].
Proof.
  induction s as [|c r IH]; simpl; [discriminate|].
  destruct (Ascii.eqb c sep); [discriminate|].
  destruct (Js.splitChar sep r); discriminate.
Qed.

Lemma join_cons (sep p : string) (parts : list string) :
  parts <> [] -> Js.join sep (p :: parts) = p ++ sep ++ Js.join sep parts.
Proof. destruct parts; [congruence | reflexivity]. Qed.

Lemma splitChar_lines (sep : ascii) (s : string) : 0 < length (Js.splitChar sep s).
Proof.
  pose proof (splitChar_nonempty sep s) as Hne.
  destruct (Js.splitChar sep s); [congruence | simpl; lia].
Qed.

Lemma joined_lines (text : string) :
  forall n,
  exists rest,
    text = Js.join Js.nl (firstn n (Js.splitChar (ascii_of_nat 10) text)) ++ rest
    /\ (length (Js.splitChar (ascii_of_nat 10) text) <= n -> rest = EmptyString).
Proof.
  induction text as [|c r IH]; intros n.
  - destruct n; simpl; rewrite ?firstn_nil; exists EmptyString; now split.
  - destruct n as [|n].
    { exists (String c r). split; [reflexivity|]. intros Hlen.
      pose proof (splitChar_lines (ascii_of_nat 10) (String c r)). lia. }
    pose proof (splitChar_lines (ascii_of_nat 10) r) as Hlines.
    cbn [Js.splitChar]. destruct (Ascii.eqb c (ascii_of_nat 10)) eqn:Hc.
    + apply Ascii.eqb_eq in Hc. subst c. cbn [firstn].
      destruct n as [|n].
      * exists (String (ascii_of_nat 10) r). split; [reflexivity|].
        intros Hlen. simpl in Hlen. lia.
      * destruct (IH (S n)) as [rest [Htext Hall]].
        exists rest. split.
        -- rewrite join_cons.
           ++ change (String (ascii_of_nat 10) r
                      = String (ascii_of_nat 10)
                          (Js.join Js.nl (firstn (S n) (Js.splitChar (ascii_of_nat 10) r))
                           ++ rest)).
              now rewrite <- Htext.
           ++ destruct (Js.splitChar (ascii_of_nat 10) r);
                [simpl in Hlines; lia | simpl; discriminate].
        -- intros Hlen. apply Hall. simpl in Hlen. lia.
    + destruct (IH (S n)) as [rest [Htext Hall]].
      destruct (Js.splitChar (ascii_of_nat 10) r) as [|line more] eqn:Hsplit.
      { simpl in Hlines. lia. }
      exists rest. split; [|intros Hlen; apply Hall; simpl in *; lia].
      cbn [firstn] in *. destruct (firstn n more) as [|l2 more'].
      * cbn [Js.join append] in *. now rewrite <- Htext.
      * rewrite join_cons in Htext by discriminate. rewrite join_cons by discriminate.
        cbn [append]. now rewrite <- Htext.
Qed.

(** X17. The header that the location tracker sends to the model is a
    prefix of the generated text, and the whole text when it has at most
    5 lines. *)
Theorem header_is_prefix (text : string) :
  exists rest,
    text = header text ++ rest
    /\ (length (Js.splitChar (ascii_of_nat 10) text) <= 5 -> header text = text).
Proof.
  destruct (joined_lines text 5) as [rest [Htext Hall]].
  exists rest. split; [exact Htext|].
  intros Hlen. rewrite (Hall Hlen) in Htext. rewrite Htext at 2.
  unfold header. now rewrite CharFacts.append_empty.
Qed.

End LocationFacts.

(* ================================================================= *)
(** ** The summary of a consolidation *)

Module SummaryFacts.
Import RuntimeFacts GenerationAgent Runs FlowSpec.

Lemma logged_position (r : Request) (w : World) :
  length (calls (logCall r w)) = S (length (calls w)).
Proof. simpl. rewrite length_app. simpl. lia. Qed.

(** X18. [summarizeForMemory] never throws and leaves the storage as it
    is. It sends the same request between 1 and 3 times: every call but
    the last one threw, and the summary is the answer of the last call,
    or the joined messages when that answer is empty or when the third
    call threw as well. *)
Theorem summarizeForMemory_attempts (E : Env) (messages : list string)
    (apiKey : option string) (w : World) :
  exists n summary,
    1 <= n <= 3
    /\ Gemini.summarizeForMemory E messages apiKey w
       = (Ok summary, addCalls (repeat (summaryRequest E messages apiKey) n) w)
    /\ (forall i, i < n - 1 ->
        exists e,
          generateContent E (length (calls w) + i) (summaryRequest E messages apiKey)
          = Throw e)
    /\ match generateContent E (length (calls w) + (n - 1))
               (summaryRequest E messages apiKey) with
       | Ok result =>
           summary = if Js.truthy (text result) then text result
                     else Js.join Js.nl messages
       | Throw _ => n = 3 /\ summary = Js.join Js.nl messages
       end.
Proof.
  unfold Gemini.summarizeForMemory. fold (summaryRequest E messages apiKey).
  set (request := summaryRequest E messages apiKey).
  assert (Hrun : Gemini.summarizeAttempts E 3 (clientKey E apiKey) (Js.join Js.nl messages) w
                 = match generateContent E (length (calls w) + 0) request with
                   | Ok result =>
                       (Ok (if Js.truthy (text result) then text result
                            else Js.join Js.nl messages),
                        addCalls (repeat request 1) w)
                   | Throw _ =>
                       match generateContent E (length (calls w) + 1) request with
                       | Ok result =>
                           (Ok (if Js.truthy (text result) then text result
                                else Js.join Js.nl messages),
                            addCalls (repeat request 2) w)
                       | Throw _ =>
                           match generateContent E (length (calls w) + 2) request with
                           | Ok result =>
                               (Ok (if Js.truthy (text result) then text result
                                    else Js.join Js.nl messages),
                                addCalls (repeat request 3) w)
                           | Throw _ =>
                               (Ok (Js.join Js.nl messages), addCalls (repeat request 3) w)
                           end
                       end
                   end).
  { subst request. unfold summaryRequest.
    replace (length (calls w) + 0) with (length (calls w)) by lia.
    replace (length (calls w) + 1) with (S (length (calls w))) by lia.
    replace (length (calls w) + 2) with (S (S (length (calls w)))) by lia.
    cbn [Gemini.summarizeAttempts]. unfold tryCatch, bind, callGenerate, ret.
    destruct (generateContent E (length (calls w)) _); cbv beta iota; [reflexivity|].
    rewrite logged_position.
    destruct (generateContent E (S (length (calls w))) _); cbv beta iota;
      [unfold logCall, addCalls; simpl; now rewrite <- app_assoc|].
    rewrite !logged_position.
    destruct (generateContent E (S (S (length (calls w)))) _); cbv beta iota;
      unfold logCall, addCalls; simpl; now rewrite <- !app_assoc. }
  rewrite Hrun.
  destruct (generateContent E (length (calls w) + 0) request) as [r0 | e0] eqn:G0.
  { exists 1. eexists. split; [lia|]. split; [reflexivity|].
    split; [intros i Hi; lia|]. simpl Nat.sub. now rewrite G0. }
  destruct (generateContent E (length (calls w) + 1) request) as [r1 | e1] eqn:G1.
  { exists 2. eexists. split; [lia|]. split; [reflexivity|]. split.
    - intros i Hi. assert (i = 0) by lia. subst i. now exists e0.
    - simpl Nat.sub. now rewrite G1. }
  assert (Hfailed : forall i, i < 3 - 1 ->
                      exists e, generateContent E (length (calls w) + i) request = Throw e).
  { intros i Hi. assert (Hcases : i = 0 \/ i = 1) by lia.
    destruct Hcases; subst i; [now exists e0 | now exists e1]. }
  destruct (generateContent E (length (calls w) + 2) request) as [r2 | e2] eqn:G2.
  - exists 3. eexists. split; [lia|]. split; [reflexivity|]. split; [exact Hfailed|].
    simpl Nat.sub. now rewrite G2.
  - exists 3. eexists. split; [lia|]. split; [reflexivity|]. split; [exact Hfailed|].
    simpl Nat.sub. rewrite G2. now split.
Qed.

End SummaryFacts.

(* ================================================================= *)
(** ** The answers of the chat route *)

Module RouteFacts.
Import RuntimeFacts AgentFacts GenerationAgent ProofreaderAgent Routes Runs RouteSpec.
Import Pipeline ChatRoute.

(** X19. Without a key, in the settings or in the environment, the
    route leaves the world as it is: no message is stored and the provider
    is not called. It answers 400 when the body of the request passes the
    schema; a body that does not pass it is answered 500, with the message
    of the error of the schema, since the body is parsed before the key is
    looked up. *)
Theorem chat_without_key (E : Env) (parsed : Result string) (w : World) :
  routeKey E w = None ->
  chat E parsed w
  = (Ok (match parsed with
         | Ok _ =>
             mkHttp 400 (JsonError "Gemini API key not configured. Please add it in Settings.")
         | Throw zodError =>
             mkHttp 500 (JsonError (match MemoryAgent.pick (message zodError) with
                                    | Some msg => msg
                                    | None => "Failed to generate response"
                                    end))
         end),
     w).
Proof.
  intros Hkey. unfold routeKey in Hkey. destruct parsed as [content | zodError].
  - unfold chat, tryCatch, bind, Storage.getSettings. now rewrite Hkey.
  - reflexivity.
Qed.

Lemma chat_without_key_witness :
  chat (Fixtures.envWith Fixtures.lenientModel Fixtures.skyEmbedding)
       (Ok "I follow the bird.") Outages.keylessWorld
  = (Ok (mkHttp 400 (JsonError "Gemini API key not configured. Please add it in Settings.")),
     Outages.keylessWorld)
  /\ chat (Fixtures.envWith Fixtures.lenientModel Fixtures.skyEmbedding)
          (Throw Exchanges.missingContent) Outages.keylessWorld
     = (Ok (mkHttp 500 (JsonError "Required")), Outages.keylessWorld).
Proof.
  split.
  - exact (chat_without_key (Fixtures.envWith Fixtures.lenientModel Fixtures.skyEmbedding)
             (Ok "I follow the bird.") Outages.keylessWorld eq_refl).
  - exact (chat_without_key (Fixtures.envWith Fixtures.lenientModel Fixtures.skyEmbedding)
             (Throw Exchanges.missingContent) Outages.keylessWorld eq_refl).
Defined.

Lemma consolidate_quiet (E : Env) (updatedMessages : list Message) (apiKey : string)
    (w : World) :
  exists d,
    fst (consolidate E updatedMessages apiKey w) = Ok tt
    /\ calls (snd (consolidate E updatedMessages apiKey w)) = (calls w ++ d)%list
    /\ attempts d = 0
    /\ messages (snd (consolidate E updatedMessages apiKey w)) = messages w.
Proof.
  unfold consolidate.
  destruct ((length updatedMessages mod 4 =? 0) && (0 <? length updatedMessages))%nat.
  - unfold Gemini.summarizeForMemory, bind.
    set (text := Js.join Js.nl (map Schema.content (Js.lastN 4 updatedMessages))).
    destruct (within_summarizeAttempts E 3 (clientKey E (Some apiKey)) text w) as [d [Hd Hn]].
    destruct (summarizeAttempts_returns E 3 (clientKey E (Some apiKey)) text w)
      as [summary Hs].
    destruct (Gemini.summarizeAttempts E 3 (clientKey E (Some apiKey)) text w)
      as [[s' | e] w1]; simpl in Hd, Hs; subst w1; [|discriminate].
    exists d. simpl. repeat split; lia.
  - exists []. simpl. rewrite app_nil_r. now repeat split.
Qed.

(** The runs of the route on a body that passes the schema, with a key. *)
Lemma chat_parsed_with_key (E : Env) (content apiKey : string) (w : World) :
  routeKey E w = Some apiKey ->
  exists response d,
    fst (chat E (Ok content) w) = Ok response
    /\ calls (snd (chat E (Ok content) w)) = (calls w ++ d)%list
    /\ attempts d <= 1
    /\ match body response with
       | JsonMessage assistantMessage =>
           status response = 200
           /\ role assistantMessage = "assistant"
           /\ messages (snd (chat E (Ok content) w))
              = (messages w ++ [userRow w content; assistantMessage])%list
       | JsonError msg =>
           status response = 500
           /\ msg <> EmptyString
           /\ messages (snd (chat E (Ok content) w))
              = (messages w ++ [userRow w content])%list
       end.
Proof.
  intros Hkey.
  remember (chat E (Ok content) w) as run eqn:Hrun.
  rewrite (chat_unfold E content w Hkey) in Hrun.
  unfold tryCatch, bind in Hrun.
  set (w1 := store (userRow w content) w) in Hrun.
  destruct (within_agentFlow E (settings w) apiKey content
              (messages w ++ [userRow w content])%list w1) as [d [Hd Hn]].
  destruct (agentFlow E (settings w) apiKey content (messages w ++ [userRow w content])%list w1)
    as [[aiResponse | e] w2]; simpl in Hd; subst w2.
  - unfold persistAndConsolidate, bind, Storage.createMessage, Storage.getAllMessages in Hrun.
    cbn [ins_role ins_content ins_location] in Hrun.
    match type of Hrun with
    | context [consolidate E ?ms apiKey ?w3] =>
        destruct (consolidate_quiet E ms apiKey w3) as [d2 [Hok [Hcalls [Hatt Hmsgs]]]];
        destruct (consolidate E ms apiKey w3) as [[u | e] w4]
    end; cbn [fst snd] in Hok, Hcalls, Hmsgs; [|discriminate].
    unfold ret in Hrun. subst run. cbn [fst snd].
    eexists _, (d ++ d2)%list. split; [reflexivity|].
    split; [rewrite Hcalls; simpl; now rewrite app_assoc|].
    split; [rewrite attempts_app; lia|].
    cbn [body status]. split; [reflexivity|]. split; [reflexivity|].
    rewrite Hmsgs. simpl. now rewrite <- app_assoc.
  - unfold onError, ret in Hrun. subst run. cbn [fst snd].
    eexists _, d. split; [reflexivity|]. split; [reflexivity|]. split; [exact Hn|].
    cbn [body status]. split; [reflexivity|]. split; [|reflexivity].
    destruct (MemoryAgent.pick (message e)) as [msg|] eqn:Hmsg; [|discriminate].
    apply pick_truthy in Hmsg. intros Hempty. subst. discriminate.
Qed.

(** X20. With a key, the route always answers, after at most one
    generation attempt. A body that does not pass the schema is answered
    500 with a message that is not empty, and nothing is stored or called.
    A body that passes it is answered 200 with the assistant message, the
    user turn and the assistant turn stored in this order; or 500 with a
    message that is not empty, the user turn stored and no assistant turn
    after it. *)
Theorem chat_with_key (E : Env) (parsed : Result string) (apiKey : string) (w : World) :
  routeKey E w = Some apiKey ->
  exists response d,
    fst (chat E parsed w) = Ok response
    /\ calls (snd (chat E parsed w)) = (calls w ++ d)%list
    /\ attempts d <= 1
    /\ match parsed with
       | Throw zodError =>
           status response = 500
           /\ (exists msg, body response = JsonError msg /\ msg <> EmptyString)
           /\ snd (chat E parsed w) = w
           /\ d = []
       | Ok content =>
           match body response with
           | JsonMessage assistantMessage =>
               status response = 200
               /\ role assistantMessage = "assistant"
               /\ messages (snd (chat E parsed w))
                  = (messages w ++ [userRow w content; assistantMessage])%list
           | JsonError msg =>
               status response = 500
               /\ msg <> EmptyString
               /\ messages (snd (chat E parsed w))
                  = (messages w ++ [userRow w content])%list
           end
       end.
Proof.
  intros Hkey. destruct parsed as [content | zodError].
  - exact (chat_parsed_with_key E content w Hkey).
  - eexists _, []. unfold chat, tryCatch, throw, ret.
    cbn [fst snd body status]. rewrite app_nil_r.
    split; [reflexivity|]. split; [reflexivity|]. split; [unfold attempts; simpl; lia|].
    cbn [fst snd body status].
    split; [reflexivity|]. split; [|now split].
    eexists. split; [reflexivity|].
    destruct (MemoryAgent.pick (message zodError)) as [msg|] eqn:Hmsg; [|discriminate].
    apply pick_truthy in Hmsg. intros Hempty. subst. discriminate.
Qed.

Lemma chat_with_key_witness :
  (exists response d,
    fst (chat (Fixtures.envWith Fixtures.modelDown Fixtures.embeddingDown)
              (Ok "I follow the bird.") Fixtures.twoTurnWorld) = Ok response
    /\ calls (snd (chat (Fixtures.envWith Fixtures.modelDown Fixtures.embeddingDown)
                        (Ok "I follow the bird.") Fixtures.twoTurnWorld))
       = (calls Fixtures.twoTurnWorld ++ d)%list
    /\ attempts d <= 1
    /\ match body response with
       | JsonMessage assistantMessage =>
           status response = 200
           /\ role assistantMessage = "assistant"
           /\ messages (snd (chat (Fixtures.envWith Fixtures.modelDown Fixtures.embeddingDown)
                                  (Ok "I follow the bird.") Fixtures.twoTurnWorld))
              = (messages Fixtures.twoTurnWorld
                 ++ [userRow Fixtures.twoTurnWorld "I follow the bird."; assistantMessage])%list
       | JsonError msg =>
           status response = 500
           /\ msg <> EmptyString
           /\ messages (snd (chat (Fixtures.envWith Fixtures.modelDown Fixtures.embeddingDown)
                                  (Ok "I follow the bird.") Fixtures.twoTurnWorld))
              = (messages Fixtures.twoTurnWorld
                 ++ [userRow Fixtures.twoTurnWorld "I follow the bird."])%list
       end)
  /\ routeKey (Fixtures.envWith Fixtures.modelDown Fixtures.embeddingDown)
       Fixtures.twoTurnWorld = Some "key".
Proof.
  split; [|reflexivity].
  exact (chat_with_key (Fixtures.envWith Fixtures.modelDown Fixtures.embeddingDown)
           (Ok "I follow the bird.") (apiKey := "key") Fixtures.twoTurnWorld eq_refl).
Defined.

End RouteFacts.

(* ================================================================= *)
(** ** The keyword stage finds what mentions a keyword *)

Module KeywordReach.
Import QueryAgent Runs RetrievalSpec StageSpec PipelineSpec.
Import RuntimeFacts RetrievalFacts RetrievalClaims KeywordFacts KeywordStage.

Lemma set_present (V : Type) (m : Js.OMap string V) (k : string) (v : V) :
  In (k, v) (Js.set String.eqb m k v).
Proof.
  induction m as [|[k' v'] t IH]; simpl; [now left|].
  destruct (String.eqb k' k); [now left | now right].
Qed.

Lemma set_keeps (V : Type) (f : string -> V) (m : Js.OMap string V) (k0 k : string) :
  In (k0, f k0) m -> In (k0, f k0) (Js.set String.eqb m k (f k)).
Proof.
  induction m as [|[k' v'] t IH]; simpl; [intros []|].
  destruct (String.eqb k' k) eqn:Hk; intros [Hhead | Htail].
  - apply String.eqb_eq in Hk. inversion Hhead; subst. now left.
  - now right.
  - now left.
  - right. now apply IH.
Qed.

Lemma keywordMatches_complete (V : Type) (f : string -> V) (keywords : list string)
    (k : string) :
  forall found,
  In k keywords \/ In (k, f k) found ->
  In (k, f k) (fold_left (fun acc keyword => Js.set String.eqb acc keyword (f keyword))
                         keywords found).
Proof.
  induction keywords as [|k' rest IH]; simpl; intros found H.
  - destruct H as [[] | H]. exact H.
  - apply IH. destruct H as [[-> | Hrest] | Hfound].
    + right. apply set_present.
    + now left.
    + right. now apply set_keeps.
Qed.

Lemma addUnique_nonempty (um : Js.OMap nat Message) (message : Message) :
  addUnique um message <> [].
Proof.
  unfold addUnique. destruct (Js.has Nat.eqb um (id message)) eqn:Hhas.
  - destruct um; [discriminate Hhas | discriminate].
  - destruct um as [|[k v] t]; simpl; [discriminate|].
    destruct (Nat.eqb k (id message)); discriminate.
Qed.

Lemma addAll_nonempty (matches : list Message) :
  forall um, um <> [] \/ matches <> [] -> fold_left addUnique matches um <> [].
Proof.
  induction matches as [|m t IH]; simpl; intros um H.
  - destruct H as [H | H]; [exact H | congruence].
  - apply IH. left. apply addUnique_nonempty.
Qed.

Lemma collect_nonempty (found : list (string * list Message)) :
  forall um,
  um <> [] \/ (exists entry, In entry found /\ snd entry <> []) ->
  fold_left (fun acc entry => fold_left addUnique (snd entry) acc) found um <> [].
Proof.
  induction found as [|x rest IH]; simpl; intros um H.
  - destruct H as [H | [entry [[] _]]]. exact H.
  - apply IH. destruct H as [H | [entry [[<- | Hrest] Hne]]].
    + left. apply addAll_nonempty. now left.
    + left. apply addAll_nonempty. now right.
    + right. now exists entry.
Qed.

Lemma matchesOf_nonempty (limit : nat) (allMessages : list Message) (keyword : string)
    (message : Message) :
  0 < limit -> In message allMessages -> mentions keyword message = true ->
  matchesOf limit allMessages keyword <> [].
Proof.
  intros Hlimit Hin Hm. unfold matchesOf. fold (mentions keyword).
  assert (Hsorted : In message (Js.sort longer (filter (mentions keyword) allMessages))).
  { apply (Permutation_in _ (Permutation_sym (JsFacts.sort_perm longer _))).
    apply filter_In. now split. }
  destruct (Js.sort longer (filter (mentions keyword) allMessages)); [destruct Hsorted|].
  destruct limit; [lia | discriminate].
Qed.

Lemma keywordSearch_reach (query : string) (allMessages : list Message)
    (keyword : string) (message : Message) :
  In keyword (extractKeywords query) -> In message allMessages ->
  mentions keyword message = true ->
  keywordSearch query allMessages <> [].
Proof.
  intros Hk Hin Hm. unfold keywordSearch.
  destruct (length (extractKeywords query) =? 0)%nat eqn:Hlen.
  { apply Nat.eqb_eq in Hlen. destruct (extractKeywords query); [destruct Hk | discriminate]. }
  unfold Js.values, Js.entries. intros Hnil. apply map_eq_nil in Hnil. revert Hnil.
  apply collect_nonempty. right.
  set (limit := if (length (extractKeywords query) <? 5)%nat then 15 else 10).
  exists (keyword, matchesOf limit allMessages keyword). split.
  - apply (keywordMatches_complete (fun k => matchesOf limit allMessages k)). now left.
  - apply (@matchesOf_nonempty limit allMessages keyword message); try assumption.
    unfold limit. destruct (length (extractKeywords query) <? 5)%nat; lia.
Qed.

(** X21. The keyword stage returns something exactly when some message
    of the corpus mentions some keyword of the query. *)
Theorem keywordSearch_nonempty_iff (query : string) (allMessages : list Message) :
  keywordSearch query allMessages <> []
  <-> exists keyword message,
        In keyword (extractKeywords query)
        /\ In message allMessages
        /\ mentions keyword message = true.
Proof.
  split.
  - intros Hne. destruct (keywordSearch query allMessages) as [|message rest] eqn:Hsearch;
      [congruence|].
    destruct (@keywordSearch_origin query allMessages message) as [Hin [keyword [Hk Hm]]];
      [rewrite Hsearch; now left|].
    now exists keyword, message.
  - intros [keyword [message [Hk [Hin Hm]]]].
    exact (keywordSearch_reach query allMessages keyword message Hk Hin Hm).
Qed.

Lemma prefix_empty (s : string) : String.prefix EmptyString s = true.
Proof. now destruct s. Qed.

Lemma prefix_cons (c : ascii) (p s : string) :
  String.prefix (String c p) (String c s) = String.prefix p s.
Proof. simpl. destruct (ascii_dec c c); [reflexivity | congruence]. Qed.

Lemma includes_prefix (s sub : string) : String.prefix sub s = true -> Js.includes s sub = true.
Proof. intros H. destruct s; cbn [Js.includes]; now rewrite H. Qed.

Lemma includes_later (c : ascii) (s sub : string) :
  Js.includes s sub = true -> Js.includes (String c s) sub = true.
Proof.
  intros H. cbn [Js.includes]. rewrite H. now destruct (String.prefix sub (String c s)).
Qed.

Lemma includes_after (skipped s sub : string) :
  Js.includes s sub = true -> Js.includes (skipped ++ s) sub = true.
Proof.
  intros H. induction skipped as [|c skipped IH]; [exact H|].
  cbn [append]. now apply includes_later.
Qed.

(** What [blanks] makes of a character that is not a word character is
    white space. *)
Lemma blanks_white (ch : string) :
  Js.isWordChar ch = false -> Forall (fun x => Js.isWhite x = true) (Js.blanks ch).
Proof.
  intros Hword. unfold Js.blanks. rewrite Hword. cbn [orb].
  destruct (Js.isWhite ch) eqn:Hwhite; [now repeat constructor|].
  apply Forall_forall. intros x Hx. apply repeat_spec in Hx. now subst x.
Qed.

Lemma blanks_word (ch : string) :
  Js.isWordChar ch = true ->
  exists c, ch = String c EmptyString /\ Js.blanks ch = [ch] /\ Js.isWhite ch = false.
Proof.
  intros Hword. pose proof (CharFacts.word_not_white ch Hword) as Hwhite.
  unfold Js.blanks. rewrite Hword. cbn [orb].
  destruct ch as [|c [|d more]]; try discriminate Hword. now exists c.
Qed.

(** The tokens after a run of white space. *)
Lemma tokens_after_white (white l : list string) :
  Forall (fun x => Js.isWhite x = true) white ->
  forall inRun token,
  In token (Js.splitSpacesFrom inRun (white ++ l)) ->
  token = EmptyString \/ exists inRun', In token (Js.splitSpacesFrom inRun' l).
Proof.
  induction 1 as [|x white Hx Hwhite IH]; intros inRun token Hin.
  - right. now exists inRun.
  - cbn [app Js.splitSpacesFrom] in Hin. rewrite Hx in Hin.
    destruct inRun; [now apply (IH true)|].
    destruct Hin as [<- | Hin]; [now left | now apply (IH true)].
Qed.

Lemma first_token_after_white (white l : list string) :
  Forall (fun x => Js.isWhite x = true) white -> white <> [] ->
  forall token others,
  Js.splitSpacesFrom false (white ++ l) = token :: others -> token = EmptyString.
Proof.
  intros Hwhite Hne token others H.
  destruct white as [|x white]; [contradiction|].
  inversion Hwhite as [|x0 l0 Hx _]; subst.
  cbn [app Js.splitSpacesFrom] in H. rewrite Hx in H. now injection H as <- _.
Qed.

(** The first token of the blanked string starts the string. *)
Lemma leading_token (l : list string) :
  forall token others,
  Js.splitSpacesFrom false (flat_map Js.blanks l) = token :: others ->
  String.prefix token (Js.glue l) = true.
Proof.
  induction l as [|ch rest IH]; intros token others H.
  - cbn in H. injection H as <- _. reflexivity.
  - cbn [flat_map Js.glue fold_right] in *.
    change (fold_right append EmptyString rest) with (Js.glue rest).
    destruct (Js.isWordChar ch) eqn:Hword.
    + destruct (blanks_word ch Hword) as [c [-> [Hblanks Hwhite]]].
      rewrite Hblanks in H. cbn [app Js.splitSpacesFrom] in H. rewrite Hwhite in H.
      destruct (Js.splitSpacesFrom false (flat_map Js.blanks rest)) as [|w ws] eqn:Hsplit;
        injection H as <- _; cbn [append]; rewrite prefix_cons; [apply prefix_empty|].
      now apply (IH w ws).
    + pose proof (blanks_white ch Hword) as Hwhite.
      destruct (Js.blanks ch) as [|x white] eqn:Hblanks.
      * cbn [app] in H.
        assert (Hempty : ch = EmptyString).
        { unfold Js.blanks in Hblanks. rewrite Hword in Hblanks. cbn [orb] in Hblanks.
          destruct (Js.isWhite ch); [discriminate|].
          destruct ch as [|c more]; [reflexivity|]. cbn [Js.units] in Hblanks.
          destruct (nat_of_ascii c <? 240)%nat; discriminate. }
        subst ch. cbn [append]. now apply (IH token others).
      * rewrite (@first_token_after_white (x :: white) (flat_map Js.blanks rest) Hwhite
                   ltac:(discriminate) token others H).
        apply prefix_empty.
Qed.

(** A token of the blanked string that is not empty occurs in the string. *)
Lemma token_included (l : list string) :
  forall inRun token,
  In token (Js.splitSpacesFrom inRun (flat_map Js.blanks l)) ->
  token <> EmptyString ->
  Js.includes (Js.glue l) token = true.
Proof.
  induction l as [|ch rest IH]; intros inRun token Hin Hne.
  - cbn in Hin. destruct Hin as [<- | []]. congruence.
  - cbn [flat_map Js.glue fold_right] in *.
    change (fold_right append EmptyString rest) with (Js.glue rest).
    destruct (Js.isWordChar ch) eqn:Hword.
    + destruct (blanks_word ch Hword) as [c [-> [Hblanks Hwhite]]].
      rewrite Hblanks in Hin. cbn [app Js.splitSpacesFrom] in Hin. rewrite Hwhite in Hin.
      cbn [append].
      destruct (Js.splitSpacesFrom false (flat_map Js.blanks rest)) as [|w ws] eqn:Hsplit.
      * destruct Hin as [<- | []]. apply includes_prefix.
        rewrite prefix_cons. apply prefix_empty.
      * destruct Hin as [<- | Hin].
        -- apply includes_prefix. cbn [append]. rewrite prefix_cons.
           now apply (@leading_token rest w ws Hsplit).
        -- apply includes_later. apply (IH false); [|exact Hne].
           rewrite Hsplit. now right.
    + destruct (@tokens_after_white (Js.blanks ch) (flat_map Js.blanks rest)
                  (blanks_white ch Hword) inRun token Hin) as [Hempty | [inRun' Hlater]];
        [contradiction|].
      apply includes_after. now apply (IH inRun').
Qed.

(** Lower-casing leaves a string of word characters with no upper case
    as it is. *)
Lemma toLowerCase_settled (s : string) :
  Forall (fun c => Js.isWord c = true /\ Js.lowerChar c = c) (list_ascii_of_string s) ->
  Js.toLowerCase s = s.
Proof.
  intros Hall. unfold Js.toLowerCase.
  assert (Hsame : forall before, Js.lowerFrom before (Js.chars s) = Js.chars s).
  { induction s as [|c r IH]; intros before; [reflexivity|].
    cbn [list_ascii_of_string] in Hall. inversion Hall as [|c0 l0 [Hword Hlow] Hr]; subst.
    rewrite CharFacts.chars_cons.
    assert (Hw : Js.width c = 1).
    { pose proof (word_is_ascii c Hword). unfold Js.width.
      destruct (Nat.ltb_spec (nat_of_ascii c) 192); [reflexivity | lia]. }
    rewrite Hw. cbn [Js.takeString Js.dropString Js.lowerFrom].
    assert (Hsigma : String.eqb (String c EmptyString) Js.SIGMA = false).
    { unfold Js.SIGMA. cbn [String.eqb]. now destruct (Ascii.eqb c _). }
    rewrite Hsigma. cbn [Js.lowerChars app]. rewrite Hlow. f_equal. now apply IH. }
  rewrite Hsame. apply CharFacts.glue_chars.
Qed.

(** A message mentions the keywords of its own content. *)
Lemma own_keywords (query keyword : string) (message : Message) :
  content message = query -> In keyword (extractKeywords query) ->
  mentions keyword message = true.
Proof.
  intros Hcontent Hk. unfold mentions. rewrite Hcontent.
  unfold extractKeywords, Js.unique in Hk.
  destruct (uniqueFrom_spec
              (filter (fun word => (2 <? Js.length word)%nat
                                   && negb (existsb (String.eqb word) stopWords))
                      (Js.splitSpaces (Js.blankPunctuation (Js.toLowerCase query)))) [])
    as [_ Hfrom].
  destruct (Hfrom keyword Hk) as [Hfilter _].
  apply filter_In in Hfilter. destruct Hfilter as [Htoken Hkeep].
  apply andb_true_iff in Hkeep. destruct Hkeep as [Hlen _]. apply Nat.ltb_lt in Hlen.
  rewrite (@toLowerCase_settled keyword) by exact (@normalised_chars query keyword Htoken).
  rewrite <- (CharFacts.glue_chars (Js.toLowerCase query)).
  unfold Js.splitSpaces in Htoken. rewrite chars_blankPunctuation in Htoken.
  apply (@token_included (Js.chars (Js.toLowerCase query)) false keyword Htoken).
  intros Hempty. subst keyword. change (2 < 0) in Hlen. lia.
Qed.

(** X22. A retrieval for a query that has a keyword and is itself the
    content of a stored message is never empty, and the distiller then
    consults its model: the last call it logs is the filtering request on
    what was retrieved and the last 5 turns of the history. *)
Theorem stored_query_is_retrieved (E : Env) (this userMessage : string)
    (history : list Message) (clientApiKey : string) (w : World) (message : Message) :
  In message (messages w) ->
  content message = userMessage ->
  extractKeywords userMessage <> [] ->
  exists retrieved d,
    fst (queryMessages E userMessage clientApiKey w) = Ok retrieved
    /\ retrieved <> []
    /\ snd (SmartRagAgent.handleRequest E this userMessage history clientApiKey w)
       = addCalls (d ++ [filterRequest E this userMessage retrieved (Js.lastN 5 history)]) w.
Proof.
  intros Hin Hcontent Hkeywords.
  assert (Hkw : keywordSearch userMessage (messages w) <> []).
  { destruct (extractKeywords userMessage) as [|keyword rest] eqn:Hk; [congruence|].
    apply (@keywordSearch_reach userMessage (messages w) keyword message);
      [rewrite Hk; now left | exact Hin |].
    apply (@own_keywords userMessage keyword message Hcontent). rewrite Hk. now left. }
  destruct (queryMessages_run E userMessage clientApiKey w) as [sem [d [Hrun _]]].
  assert (Hne : merge (keywordSearch userMessage (messages w)) sem <> []).
  { rewrite merge_eq.
    destruct (keywordSearch userMessage (messages w)) as [|x xs]; [congruence | discriminate]. }
  exists (merge (keywordSearch userMessage (messages w)) sem), d.
  rewrite Hrun. split; [reflexivity|]. split; [exact Hne|].
  unfold SmartRagAgent.handleRequest, bind. rewrite Hrun.
  unfold SmartRagAgent.filterContext, filterRequest.
  destruct (merge (keywordSearch userMessage (messages w)) sem) as [|x xs]; [congruence|].
  cbn [length Nat.eqb]. unfold bind, callGenerate.
  destruct (generateContent E _ _); cbn [snd]; unfold ret; cbn [snd];
    now rewrite logCall_addCalls, addCalls_app.
Qed.

Lemma stored_query_is_retrieved_witness :
  exists retrieved d,
    fst (queryMessages (Fixtures.envWith Fixtures.strictModel Fixtures.skyEmbedding)
           "I look at the sky." "key" Fixtures.villageWorld) = Ok retrieved
    /\ retrieved <> []
    /\ snd (SmartRagAgent.handleRequest
              (Fixtures.envWith Fixtures.strictModel Fixtures.skyEmbedding)
              "key" "I look at the sky." Fixtures.villageCorpus "key" Fixtures.villageWorld)
       = addCalls (d ++ [filterRequest
                           (Fixtures.envWith Fixtures.strictModel Fixtures.skyEmbedding)
                           "key" "I look at the sky." retrieved
                           (Js.lastN 5 Fixtures.villageCorpus)])
                  Fixtures.villageWorld.
Proof.
  apply (@stored_query_is_retrieved
           (Fixtures.envWith Fixtures.strictModel Fixtures.skyEmbedding)
           "key" "I look at the sky." Fixtures.villageCorpus "key" Fixtures.villageWorld
           (mkMessage 1 "user" "I look at the sky." (Some "Village"))).
  - right. left. reflexivity.
  - reflexivity.
  - vm_compute. discriminate.
Defined.

End KeywordReach.

(* ================================================================= *)
(** ** The response of the orchestrator *)

Module ResponseFacts.
Import RuntimeFacts SemanticFacts AgentFacts GenerationAgent ProofreaderAgent OrchestratorAgent.
Import Runs PipelineSpec Pipeline.

(** The loop returns the last draft, which is not empty; with no
    iteration left it returns the response it was given. *)
Lemma generationLoop_nonempty (E : Env) (userMessage key : string) (remaining : nat) :
  forall chatContext response w generated w',
  (remaining = 0 -> response <> EmptyString) ->
  generationLoop E remaining userMessage chatContext key response w = (Ok generated, w') ->
  generated <> EmptyString.
Proof.
  induction remaining as [|n IH]; intros chatContext response w generated w' Hstart Hrun.
  - simpl in Hrun. inversion Hrun; subst. now apply Hstart.
  - cbn [generationLoop] in Hrun.
    apply bind_ok in Hrun. destruct Hrun as [draft [w1 [Hdraft Hrun]]].
    apply Orchestrator.generateStoryResponse_nonempty in Hdraft.
    apply bind_ok in Hrun. destruct Hrun as [review [w2 [_ Hrun]]].
    destruct (isCompliant review).
    + inversion Hrun; subst. exact Hdraft.
    + eapply IH; [|exact Hrun]. intros _. exact Hdraft.
Qed.

(** X23. A response that [handleRequest] returns is never the empty
    string: the initial value of the loop variable is never returned. The
    response is the content of the turn stored last. *)
Theorem handleRequest_never_empty (E : Env) (userMessage : string)
    (history : list Message) (clientApiKey : option string) (w : World) (response : string) :
  fst (handleRequest E userMessage history clientApiKey w) = Ok response ->
  response <> EmptyString
  /\ exists earlier turn,
       messages (snd (handleRequest E userMessage history clientApiKey w))
       = (earlier ++ [turn])%list
       /\ role turn = "assistant"
       /\ content turn = response.
Proof.
  intros Hok.
  destruct (settings w) as [s|] eqn:Hs.
  2:{ destruct (handleRequest_rejected E userMessage history clientApiKey w) as [e He];
        [now rewrite Hs|]. rewrite He in Hok. discriminate. }
  destruct (MemoryAgent.pick (MemoryAgent.orElse clientApiKey (geminiApiKey s)))
    as [key|] eqn:Hk.
  2:{ destruct (handleRequest_rejected E userMessage history clientApiKey w) as [e He];
        [now rewrite Hs|]. rewrite He in Hok. discriminate. }
  rewrite (handleRequest_unfold E userMessage history clientApiKey w Hs Hk) in *.
  destruct (stages_run E s key userMessage history w (withUserTurn w userMessage history))
    as [d [_ [_ Hshape]]].
  rewrite Hok in Hshape. destruct Hshape as [w3 [_ [_ Hmsgs]]].
  split.
  - destruct (stages E s key userMessage history w (withUserTurn w userMessage history))
      as [result w'] eqn:Hrun.
    simpl in Hok. subst result. unfold stages in Hrun.
    apply bind_ok in Hrun. destruct Hrun as [canon [w1 [_ Hrun]]].
    apply bind_ok in Hrun. destruct Hrun as [generated [w2 [Hloop Hrun]]].
    apply bind_ok in Hrun. destruct Hrun as [extracted [w4 [_ Hrun]]].
    apply bind_ok in Hrun. destruct Hrun as [stored [w5 [_ Hrun]]].
    inversion Hrun; subst.
    eapply generationLoop_nonempty; [|exact Hloop]. unfold MAX_RETRIES. discriminate.
  - rewrite Hmsgs. eexists _, _. split; [reflexivity|]. now split.
Qed.

Lemma handleRequest_never_empty_witness :
  "Draft 2" <> EmptyString
  /\ exists earlier turn,
       messages (snd (handleRequest (Fixtures.envWith Fixtures.lenientModel
                                                      Fixtures.embeddingDown)
                        "What color is the sky?" Fixtures.villageCorpus None
                        Fixtures.villageWorld))
       = (earlier ++ [turn])%list
       /\ role turn = "assistant"
       /\ content turn = "Draft 2".
Proof.
  apply (@handleRequest_never_empty
           (Fixtures.envWith Fixtures.lenientModel Fixtures.embeddingDown)
           "What color is the sky?" Fixtures.villageCorpus None Fixtures.villageWorld
           "Draft 2").
  vm_compute. reflexivity.
Defined.

End ResponseFacts.

(* ================================================================= *)
(** ** The scene summary and the classifier *)

Module SceneFacts.
Import RuntimeFacts GenerationAgent Runs.

Lemma join_opens (sep p : string) (rest : list string) :
  p <> EmptyString -> Js.join sep (p :: rest) <> EmptyString.
Proof.
  intros Hp. destruct p as [|c p]; [congruence|].
  destruct rest; simpl; discriminate.
Qed.

(** X24. The scene summary makes exactly one call to the provider and
    never throws. When the call throws, the summary is the fixed sentence
    with the location and the messages; the summary is empty only when
    there is no message. *)
Theorem scene_summary_fallbacks (E : Env) (messages : list string) (location : string)
    (apiKey : option string) (w : World) :
  let text := Js.join Js.nl (map (fun m => "- " ++ m) messages) in
  let request :=
    GenerateText "gemini-2.5-pro" (clientKey E apiKey) (SummaryAgent.promptOf text location) in
  exists summary,
    SummaryAgent.summarizeForMemory E messages location apiKey w
    = (Ok summary, logCall request w)
    /\ match generateContent E (length (calls w)) request with
       | Ok result => summary = if Js.truthy (Runtime.text result) then Runtime.text result
                                else text
       | Throw _ =>
           summary = "Summary of conversation at " ++ location ++ ": "
                     ++ Js.join " ... " messages
       end
    /\ (summary = EmptyString -> messages = []).
Proof.
  intros text request.
  unfold SummaryAgent.summarizeForMemory, tryCatch, bind, callGenerate.
  fold text. fold request.
  destruct (generateContent E (length (calls w)) request) as [result | e]; cbv beta iota.
  - eexists. split; [reflexivity|]. split; [reflexivity|].
    destruct (Js.truthy (Runtime.text result)) eqn:Ht.
    + intros Hempty. rewrite Hempty in Ht. discriminate.
    + intros Hempty. destruct messages as [|m rest]; [reflexivity|].
      exfalso. revert Hempty. unfold text. cbn [map]. apply join_opens. discriminate.
  - eexists. split; [reflexivity|]. split; [reflexivity|]. discriminate.
Qed.

End SceneFacts.

Module ClassifierFacts.
Import RuntimeFacts GenerationAgent Runs JsPattern ClassificationAgent.


Lemma prefix_drop (pattern s : string) :
  String.prefix pattern s = true ->
  s = pattern ++ Js.dropString (String.length pattern) s.
Proof.
  revert s. induction pattern as [|c p IH]; intros s H; [reflexivity|].
  destruct s as [|d s]; [discriminate|]. simpl in H.
  destruct (ascii_dec c d) as [<- | ]; [|discriminate].
  simpl. f_equal. now apply IH.
Qed.

Lemma cut_splits (pattern : string) (s : string) :
  forall before after,
  cut s pattern = Some (before, after) -> s = before ++ pattern ++ after.
Proof.
  induction s as [|c r IH]; intros before after H; cbn [cut] in H.
  - destruct (String.prefix pattern EmptyString) eqn:Hp; [|discriminate].
    inversion H; subst. now apply prefix_drop.
  - destruct (String.prefix pattern (String c r)) eqn:Hp.
    + inversion H; subst. now apply prefix_drop.
    + destruct (cut r pattern) as [[b a]|]; [|discriminate].
      inversion H; subst. simpl. f_equal. now apply IH.
Qed.

Lemma literal_replacement (matched before after replacement : string) :
  Js.includes replacement "$" = false ->
  substitution matched before after replacement = replacement.
Proof.
  induction replacement as [|d tail IH]; [reflexivity|].
  cbn [Js.includes]. intros H.
  destruct (String.prefix "$" (String d tail)) eqn:Hp; [discriminate|].
  cbn [substitution]. destruct (Ascii.eqb d "$"%char) eqn:Hd.
  - apply Ascii.eqb_eq in Hd. subst d. simpl in Hp. now destruct tail.
  - f_equal. now apply IH.
Qed.

(** X26. For a memory log that holds no dollar sign, the prompt of the
    classifier is the template with the log in the place of the
    placeholder. *)
Theorem classifyMemory_prompt (E : Env) (parseType : string -> option (option string))
    (text : string) (apiKey : option string) (w : World) :
  Js.includes text "$" = false ->
  exists before after,
    classificationPrompt = before ++ "{{MEMORY_LOG}}" ++ after
    /\ snd (classifyMemory E parseType text apiKey w)
       = logCall (GenerateText "gemini-3-flash-preview" (clientKey E apiKey)
                               (before ++ text ++ after)) w.
Proof.
  intros Hliteral.
  destruct (cut classificationPrompt PLACEHOLDER) as [[before after]|] eqn:Hcut;
    [|vm_compute in Hcut; discriminate].
  exists before, after. split; [exact (@cut_splits PLACEHOLDER classificationPrompt before after Hcut)|].
  unfold classifyMemory, promptOf, replaceFirst. rewrite Hcut.
  rewrite (@literal_replacement PLACEHOLDER before after text Hliteral).
  unfold tryCatch, bind, callGenerate.
  destruct (generateContent E _ _) as [result | e]; cbv beta iota zeta; [|reflexivity].
  destruct (matchBraces (Runtime.text result)); [|reflexivity].
  destruct (parseType s) as [[type|]|]; reflexivity.
Qed.

Lemma classifyMemory_prompt_witness :
  exists before after,
    classificationPrompt = before ++ "{{MEMORY_LOG}}" ++ after
    /\ snd (classifyMemory (Fixtures.envWith Classifiers.fencedModel Fixtures.embeddingDown)
              Classifiers.loreParser "The old bridge was built by the first settlers."
              (Some "key") Fixtures.villageWorld)
       = logCall (GenerateText "gemini-3-flash-preview"
                    (clientKey (Fixtures.envWith Classifiers.fencedModel Fixtures.embeddingDown)
                               (Some "key"))
                    (before ++ "The old bridge was built by the first settlers." ++ after))
                 Fixtures.villageWorld.
Proof.
  exact (classifyMemory_prompt
           (Fixtures.envWith Classifiers.fencedModel Fixtures.embeddingDown)
           Classifiers.loreParser "The old bridge was built by the first settlers."
           (Some "key") Fixtures.villageWorld eq_refl).
Defined.

End ClassifierFacts.

(* ================================================================= *)
(** ** Memories ranked by word overlap and importance *)

Module MemoryRetrievalFacts.
Import MemoryRetrieval.
Local Open Scope float_scope.

Lemma zero_importance_below (x importance : float) :
  (importance =? 0) = true -> (0.1 <? x * (importance / 10)) = false.
Proof.
  intros Hzero. rewrite FloatAxioms.eqb_spec in Hzero. rewrite ltb_spec, mul_spec, div_spec.
  destruct (Prim2SF importance) as [s | s | | s m e].
  - destruct s; destruct (Prim2SF x) as [sx | sx | | sx mx ex]; vm_compute; try reflexivity;
      destruct sx; reflexivity.
  - destruct s; vm_compute in Hzero; discriminate.
  - vm_compute in Hzero. discriminate.
  - destruct s; vm_compute in Hzero; discriminate.
Qed.

Lemma retrieveRelevantMemories_origin (query : string) (memories : list Memory)
    (topK : nat) (retrieved : string) :
  In retrieved (retrieveRelevantMemories query memories topK) ->
  exists m,
    In m memories
    /\ (0.1 <? calculateSimilarity query (m_content m) * (m_importance m / 10)) = true
    /\ m_content m = retrieved.
Proof.
  unfold retrieveRelevantMemories. intros Hin.
  apply in_map_iff in Hin. destruct Hin as [scored [<- Hin]].
  apply filter_In in Hin. destruct Hin as [Hin Habove].
  assert (Hsorted : In scored (Js.sort lowerScore (map (scoreOf query) memories))).
  { rewrite <- (firstn_skipn topK). apply in_or_app. now left. }
  apply (Permutation_in _ (JsFacts.sort_perm lowerScore _)) in Hsorted.
  apply in_map_iff in Hsorted. destruct Hsorted as [m [<- Hm]].
  exists m. split; [exact Hm|]. split; [exact Habove | reflexivity].
Qed.

(** X27. [retrieveRelevantMemories] returns at most [topK] contents,
    each the content of a memory of the pool whose score, the similarity
    to the query times a tenth of the importance, is above 0.1. *)
Theorem retrieveRelevantMemories_bounded (query : string) (memories : list Memory)
    (topK : nat) :
  (length (retrieveRelevantMemories query memories topK) <= topK)%nat
  /\ Forall (fun retrieved =>
               exists m,
                 In m memories
                 /\ m_content m = retrieved
                 /\ (0.1 <? calculateSimilarity query (m_content m) * (m_importance m / 10))
                    = true)
            (retrieveRelevantMemories query memories topK).
Proof.
  unfold retrieveRelevantMemories. split.
  - rewrite length_map.
    etransitivity; [apply filter_length_le|]. apply firstn_le_length.
  - apply Forall_forall. intros retrieved Hin.
    destruct (retrieveRelevantMemories_origin query memories topK retrieved Hin)
      as [m [Hm [Habove Hcontent]]].
    exists m. split; [exact Hm|]. split; [exact Hcontent | exact Habove].
Qed.

(** X28. A memory whose importance is zero, of either sign, is never
    retrieved, however close its content is to the query: every content
    returned is the content of a memory of the pool whose importance is
    not zero. *)
Theorem zero_importance_is_never_retrieved (query : string) (memories : list Memory)
    (topK : nat) :
  Forall (fun retrieved =>
            exists m,
              In m memories /\ m_content m = retrieved /\ (m_importance m =? 0) = false)
         (retrieveRelevantMemories query memories topK).
Proof.
  apply Forall_forall. intros retrieved Hin.
  destruct (retrieveRelevantMemories_origin query memories topK retrieved Hin)
    as [m [Hm [Habove Hcontent]]].
  exists m. split; [exact Hm|]. split; [exact Hcontent|].
  destruct (m_importance m =? 0) eqn:Hzero; [|reflexivity].
  rewrite (@zero_importance_below _ (m_importance m) Hzero) in Habove. discriminate.
Qed.

End MemoryRetrievalFacts.

(* ================================================================= *)
(** ** The window of turns sent to the generation model *)

Module WindowFacts.
Import GenerationAgent OrchestratorAgent Runs PipelineSpec RouteSpec.

Lemma lastN_snoc (A : Type) (n : nat) (turns : list A) (latest : A) :
  Js.lastN (S n) (turns ++ [latest]) = (Js.lastN n turns ++ [latest])%list.
Proof.
  unfold Js.lastN. rewrite length_app. simpl length.
  replace (length turns + 1 - S n) with (length turns - n) by lia.
  rewrite skipn_app.
  replace (length turns - n - length turns) with 0 by lia. reflexivity.
Qed.

Lemma lastN_nonempty (A : Type) (n : nat) (turns : list A) :
  turns <> [] -> Js.lastN (S n) turns <> [].
Proof.
  intros Hne Hnil. unfold Js.lastN in Hnil.
  apply (f_equal (@length A)) in Hnil. rewrite length_skipn in Hnil.
  destruct turns; [congruence | cbn [length] in Hnil; lia].
Qed.

Lemma lastN_length (A : Type) (n : nat) (turns : list A) : length (Js.lastN n turns) <= n.
Proof. unfold Js.lastN. rewrite length_skipn. lia. Qed.

Lemma contentsOf_length (userMessage : string) (context : ChatContext) :
  length (contentsOf userMessage context) <= length (conversationHistory context) + 2.
Proof.
  unfold contentsOf. rewrite length_app. simpl length.
  destruct (conversationHistory context) as [|h history]; cbn [map]; [simpl; lia|].
  cbn [c_role]. destruct (String.eqb _ "user"); simpl; rewrite length_map; lia.
Qed.

(** The contents when the history ends with the user message itself. *)
Lemma contentsOf_echo (userMessage : string) (context : ChatContext)
    (window : list HistoryEntry) :
  conversationHistory context = (window ++ [mkEntry "user" userMessage])%list ->
  exists earlier pre,
    contentsOf userMessage context
    = (earlier ++ [mkContent "user" (pre ++ userMessage); mkContent "user" userMessage])%list
    /\ (window <> [] -> pre = EmptyString).
Proof.
  intros Hhistory. unfold contentsOf. rewrite Hhistory. rewrite map_app.
  cbn [map h_role h_content String.eqb Ascii.eqb Bool.eqb].
  set (turn := fun msg => mkContent (if String.eqb (h_role msg) "user" then "user" else "model")
                                    (h_content msg)).
  destruct window as [|h rest]; cbn [map app].
  - cbn [c_role c_text String.eqb Ascii.eqb Bool.eqb].
    exists [], (systemInstructionOf context ++ Js.nl ++ Js.nl ++ "---" ++ Js.nl ++ Js.nl).
    split; [|congruence]. cbn [app]. now rewrite !CharFacts.append_assoc.
  - destruct (String.eqb (c_role (turn h)) "user").
    + eexists (_ :: map turn rest), EmptyString. split; [|reflexivity].
      cbn [app append]. now rewrite <- app_assoc.
    + eexists (_ :: _ :: map turn rest), EmptyString. split; [|reflexivity].
      cbn [app append]. now rewrite <- app_assoc.
Qed.

(** X29. The user message is sent twice: it is stored before the
    history is read, so that the window of the history ends with it, and
    the generation appends it once more. Both in the orchestrator and in
    the chat route, the contents of the request end with two user turns,
    the user message and the user message again; when the user message is
    the only turn of the window, the first of the two carries the system
    instruction before it. *)
Theorem user_message_is_sent_twice (userMessage : string) (history : list Message)
    (w : World) :
  (forall s canon,
     exists earlier pre,
       contentsOf userMessage
         (OrchestratorAgent.chatContextOf s canon
            (history ++ [userTurn w userMessage history]))
       = (earlier ++ [mkContent "user" (pre ++ userMessage);
                      mkContent "user" userMessage])%list
       /\ (history <> [] -> pre = EmptyString))
  /\ (forall settings filteredContext,
        exists earlier pre,
          contentsOf userMessage
            (Routes.chatContextOf settings filteredContext
               (history ++ [userRow w userMessage]))
          = (earlier ++ [mkContent "user" (pre ++ userMessage);
                         mkContent "user" userMessage])%list
          /\ (history <> [] -> pre = EmptyString)).
Proof.
  split.
  - intros s canon.
    destruct (@contentsOf_echo userMessage
                (OrchestratorAgent.chatContextOf s canon
                   (history ++ [userTurn w userMessage history]))
                (map (fun msg => mkEntry (if String.eqb (role msg) "user" then "user"
                                          else "model") (content msg))
                     (Js.lastN 19 history)))
      as [earlier [pre [Hcontents Hpre]]].
    { unfold OrchestratorAgent.chatContextOf. cbn [conversationHistory].
      rewrite lastN_snoc, map_app. reflexivity. }
    exists earlier, pre. split; [exact Hcontents|].
    intros Hne. apply Hpre. intros Hnil. apply map_eq_nil in Hnil.
    now apply (@lastN_nonempty _ 18 history Hne).
  - intros settings filteredContext.
    destruct (@contentsOf_echo userMessage
                (Routes.chatContextOf settings filteredContext
                   (history ++ [userRow w userMessage]))
                (map (fun msg => mkEntry (role msg) (content msg)) (Js.lastN 19 history)))
      as [earlier [pre [Hcontents Hpre]]].
    { unfold Routes.chatContextOf. cbn [conversationHistory].
      rewrite lastN_snoc, map_app. reflexivity. }
    exists earlier, pre. split; [exact Hcontents|].
    intros Hne. apply Hpre. intros Hnil. apply map_eq_nil in Hnil.
    now apply (@lastN_nonempty _ 18 history Hne).
Qed.

(** X30. However long the stored conversation is, a generation request
    holds at most 22 turns in the chat route and in the first attempt of
    the orchestrator, and at most 24 in its second attempt. *)
Theorem generation_request_is_bounded (userMessage : string) (stored : list Message) :
  (forall s canon,
     length (contentsOf userMessage (OrchestratorAgent.chatContextOf s canon stored)) <= 22
     /\ forall generatedResponse feedback,
          length (contentsOf userMessage
                    (pushFeedback (OrchestratorAgent.chatContextOf s canon stored)
                                  generatedResponse feedback)) <= 24)
  /\ (forall settings filteredContext,
        length (contentsOf userMessage (Routes.chatContextOf settings filteredContext stored))
        <= 22).
Proof.
  pose proof (lastN_length 20 stored) as Hwindow.
  split; [intros s canon; split; [|intros generatedResponse feedback] |
          intros settings filteredContext];
    (etransitivity; [apply contentsOf_length|]);
    unfold OrchestratorAgent.chatContextOf, Routes.chatContextOf, pushFeedback;
    cbn [conversationHistory]; rewrite ?length_app, !length_map; simpl length; lia.
Qed.

End WindowFacts.
